(** * Website_Scraper: the crawler, the extractors, the size probe and the reducer

    A shallow embedding of [app.py] and [backend.py] and the properties of
    their crawl scheduler, image/link extractors, size probe and result
    reducer.

    Conventions of the embedding.
    - Python [str] values are [string]s (sequences of 8-bit characters); the
      case conversions and character classes act on ASCII.
    - A Python exception is a value of [exn]; code that may raise returns a
      [result].
    - Python sets are [gset string]; Python lists are [list].
    - The interpreter's [float]s are represented by the rational they denote
      ([Q]); [Float] has the operations the sources apply to them, the
      conversion of an [int], a division by 1024 and a rounding to two
      decimals, each with the rounding of binary64. *)

From Stdlib Require Import ZArith QArith Ascii String List Lia.
From stdpp Require Import base option list gmap sets strings sorting.

Local Open Scope string_scope.
Local Open Scope list_scope.

(** ** Exceptions and fallible computations *)

Inductive exn := IndexError | ValueError.

Inductive result (A : Type) :=
  | Ok (a : A)
  | Raise (e : exn).
Arguments Ok {A} a.
Arguments Raise {A} e.

Definition rbind {A B} (r : result A) (k : A -> result B) : result B :=
  match r with
  | Ok a => k a
  | Raise e => Raise e
  end.

#[global] Instance result_ret : MRet result := fun A a => Ok a.
#[global] Instance result_bind : MBind result := fun A B k r => rbind r k.

(** ** The Python string operations the sources use *)

Module Py.

Definition ascii_eqb (a b : ascii) : bool := bool_decide (a = b).

Definition in_range (lo hi : nat) (c : ascii) : bool :=
  (lo <=? nat_of_ascii c)%nat && (nat_of_ascii c <=? hi)%nat.

Definition is_upper (c : ascii) : bool := in_range 65 90 c.
Definition is_lower (c : ascii) : bool := in_range 97 122 c.
Definition is_digit (c : ascii) : bool := in_range 48 57 c.
Definition is_alpha (c : ascii) : bool := is_upper c || is_lower c.
Definition is_alnum (c : ascii) : bool := is_alpha c || is_digit c.

(** The ASCII characters [str.split()] and [str.strip()] treat as blank. *)
Definition is_space (c : ascii) : bool :=
  in_range 9 13 c || in_range 28 32 c.

Definition lower_char (c : ascii) : ascii :=
  if is_upper c then ascii_of_nat (nat_of_ascii c + 32) else c.

(** [s.lower()], on ASCII letters *)
Fixpoint lower (s : string) : string :=
  match s with
  | EmptyString => EmptyString
  | String c s' => String (lower_char c) (lower s')
  end.

(** [s[n:]] *)
Fixpoint drop (n : nat) (s : string) : string :=
  match n, s with
  | O, _ => s
  | S _, EmptyString => EmptyString
  | S n', String _ s' => drop n' s'
  end.

(** [s.startswith(p)] *)
Fixpoint startswith (p s : string) : bool :=
  match p, s with
  | EmptyString, _ => true
  | String _ _, EmptyString => false
  | String a p', String b s' => ascii_eqb a b && startswith p' s'
  end.

(** [sub in s] *)
Fixpoint contains (sub s : string) : bool :=
  startswith sub s ||
  match s with
  | EmptyString => false
  | String _ s' => contains sub s'
  end.

(** [c in s] for a single character *)
Fixpoint has_char (c : ascii) (s : string) : bool :=
  match s with
  | EmptyString => false
  | String b s' => ascii_eqb c b || has_char c s'
  end.

(** [s.endswith(suf)] *)
Definition endswith (suf s : string) : bool :=
  startswith (String.rev suf) (String.rev s).

(** [s.split(sep)] for a one-character separator *)
Fixpoint split (sep : ascii) (s : string) : list string :=
  match s with
  | EmptyString => [EmptyString]
  | String c s' =>
      if ascii_eqb c sep then EmptyString :: split sep s'
      else match split sep s' with
           | [] => [String c EmptyString]
           | h :: t => String c h :: t
           end
  end.

(** [s.split(sep, 1)], as the pair (before, after); [after] is [None] when
    [sep] does not occur *)
Fixpoint split_once (sep : ascii) (s : string) : string * option string :=
  match s with
  | EmptyString => (EmptyString, None)
  | String c s' =>
      if ascii_eqb c sep then (EmptyString, Some s')
      else let '(a, b) := split_once sep s' in (String c a, b)
  end.

(** [s.split()] *)
Fixpoint split_ws (s : string) : list string :=
  match s with
  | EmptyString => []
  | String c s' =>
      if is_space c then split_ws s'
      else match s' with
           | EmptyString => [String c EmptyString]
           | String c' _ =>
               if is_space c' then String c EmptyString :: split_ws s'
               else match split_ws s' with
                    | [] => [String c EmptyString]
                    | h :: t => String c h :: t
                    end
           end
  end.

(** [s.lstrip(chars)], [s.rstrip(chars)] and [s.strip(chars)], with the set
    of characters given as a predicate; [s.strip()] strips the blanks *)
Fixpoint lstrip_by (p : ascii -> bool) (s : string) : string :=
  match s with
  | EmptyString => EmptyString
  | String c s' => if p c then lstrip_by p s' else s
  end.

Definition rstrip_by (p : ascii -> bool) (s : string) : string :=
  String.rev (lstrip_by p (String.rev s)).

Definition strip_by (p : ascii -> bool) (s : string) : string :=
  rstrip_by p (lstrip_by p s).

Definition strip (s : string) : string := strip_by is_space s.
(** the characters of [u.strip(...)] in the style scans: blank, double
    quote, single quote *)
Definition css_quote (c : ascii) : bool :=
  let n := nat_of_ascii c in (n =? 32)%nat || (n =? 34)%nat || (n =? 39)%nat.

(** [sep.join(l)] *)
Fixpoint join (sep : string) (l : list string) : string :=
  match l with
  | [] => EmptyString
  | [x] => x
  | x :: l' => x +:+ sep +:+ join sep l'
  end.

(** [s.replace(c, empty)] for a set of characters *)
Fixpoint remove_by (p : ascii -> bool) (s : string) : string :=
  match s with
  | EmptyString => EmptyString
  | String c s' => if p c then remove_by p s' else String c (remove_by p s')
  end.

(** [l[-1]] of a list that [split] returned *)
Definition last_item (l : list string) : string := List.last l EmptyString.

(** [x in l] for a list of strings *)
Definition elem (x : string) (l : list string) : bool :=
  bool_decide (x ∈ l).

(** the truth value of a string: [bool(s)] *)
Definition truthy (s : string) : bool :=
  match s with EmptyString => false | _ => true end.

(** [s.isdigit()] *)
Fixpoint all_digits (s : string) : bool :=
  match s with
  | EmptyString => true
  | String c s' => is_digit c && all_digits s'
  end.
Definition isdigit (s : string) : bool := truthy s && all_digits s.

(** [int(s)] on a string of decimal digits *)
Fixpoint int_digits (acc : Z) (s : string) : Z :=
  match s with
  | EmptyString => acc
  | String c s' => int_digits (10 * acc + Z.of_nat (nat_of_ascii c - 48)) s'
  end.
Definition int (s : string) : Z := int_digits 0 s.

(** [re.findall(r"[A-Za-z0-9]+", s)]: the maximal alphanumeric runs *)
Fixpoint alnum_runs (s : string) : list string :=
  match s with
  | EmptyString => []
  | String c s' =>
      if is_alnum c then
        match s' with
        | EmptyString => [String c EmptyString]
        | String c' _ =>
            if is_alnum c' then
              match alnum_runs s' with
              | [] => [String c EmptyString]
              | h :: t => String c h :: t
              end
            else String c EmptyString :: alnum_runs s'
        end
      else alnum_runs s'
  end.

(** The longest prefix of [s] without [")"], and the rest. *)
Fixpoint until_paren (s : string) : string * string :=
  match s with
  | EmptyString => (EmptyString, EmptyString)
  | String c s' =>
      if ascii_eqb c ")" then (EmptyString, s)
      else let '(a, b) := until_paren s' in (String c a, b)
  end.

(** [re.findall(r"url\(([^)]+)\)", s)]: scanning from the left, every
    ["url("] followed by a non-empty run without [")"] and then [")"]
    contributes the run; the scan resumes after the [")"]. The fuel is the
    number of characters left to scan. *)
Fixpoint css_urls_from (fuel : nat) (s : string) : list string :=
  match fuel with
  | O => []
  | S fuel' =>
      match s with
      | EmptyString => []
      | String _ s' =>
          if startswith "url(" s then
            let '(body, rest) := until_paren (drop 4 s) in
            match body, rest with
            | String _ _, String _ rest' => body :: css_urls_from fuel' rest'
            | _, _ => css_urls_from fuel' s'
            end
          else css_urls_from fuel' s'
      end
  end.

Definition css_urls (s : string) : list string :=
  css_urls_from (String.length s) s.

End Py.

(** ** The functions of [urllib.parse] the sources import

    [urlparse], [urlunparse], [urljoin] and [urldefrag] of CPython 3.11,
    transcribed for [str] arguments. A [ValueError] is [Raise ValueError].
    Two checks of [urlsplit] that need tables outside this development are
    left out: the validation of the address inside a bracketed host
    ([ipaddress.ip_address]) and the NFKC check of a non-ASCII host. *)

Module urllib.

Import Py.

Record ParseResult := {
  scheme : string;
  netloc : string;
  path : string;
  params : string;
  query : string;
  fragment : string
}.

Definition uses_relative : list string :=
  [EmptyString; "ftp"; "http"; "gopher"; "nntp"; "imap"; "wais"; "file"; "https";
   "shttp"; "mms"; "prospero"; "rtsp"; "rtspu"; "sftp"; "svn"; "svn+ssh";
   "ws"; "wss"].

Definition uses_netloc : list string :=
  [EmptyString; "ftp"; "http"; "gopher"; "nntp"; "telnet"; "imap"; "wais"; "file";
   "mms"; "https"; "shttp"; "snews"; "prospero"; "rtsp"; "rtspu"; "rsync";
   "svn"; "svn+ssh"; "sftp"; "nfs"; "git"; "git+ssh"; "ws"; "wss"].

Definition uses_params : list string :=
  [EmptyString; "ftp"; "hdl"; "prospero"; "http"; "imap"; "https"; "shttp"; "rtsp";
   "rtspu"; "sip"; "sips"; "mms"; "sftp"; "tel"].

Definition scheme_char (c : ascii) : bool := is_alnum c || has_char c "+-.".

Fixpoint all_chars (p : ascii -> bool) (s : string) : bool :=
  match s with
  | EmptyString => true
  | String c s' => p c && all_chars p s'
  end.

Definition c0_control_or_space (c : ascii) : bool :=
  (nat_of_ascii c <=? 32)%nat.

Definition unsafe_url_byte (c : ascii) : bool :=
  let n := nat_of_ascii c in
  (n =? 9)%nat || (n =? 10)%nat || (n =? 13)%nat.

(** [_splitnetloc(url, 2)] applied to the text after the two slashes *)
Fixpoint splitnetloc (s : string) : string * string :=
  match s with
  | EmptyString => (EmptyString, EmptyString)
  | String c s' =>
      if has_char c "/?#" then (EmptyString, s)
      else let '(a, b) := splitnetloc s' in (String c a, b)
  end.

(** [s.rpartition("@")[2]] *)
Definition after_last_at (s : string) : string := last_item (split "@" s).

(** [_check_bracketed_netloc], without the check of the address itself *)
Definition check_bracketed_netloc (nl : string) : result unit :=
  match split_once "[" (after_last_at nl) with
  | (before_bracket, Some bracketed) =>
      if truthy before_bracket then Raise ValueError
      else match split_once "]" bracketed with
           | (_, Some port) =>
               if truthy port && negb (startswith ":" port)
               then Raise ValueError else Ok tt
           | (_, None) => Ok tt
           end
  | (_, None) => Ok tt
  end.

(** The scheme of [url] and the text after it, or the default scheme and
    [url] itself *)
Definition split_scheme (default : string) (url : string) : string * string :=
  match url with
  | EmptyString => (default, url)
  | String c0 _ =>
      match split_once ":" url with
      | (pre, Some rest) =>
          if truthy pre && is_alpha c0 && all_chars scheme_char pre
          then (lower pre, rest) else (default, url)
      | (_, None) => (default, url)
      end
  end.

(** [urlsplit(url, scheme)], with an empty [params] *)
Definition urlsplit (url default : string) : result ParseResult :=
  let url := remove_by unsafe_url_byte (lstrip_by c0_control_or_space url) in
  let '(sch, url) := split_scheme default url in
  nl_url ← (if startswith "//" url then
              let '(nl, rest) := splitnetloc (drop 2 url) in
              if (has_char "[" nl && negb (has_char "]" nl))
                 || (has_char "]" nl && negb (has_char "[" nl))
              then Raise ValueError
              else _ ← (if has_char "[" nl && has_char "]" nl
                        then check_bracketed_netloc nl else Ok tt);
                   Ok (nl, rest)
            else Ok (EmptyString, url));
  let '(nl, url) := nl_url : string * string in
  let '(url, frag) :=
    match split_once "#" url with
    | (a, Some b) => (a, b)
    | (_, None) => (url, EmptyString)
    end in
  let '(url, qry) :=
    match split_once "?" url with
    | (a, Some b) => (a, b)
    | (_, None) => (url, EmptyString)
    end in
  Ok {| scheme := sch; netloc := nl; path := url; params := EmptyString;
        query := qry; fragment := frag |}.

(** [(s[:k+1], s[k+1:])] for [k = s.rfind("/")] *)
Fixpoint rsplit_slash (s : string) : string * string :=
  match s with
  | EmptyString => (EmptyString, EmptyString)
  | String c s' =>
      let '(h, t) := rsplit_slash s' in
      if truthy h then (String c h, t)
      else if ascii_eqb c "/" then (String c EmptyString, t)
      else (EmptyString, String c t)
  end.

(** [_splitparams(url)]: the parameters of the last path segment *)
Definition splitparams (url : string) : string * string :=
  let '(h, t) := rsplit_slash url in
  match split_once ";" t with
  | (a, Some b) => (h +:+ a, b)
  | (_, None) => (url, EmptyString)
  end.

(** [urlparse(url, scheme)] *)
Definition urlparse_with (url default : string) : result ParseResult :=
  r ← urlsplit url default;
  if elem (scheme r) uses_params && has_char ";" (path r) then
    let '(p, prm) := splitparams (path r) in
    Ok {| scheme := scheme r; netloc := netloc r; path := p; params := prm;
          query := query r; fragment := fragment r |}
  else Ok r.

Definition urlparse (url : string) : result ParseResult :=
  urlparse_with url EmptyString.

(** [urlunsplit((scheme, netloc, url, query, fragment))] *)
Definition urlunsplit (sch nl url qry frag : string) : string :=
  let url :=
    if truthy nl ||
       (truthy sch && elem sch uses_netloc && negb (startswith "//" url))
    then "//" +:+ nl +:+ (if truthy url && negb (startswith "/" url)
                          then "/" +:+ url else url)
    else url in
  let url := if truthy sch then sch +:+ ":" +:+ url else url in
  let url := if truthy qry then url +:+ "?" +:+ qry else url in
  if truthy frag then url +:+ "#" +:+ frag else url.

(** [urlunparse(r)], which is also [r.geturl()] *)
Definition urlunparse (r : ParseResult) : string :=
  let url := if truthy (params r) then path r +:+ ";" +:+ params r else path r in
  urlunsplit (scheme r) (netloc r) url (query r) (fragment r).

(** [r._replace(query=empty, fragment=empty)] *)
Definition replace_query_fragment (r : ParseResult) : ParseResult :=
  {| scheme := scheme r; netloc := netloc r; path := path r;
     params := params r; query := EmptyString; fragment := EmptyString |}.

(** [urldefrag(url)[0]] *)
Definition urldefrag (url : string) : result string :=
  if has_char "#" url then
    r ← urlparse url;
    Ok (urlunparse {| scheme := scheme r; netloc := netloc r; path := path r;
                      params := params r; query := query r;
                      fragment := EmptyString |})
  else Ok url.

(** The loop of [urljoin] over the segments: [".."] pops, ["."] is skipped. *)
Fixpoint resolve_segments (resolved : list string) (segs : list string)
  : list string :=
  match segs with
  | [] => resolved
  | seg :: segs' =>
      if String.eqb seg ".." then resolve_segments (removelast resolved) segs'
      else if String.eqb seg "." then resolve_segments resolved segs'
      else resolve_segments (resolved ++ [seg]) segs'
  end.

(** [segments[1:-1] = filter(None, segments[1:-1])] *)
Definition drop_empty_middle (segs : list string) : list string :=
  match segs with
  | [] => []
  | first :: rest =>
      match rest with
      | [] => [first]
      | _ => first :: List.filter truthy (removelast rest)
               ++ [last_item rest]
      end
  end.

(** [urljoin(base, url)] *)
Definition urljoin (base url : string) : result string :=
  if negb (truthy base) then Ok url
  else if negb (truthy url) then Ok base
  else
    b ← urlparse base;
    u ← urlparse_with url (scheme b);
    if negb (String.eqb (scheme u) (scheme b))
       || negb (elem (scheme u) uses_relative)
    then Ok url
    else if elem (scheme u) uses_netloc && truthy (netloc u)
    then Ok (urlunparse u)
    else
      let nl := if elem (scheme u) uses_netloc then netloc b else netloc u in
      if negb (truthy (path u)) && negb (truthy (params u)) then
        Ok (urlunparse
              {| scheme := scheme u; netloc := nl; path := path b;
                 params := params b;
                 query := if truthy (query u) then query u else query b;
                 fragment := fragment u |})
      else
        let base_parts := split "/" (path b) in
        let base_parts :=
          if truthy (last_item base_parts) then removelast base_parts
          else base_parts in
        let segments :=
          if startswith "/" (path u) then split "/" (path u)
          else drop_empty_middle (base_parts ++ split "/" (path u)) in
        let resolved := resolve_segments [] segments in
        let resolved :=
          if elem (last_item segments) ["."; ".."] then resolved ++ [EmptyString]
          else resolved in
        let joined := join "/" resolved in
        Ok (urlunparse
              {| scheme := scheme u; netloc := nl;
                 path := if truthy joined then joined else "/";
                 params := params u; query := query u;
                 fragment := fragment u |}).

End urllib.

(** ** Markup

    BeautifulSoup is outside the repository. A page is represented by what
    the sources query of it: its tags in document order, each with its name,
    its attributes and the text strings under it. Tag and attribute names are
    lower-case, as [html.parser] delivers them. *)

Record Tag := {
  name : string;
  attrs : list (string * string);
  strings : list string
}.

(** The markup of a page; the empty text has no tags. *)
Definition Html := list Tag.

(** [tag.get(k)] *)
Fixpoint get_attr (k : string) (l : list (string * string)) : option string :=
  match l with
  | [] => None
  | (k', v) :: l' => if String.eqb k k' then Some v else get_attr k l'
  end.

Definition get (t : Tag) (k : string) : option string := get_attr k (attrs t).

(** [tag.get(k) or empty] *)
Definition get_or_empty (t : Tag) (k : string) : string :=
  match get t k with
  | Some v => v
  | None => EmptyString
  end.

(** [tag.get_text(sep)] *)
Definition get_text (sep : string) (t : Tag) : string := Py.join sep (strings t).

(** [BeautifulSoup(html or empty, "html.parser")]; [None] is an absent page *)
Definition BeautifulSoup (html : option Html) : list Tag :=
  match html with
  | Some tags => tags
  | None => []
  end.

(** [soup.find_all(tag_name)] *)
Definition find_all (tag_name : string) (soup : list Tag) : list Tag :=
  List.filter (fun t => String.eqb (name t) tag_name) soup.

(** [soup.find_all(attr=True)] *)
Definition find_all_with (attr : string) (soup : list Tag) : list Tag :=
  List.filter (fun t => bool_decide (is_Some (get t attr))) soup.

(** [for x in l: ...] over a body that may raise *)
Fixpoint for_each {A S} (body : A -> S -> result S) (l : list A) (s : S)
  : result S :=
  match l with
  | [] => Ok s
  | x :: l' => s' ← body x s; for_each body l' s'
  end.

(** ** The world outside the process

    Everything the crawl and the probe read from outside: the stop flag of
    the session, the answers of the network and the order in which the
    interpreter lists a set. Time is a counter of the reads of the stop
    flag; [stop_flag t] is what the [t]-th read returns, and a request
    issued by the worker that made the [t]-th read is answered by
    [http_get t]. *)

Inductive Response :=
  | Failed
  | Reply (content_type : string) (text : Html).

Inductive HeadResponse :=
  | HeadFailed
  | HeadReply (status : nat) (content_length : option string).

Record World := {
  stop_flag : nat -> bool;
  http_get : nat -> string -> Response;
  http_head : nat -> string -> HeadResponse;
  set_order : gset string -> list string;
  set_order_perm : forall s, set_order s ≡ₚ elements s
}.

(** [list(s)] for a set [s] *)
Definition list_of_set (W : World) (s : gset string) : list string :=
  set_order W s.

(** ** The crawl scheduler

    [crawl_site] of [app.py] and [scan_site] of [backend.py] run the same
    loop; the places where they differ are the variables of the section.
    The state carries, besides the variables of the source, a log of what
    the crawl did, which the sources do not keep. *)

(** The events of the log: [Visited u] when [u] is added to [seen] and to
    the batch; [StopObserved images pages] when a read of the stop flag
    returns true, with the images found and the size of [seen] at that read;
    [FetchStarted u] when a task calls [fetch_text] for [u]; [Parsed u] when
    [fetch_text] returned the text of [u] to the extractors; [Enqueued u] when
    [u] is appended to the frontier. *)
Inductive Event :=
  | Visited (url : string)
  | StopObserved (images : gset string) (pages : nat)
  | FetchStarted (url : string)
  | Parsed (url : string)
  | Enqueued (url : string).

#[global] Instance Event_eq_dec : EqDecision Event.
Proof. solve_decision. Defined.

Record Progress := {
  pages_visited : nat;
  images_found : nat;
  current_activity : string
}.

Record Crawl := {
  seen : gset string;
  to_visit : list string;
  found_images : gset string;
  progress_state : option Progress;
  clock : nat;
  trace : list Event
}.

(** How a crawl ends: with its pair of results or with an exception.
    [OutOfFuel] is the loop cut short by its fuel, which does not happen
    ([crawl_site_terminates], [scan_site_terminates]). *)
Inductive Outcome :=
  | Returned (images : list string) (pages : nat)
  | Raised (e : exn)
  | OutOfFuel.

(** The state before the loop: nothing seen, the seed in the frontier. *)
Definition initial (base_url : string) (progress : option Progress) : Crawl :=
  {| seen := ∅; to_visit := [base_url]; found_images := ∅;
     progress_state := progress; clock := 0; trace := [] |}.

(** The log grows by one event. *)
Definition log_event (e : Event) (c : Crawl) : Crawl :=
  {| seen := seen c; to_visit := to_visit c; found_images := found_images c;
     progress_state := progress_state c; clock := clock c;
     trace := trace c ++ [e] |}.

(** One read of the stop flag has been made. *)
Definition tick (c : Crawl) : Crawl :=
  {| seen := seen c; to_visit := to_visit c; found_images := found_images c;
     progress_state := progress_state c; clock := S (clock c);
     trace := trace c |}.

(** A write to [progress_state], when the caller gave one. *)
Definition set_progress (f : Progress -> Progress) (c : Crawl) : Crawl :=
  {| seen := seen c; to_visit := to_visit c; found_images := found_images c;
     progress_state := f <$> progress_state c; clock := clock c;
     trace := trace c |}.

(** [u = to_visit.pop(0)] *)
Definition pop_front (c : Crawl) : Crawl :=
  {| seen := seen c; to_visit := tail (to_visit c);
     found_images := found_images c; progress_state := progress_state c;
     clock := clock c; trace := trace c |}.

(** [seen.add(u)] *)
Definition mark_seen (u : string) (c : Crawl) : Crawl :=
  log_event (Visited u)
    {| seen := seen c ∪ {[ u ]}; to_visit := to_visit c;
       found_images := found_images c; progress_state := progress_state c;
       clock := clock c; trace := trace c |}.

(** [to_visit.append(l)] *)
Definition enqueue (l : string) (c : Crawl) : Crawl :=
  log_event (Enqueued l)
    {| seen := seen c; to_visit := to_visit c ++ [l];
       found_images := found_images c; progress_state := progress_state c;
       clock := clock c; trace := trace c |}.

(** [found_images.update(imgs)] *)
Definition add_images (imgs : list string) (c : Crawl) : Crawl :=
  {| seen := seen c; to_visit := to_visit c;
     found_images := found_images c ∪ list_to_set imgs;
     progress_state := progress_state c; clock := clock c;
     trace := trace c |}.

Section Scheduler.

Variable W : World.

(** [same_host] of the file. *)
Variable same_host : string -> string -> bool.

(** Whether the draw tests [if not to_visit: break] before it pops. *)
Variable guarded_pop : bool.

(** [fetch_text] of the file: the text of the page, [None] for the empty
    text it returns on a failure or a reply that is not text. *)
Variable fetch_text : World -> nat -> string -> option Html.

(** What [visit] does with the text: the image and link sets it extracts. *)
Variable extract : string -> option Html -> result (gset string * gset string).

(** The prefix of the activity label. *)
Variable activity_label : string.

Variable base_host : string.
Variable max_pages : Z.
Variable concurrency : Z.

(** The draw: [k] iterations of the [for] loop that fills [batch]. *)
Fixpoint draw (k : nat) (c : Crawl) (batch : list string)
  : result (Crawl * list string) :=
  match k with
  | O => Ok (c, batch)
  | S k' =>
      match to_visit c with
      | [] => if guarded_pop then Ok (c, batch) else Raise IndexError
      | u :: _ =>
          let c := pop_front c in
          if bool_decide (u ∉ seen c) && same_host u base_host
          then draw k' (mark_seen u c) (batch ++ [u])
          else draw k' c batch
      end
  end.

(** The start of one [visit] task, up to its request: the semaphore is free
    (a batch has at most [concurrency] tasks and batches do not overlap), the
    stop flag is read, and unless it is set the activity label is written and
    the request issued. The result is the instant of the request, if any. *)
Definition start_visit (url : string) (c : Crawl) : Crawl * option nat :=
  let t := clock c in
  let c := tick c in
  if stop_flag W t
  then (log_event (StopObserved (found_images c) (size (seen c))) c, None)
  else
    (log_event (FetchStarted url)
       (set_progress
          (fun p => {| pages_visited := pages_visited p;
                       images_found := images_found p;
                       current_activity := activity_label +:+ url |}) c),
     Some t).

(** [asyncio.gather] starts the tasks in the order of the batch. *)
Fixpoint start_all (batch : list string) (c : Crawl)
  : Crawl * list (string * option nat) :=
  match batch with
  | [] => (c, [])
  | u :: batch' =>
      let '(c, r) := start_visit u c in
      let '(c, rs) := start_all batch' c in
      (c, (u, r) :: rs)
  end.

(** The rest of one [visit] task: the reply arrives and is extracted. A task
    that saw the stop flag returns two empty lists. *)
Definition finish_visit (task : string * option nat) (c : Crawl)
  : result (list string * list string) * Crawl :=
  match task with
  | (_, None) => (Ok ([], []), c)
  | (url, Some t) =>
      let html := fetch_text W t url in
      let c := match html with
               | Some _ => log_event (Parsed url) c
               | None => c
               end in
      (r ← extract url html;
       Ok (list_of_set W r.1, list_of_set W r.2), c)
  end.

(** The results of [asyncio.gather], in the order of the batch; an exception
    of a task is raised to the caller. *)
Fixpoint finish_all (tasks : list (string * option nat)) (c : Crawl)
  : result (list (list string * list string)) * Crawl :=
  match tasks with
  | [] => (Ok [], c)
  | task :: tasks' =>
      match finish_visit task c with
      | (Raise e, c) => (Raise e, c)
      | (Ok r, c) =>
          match finish_all tasks' c with
          | (Raise e, c) => (Raise e, c)
          | (Ok rs, c) => (Ok (r :: rs), c)
          end
      end
  end.

(** [for l in links: if ...: to_visit.append(l)] *)
Fixpoint merge_links (links : list string) (c : Crawl) : Crawl :=
  match links with
  | [] => c
  | l :: links' =>
      if bool_decide (l ∉ seen c) && same_host l base_host
         && (Z.of_nat (size (seen c)) <? max_pages)%Z
      then merge_links links' (enqueue l c)
      else merge_links links' c
  end.

(** [for imgs, links in results: ...] *)
Fixpoint merge (results : list (list string * list string)) (c : Crawl)
  : Crawl :=
  match results with
  | [] => c
  | (imgs, links) :: results' =>
      merge results' (merge_links links (add_images imgs c))
  end.

(** The two counters written after a batch. *)
Definition report (c : Crawl) : Crawl :=
  set_progress
    (fun p => {| pages_visited := size (seen c);
                 images_found := size (found_images c);
                 current_activity := current_activity p |}) c.

(** [return list(found_images), len(seen)] *)
Definition finish (c : Crawl) : Outcome * Crawl :=
  (Returned (list_of_set W (found_images c)) (size (seen c)), c).

(** [min(concurrency, len(to_visit), max_pages - len(seen))] *)
Definition batch_size (c : Crawl) : Z :=
  Z.min (Z.min concurrency (Z.of_nat (length (to_visit c))))
        (max_pages - Z.of_nat (size (seen c))).

(** The [while] loop; one unit of fuel per test of its condition. *)
Fixpoint crawl_loop (fuel : nat) (c : Crawl) : Outcome * Crawl :=
  match fuel with
  | O => (OutOfFuel, c)
  | S fuel' =>
      match to_visit c with
      | [] => finish c
      | _ :: _ =>
          if negb (Z.of_nat (size (seen c)) <? max_pages)%Z then finish c
          else
            let t := clock c in
            let c := tick c in
            if stop_flag W t
            then finish
                   (log_event (StopObserved (found_images c) (size (seen c))) c)
            else
              match draw (Z.to_nat (batch_size c)) c [] with
              | Raise e => (Raised e, c)
              | Ok (c, []) => finish c
              | Ok (c, batch) =>
                  let '(c, tasks) := start_all batch c in
                  match finish_all tasks c with
                  | (Raise e, c) => (Raised e, c)
                  | (Ok results, c) => crawl_loop fuel' (report (merge results c))
                  end
              end
      end
  end.

End Scheduler.

(** ** Reading the log of a crawl *)

Definition visited_urls (tr : list Event) : list string :=
  omap (fun e => match e with Visited u => Some u | _ => None end) tr.

Definition fetched_urls (tr : list Event) : list string :=
  omap (fun e => match e with FetchStarted u => Some u | _ => None end) tr.

Definition parsed_urls (tr : list Event) : list string :=
  omap (fun e => match e with Parsed u => Some u | _ => None end) tr.

Definition is_stop (e : Event) : bool :=
  match e with StopObserved _ _ => true | _ => false end.

(** The events that start work on a page: its dispatch and its request. *)
Definition is_dispatch (e : Event) : bool :=
  match e with Visited _ | FetchStarted _ => true | _ => false end.

(** No page is dispatched or requested after the stop flag was observed. *)
Fixpoint quiet_after_stop (tr : list Event) : bool :=
  match tr with
  | [] => true
  | e :: tr' =>
      if is_stop e then forallb (fun e => negb (is_dispatch e)) tr'
      else quiet_after_stop tr'
  end.

(** What the start of a task logs. *)
Definition start_event (images : gset string) (pages : nat)
    (task : string * option nat) : Event :=
  match task.2 with
  | Some _ => FetchStarted task.1
  | None => StopObserved images pages
  end.

(** The URLs of the tasks that issued their request. *)
Definition requested (tasks : list (string * option nat)) : list string :=
  omap (fun task : string * option nat =>
          match task.2 with Some _ => Some task.1 | None => None end) tasks.

Section Analysis.

Variable W : World.
Variable same_host : string -> string -> bool.
Variable base_host : string.
Variable max_pages : Z.

(** The stop flag was set at a read the crawl already made. *)
Definition stopped (c : Crawl) : Prop :=
  exists t, t < clock c /\ stop_flag W t = true.

(** What one turn of the loop that passed its checkpoint does to the state,
    whether it ends in the next turn, in a return or in an exception: it
    dispatches the pages [new], starts [tasks] for them, extracts the pages
    [ps] and enqueues the links [ls]. *)
Definition iteration (c c1 : Crawl) : Prop :=
  exists (new : list string) (tasks : list (string * option nat))
         (ps ls : list string),
    trace c1 = trace c ++ (Visited <$> new)
                 ++ (start_event (found_images c) (size (seen c) + length new)
                       <$> tasks)
                 ++ (Parsed <$> ps) ++ (Enqueued <$> ls)
    /\ seen c1 = seen c ∪ list_to_set new
    /\ NoDup new
    /\ (forall u, u ∈ new -> (u ∉ seen c) /\ same_host u base_host = true)
    /\ (Z.of_nat (size (seen c) + length new) <= max_pages)%Z
    /\ found_images c ⊆ found_images c1
    /\ fst <$> tasks = new
    /\ (forall i u r, tasks !! i = Some (u, r) ->
          r = if stop_flag W (clock c + 1 + i) then None
              else Some (clock c + 1 + i))
    /\ ps `sublist_of` requested tasks
    /\ (forall l, l ∈ ls -> same_host l base_host = true)
    /\ clock c1 = clock c + 1 + length new.

(** What holds of the state of a crawl at every turn of its loop. *)
Definition invariant (c : Crawl) : Prop :=
  NoDup (visited_urls (trace c))
  /\ seen c = list_to_set (visited_urls (trace c))
  /\ (Z.of_nat (size (seen c)) <= max_pages)%Z
  /\ (forall u, Visited u ∈ trace c \/ FetchStarted u ∈ trace c
                \/ Enqueued u ∈ trace c -> same_host u base_host = true)
  /\ (forall imgs n, StopObserved imgs n ∈ trace c ->
        imgs ⊆ found_images c /\ n <= size (seen c))
  /\ NoDup (fetched_urls (trace c))
  /\ fetched_urls (trace c) ⊆ visited_urls (trace c)
  /\ NoDup (parsed_urls (trace c))
  /\ parsed_urls (trace c) ⊆ fetched_urls (trace c).

(** The log is quiet after a stop, and a stop in the log was read from the
    flag. *)
Definition stop_invariant (c : Crawl) : Prop :=
  quiet_after_stop (trace c) = true
  /\ (existsb is_stop (trace c) = true -> stopped c).

End Analysis.

(** ** [app.py]: helpers and extractors *)

Module App.

Import Py urllib.

Definition VALID_IMAGE_EXTS : list string :=
  ["jpg"; "jpeg"; "png"; "gif"; "webp"; "svg"].
Definition EXCLUDE_KEYWORDS : list string := ["logo"; "icon"; "favicon"].

Definition normalize_url (u : string) : result string :=
  u ← urldefrag u;
  parsed ← urlparse u;
  Ok (urlunparse (replace_query_fragment parsed)).

Definition abs_url (base u : string) : result string := urljoin base u.

Definition same_host (u base_host : string) : bool :=
  match urlparse u with
  | Ok r => String.eqb (netloc r) base_host
  | Raise _ => false
  end.

Definition is_image_url (url : string) : bool :=
  if negb (truthy url) then false
  else
    let path := lower (hd EmptyString (split "?" url)) in
    existsb (fun ext => endswith ("." +:+ ext) path) VALID_IMAGE_EXTS.

Definition is_excluded (url : string) : bool :=
  existsb (fun kw => contains kw (lower url)) EXCLUDE_KEYWORDS.

Definition keyword_match (keywords : list string) (text : string) : bool :=
  match keywords with
  | [] => true
  | _ => existsb (fun k => contains k (lower text)) keywords
  end.

(** The block every source of candidates ends in: resolve, normalise, test,
    add. [context] is the text tested besides the URL, when there is one. *)
Definition add_candidate (base_url : string) (keywords : list string)
    (context : option string) (c : string) (imgs : gset string)
  : result (gset string) :=
  joined ← abs_url base_url c;
  full ← normalize_url joined;
  if is_image_url full && negb (is_excluded full) then
    if keyword_match keywords full
       || match context with
          | Some text => keyword_match keywords text
          | None => false
          end
    then Ok (imgs ∪ {[ full ]})
    else Ok imgs
  else Ok imgs.

(** [part.strip().split()[0]] *)
Definition first_token (part : string) : result string :=
  match split_ws (strip part) with
  | [] => Raise IndexError
  | url :: _ => Ok url
  end.

Definition img_attributes : list string :=
  ["src"; "data-src"; "data-original"; "data-lazy"].

(** the body of [for img in soup.find_all("img")] *)
Definition scan_img (base_url : string) (keywords : list string) (img : Tag)
    (imgs : gset string) : result (gset string) :=
  let candidates := List.map (get img) img_attributes in
  let alt_text := get_or_empty img "alt" +:+ " " +:+ get_or_empty img "title" in
  imgs ← for_each
            (fun c imgs =>
               match c with
               | Some (String _ _ as c) =>
                   add_candidate base_url keywords (Some alt_text) c imgs
               | _ => Ok imgs
               end) candidates imgs;
  match get img "srcset" with
  | Some (String _ _ as srcset) =>
      for_each
        (fun part imgs =>
           url ← first_token part;
           add_candidate base_url keywords (Some alt_text) url imgs)
        (split "," srcset) imgs
  | _ => Ok imgs
  end.

(** the body of [for tag in soup.find_all(style=True)] *)
Definition scan_inline_style (base_url : string) (keywords : list string)
    (tag : Tag) (imgs : gset string) : result (gset string) :=
  let urls := css_urls (get_or_empty tag "style") in
  let text := get_text " " tag in
  for_each
    (fun u imgs =>
       add_candidate base_url keywords (Some text) (strip_by css_quote u) imgs)
    urls imgs.

(** the body of [for style_tag in soup.find_all("style")] *)
Definition scan_style_block (base_url : string) (keywords : list string)
    (style_tag : Tag) (imgs : gset string) : result (gset string) :=
  for_each
    (fun u imgs =>
       add_candidate base_url keywords None (strip_by css_quote u) imgs)
    (css_urls (get_text EmptyString style_tag)) imgs.

(** the bodies of the loops over [<meta content>] and [<link href>] *)
Definition scan_attr (attr : string) (base_url : string)
    (keywords : list string) (tag : Tag) (imgs : gset string)
  : result (gset string) :=
  match get tag attr with
  | Some (String _ _ as c) => add_candidate base_url keywords None c imgs
  | _ => Ok imgs
  end.

(** the body of [for video in soup.find_all("video", poster=True)] *)
Definition scan_video (base_url : string) (keywords : list string)
    (video : Tag) (imgs : gset string) : result (gset string) :=
  let title := get_or_empty video "title" in
  match get video "poster" with
  | Some (String _ _ as p) =>
      add_candidate base_url keywords (Some title) p imgs
  | _ => Ok imgs
  end.

Definition extract_images_from_html (base_url : string) (html : option Html)
    (keywords : list string) : result (gset string) :=
  let soup := BeautifulSoup html in
  imgs ← for_each (scan_img base_url keywords) (find_all "img" soup) ∅;
  imgs ← for_each (scan_inline_style base_url keywords)
            (find_all_with "style" soup) imgs;
  imgs ← for_each (scan_style_block base_url keywords)
            (find_all "style" soup) imgs;
  imgs ← for_each (scan_attr "content" base_url keywords)
            (find_all_with "content" (find_all "meta" soup)) imgs;
  imgs ← for_each (scan_attr "href" base_url keywords)
            (find_all_with "href" (find_all "link" soup)) imgs;
  for_each (scan_video base_url keywords)
    (find_all_with "poster" (find_all "video" soup)) imgs.

Definition extract_links (base_url : string) (html : option Html)
  : result (gset string) :=
  let soup := BeautifulSoup html in
  for_each
    (fun a links =>
       joined ← abs_url base_url (get_or_empty a "href");
       full ← normalize_url joined;
       Ok (links ∪ {[ full ]}))
    (find_all_with "href" (find_all "a" soup)) ∅.

(** [fetch_text]: the text of a reply whose content type mentions text *)
Definition fetch_text (W : World) (t : nat) (url : string) : option Html :=
  match http_get W t url with
  | Reply content_type text =>
      if contains "text" (lower content_type) then Some text else None
  | Failed => None
  end.

(** What [visit] returns for the text of a page, before the two sets are
    listed *)
Definition visit (keywords : list string) (url : string) (html : option Html)
  : result (gset string * gset string) :=
  imgs ← extract_images_from_html url html keywords;
  links ← extract_links url html;
  Ok (imgs, links).

(** [crawl_site(base_url, max_pages, concurrency, progress_state, keywords)]:
    the outcome and the final state. [urlparse(base_url)] and
    [asyncio.Semaphore(concurrency)] may raise before the loop starts. *)
Definition crawl_site (W : World) (base_url : string) (max_pages concurrency : Z)
    (progress : Progress) (keywords : list string) : Outcome * Crawl :=
  let c := initial base_url (Some progress) in
  match urlparse base_url with
  | Raise e => (Raised e, c)
  | Ok r =>
      if (concurrency <? 0)%Z then (Raised ValueError, c)
      else crawl_loop W same_host false fetch_text (visit keywords)
             "Fetching " (netloc r) max_pages concurrency
             (S (Z.to_nat max_pages)) c
  end.

End App.

(** ** [backend.py]: helpers and extractors *)

Module Backend.

Import Py urllib.

Definition normalize_url (u : string) : result string := urldefrag u.

Definition abs_url (base u : string) : result string := urljoin base u.

Definition same_host (u base_host : string) : bool :=
  match urlparse u with
  | Ok r => String.eqb (netloc r) base_host
  | Raise _ => false
  end.

Definition valid_ext : list string :=
  ["jpg"; "jpeg"; "png"; "gif"; "webp"; "svg"].

Definition is_valid_image (url : string) : bool :=
  let url := hd EmptyString (split "?" (lower url)) in
  existsb (fun ext => endswith ("." +:+ ext) url) valid_ext.

(** [a or b]: [a] when it is a non-empty string, else [b] *)
Definition or_else (a b : option string) : option string :=
  match a with
  | Some (String _ _) => a
  | _ => b
  end.

(** [img.get("src") or img.get("data-src") or img.get("data-original")
     or img.get("data-lazy")] *)
Definition img_src (img : Tag) : option string :=
  or_else (get img "src")
    (or_else (get img "data-src")
       (or_else (get img "data-original") (get img "data-lazy"))).

Definition add_if_image (base_url c : string) (imgs : gset string)
  : result (gset string) :=
  joined ← abs_url base_url c;
  full ← normalize_url joined;
  if is_valid_image full then Ok (imgs ∪ {[ full ]}) else Ok imgs.

(** the body of [for img in soup.find_all("img")] *)
Definition scan_img (base_url : string) (img : Tag) (imgs : gset string)
  : result (gset string) :=
  imgs ← match img_src img with
          | Some (String _ _ as src) => add_if_image base_url src imgs
          | _ => Ok imgs
          end;
  match get img "srcset" with
  | Some (String _ _ as srcset) =>
      for_each
        (fun item imgs =>
           match split_ws (strip item) with
           | [] => Ok imgs
           | url :: _ => add_if_image base_url url imgs
           end)
        (split "," srcset) imgs
  | _ => Ok imgs
  end.

Definition extract_images_from_html (base_url : string) (html : option Html)
  : result (gset string) :=
  for_each (scan_img base_url) (find_all "img" (BeautifulSoup html)) ∅.

Definition extract_links (base_url : string) (html : option Html)
  : result (gset string) :=
  for_each
    (fun a links =>
       joined ← abs_url base_url (get_or_empty a "href");
       href ← normalize_url joined;
       Ok (links ∪ {[ href ]}))
    (find_all_with "href" (find_all "a" (BeautifulSoup html))) ∅.

(** [fetch_text]: the text of a reply whose content type mentions text or
    html *)
Definition fetch_text (W : World) (t : nat) (url : string) : option Html :=
  match http_get W t url with
  | Reply content_type text =>
      let ctype := lower content_type in
      if contains "text" ctype || contains "html" ctype then Some text
      else None
  | Failed => None
  end.

(** What [visit] returns for the text of a page, before the two sets are
    listed; [if not html] returns two empty lists *)
Definition visit (url : string) (html : option Html)
  : result (gset string * gset string) :=
  match html with
  | None => Ok (∅, ∅)
  | Some _ =>
      imgs ← extract_images_from_html url html;
      links ← extract_links url html;
      Ok (imgs, links)
  end.

(** [scan_site(base_url, max_pages, max_concurrency, progress_state)]: the
    outcome and the final state. On a return the listed images are also
    stored in the session under [all_images]. *)
Definition scan_site (W : World) (base_url : string)
    (max_pages max_concurrency : Z) (progress : option Progress)
  : Outcome * Crawl :=
  let c := initial base_url progress in
  match urlparse base_url with
  | Raise e => (Raised e, c)
  | Ok r =>
      if (max_concurrency <? 0)%Z then (Raised ValueError, c)
      else crawl_loop W same_host true fetch_text visit
             "Scraping: " (netloc r) max_pages max_concurrency
             (S (Z.to_nat max_pages)) c
  end.

End Backend.

(** ** Binary64 numbers

    A finite [float] is the rational it denotes, in lowest terms, so that
    [0.0] is [0]. The operations round to the nearest binary64 number, to the
    one with an even significand on a tie; they have no result where CPython
    raises [OverflowError] or the result is an infinity. *)

Module Float.

(** [n/d] rounded to the nearest integer, to the even one on a tie, for
    [d > 0] *)
Definition round_half_even (n d : Z) : Z :=
  let q := (n / d)%Z in
  let r := (n mod d)%Z in
  if (2 * r <? d)%Z then q
  else if (d <? 2 * r)%Z then (q + 1)%Z
  else if Z.even q then q else (q + 1)%Z.

(** [m * 2^s] *)
Definition scaled (m s : Z) : Q :=
  if (0 <=? s)%Z then inject_Z (m * 2 ^ s)
  else Qred (m # Z.to_pos (2 ^ (- s))).

(** The largest [e] with [2^e <= n/d], for [n > 0] and [d > 0] *)
Definition exponent (n d : Z) : Z :=
  let e := (Z.log2 n - Z.log2 d)%Z in
  if (0 <=? e)%Z
  then if (n <? d * 2 ^ e)%Z then (e - 1)%Z else e
  else if (n * 2 ^ (- e) <? d)%Z then (e - 1)%Z else e.

(** The binary64 number nearest to [n/d > 0]: a significand of 53 bits, or
    of fewer below [2^-1022]; [None] when it is beyond the largest one. *)
Definition nearest_pos (n d : Z) : option Q :=
  let s := Z.max (exponent n d - 52) (-1074) in
  let m := if (0 <=? s)%Z then round_half_even n (d * 2 ^ s)
           else round_half_even (n * 2 ^ (- s)) d in
  if (0 <=? s)%Z && (2 ^ 1024 <=? m * 2 ^ s)%Z then None
  else Some (scaled m s).

Definition nearest (q : Q) : option Q :=
  match Qnum q with
  | Z0 => Some 0%Q
  | Zpos n => nearest_pos (Zpos n) (Zpos (Qden q))
  | Zneg n => Qopp <$> nearest_pos (Zpos n) (Zpos (Qden q))
  end.

(** [float(n)], as in [n / 1024.0]: [OverflowError] for an [n] too large *)
Definition of_int (n : Z) : option Q := nearest (inject_Z n).

(** [x / y] *)
Definition div (x y : Q) : option Q := nearest (x / y).

(** [round(x, 2)]: the decimal of two places nearest to [x], to the even one
    on a tie, and then the binary64 number nearest to that decimal *)
Definition round2 (x : Q) : option Q :=
  nearest (round_half_even (100 * Qnum x) (Zpos (Qden x)) # 100).

End Float.

(** ** [app.py]: the size probe *)

Module Probe.

Import Py.

(** [sys.int_info.default_max_str_digits] of CPython 3.11 *)
Definition max_str_digits : nat := 4300.

(** [int(cl)] for a string of decimal digits: [ValueError] when it has more
    digits than the limit *)
Definition int_of_digits (cl : string) : option Z :=
  if (String.length cl <=? max_str_digits)%nat then Some (int cl) else None.

(** [int(cl)/1024.0]: the length is converted to a [float] and divided;
    [None] when [int] raises [ValueError] or the conversion
    [OverflowError] *)
Definition kb_of_length (cl : string) : option Q :=
  n ← int_of_digits cl; x ← Float.of_int n; Float.div x 1024.

(** [get_head_size]: the length the reply announces, in KB; [0.0] when the
    request raises, when the header is absent, empty or not a string of
    digits, and when the arithmetic raises: the [except] is bare. Of the
    characters below 256 the superscripts 1, 2 and 3 also pass
    [str.isdigit], and make [int] raise: [0.0] again. *)
Definition get_head_size (W : World) (i : nat) (url : string) : Q :=
  match http_head W i url with
  | HeadReply _ (Some cl) =>
      if truthy cl && isdigit cl then default 0%Q (kb_of_length cl) else 0
  | _ => 0
  end.

(** [worker(u)] of [fetch_sizes_async], for the [i]-th URL of the call:
    [round(.., 2)], and [0.0] when that raises *)
Definition worker (W : World) (i : nat) (u : string) : Q :=
  default 0%Q (Float.round2 (get_head_size W i u)).

(** What the probe gives for a reply that announces the length [cl], a
    non-empty string of digits. *)
Definition size_of_length (cl : string) : Q :=
  default 0%Q (Float.round2 (default 0%Q (kb_of_length cl))).

Inductive ProbeOutcome :=
  | Sizes (kb : list Q)
  | ProbeRaised (e : exn)
  | Blocked.

(** [fetch_sizes_async(urls, concurrency, timeout)]: the results of
    [asyncio.gather], in the order of [urls]. [asyncio.Semaphore] raises on a
    negative value, and with the value 0 no worker is ever admitted. *)
Definition fetch_sizes_async (W : World) (urls : list string)
    (concurrency timeout : Z) : ProbeOutcome :=
  if (concurrency <? 0)%Z then ProbeRaised ValueError
  else if (concurrency =? 0)%Z && bool_decide (urls ≠ []) then Blocked
  else Sizes (imap (worker W) urls).

Definition fetch_sizes (W : World) (urls : list string)
    (concurrency timeout : Z) : ProbeOutcome :=
  fetch_sizes_async W urls concurrency timeout.

(** The outcomes of a request that announce no usable length: the request
    raised, or the reply has no [content-length], or one that is not a
    non-empty string of digits. *)
Definition no_length (r : HeadResponse) : Prop :=
  match r with
  | HeadFailed => True
  | HeadReply _ None => True
  | HeadReply _ (Some cl) => isdigit cl = false
  end.

End Probe.

(** ** [app.py]: the result table

    The data frame is a list of rows. The columns [Part1] to [Part4] of a row
    are the list of its tokens. [os.path] is [posixpath]. *)

Module Reducer.

Import Py.

(** A row after the columns [Size (KB)] and [Filename] are set. *)
Record Entry := {
  e_url : string;
  e_size : Q;
  e_filename : string
}.

Record Row := {
  URL : string;
  Filename : string;
  Size : Q;
  Parts : list string;
  FileType : string
}.

(** [u.split("/")[-1].split("?")[0]] *)
Definition filename_of (u : string) : string :=
  hd EmptyString (split "?" (last_item (split "/" u))).

Definition entry_of (item : string * Q) : Entry :=
  {| e_url := item.1; e_size := item.2; e_filename := filename_of item.1 |}.

(** The order [sort_values("Size (KB)", ascending=False)] establishes. *)
Definition size_desc (a b : Entry) : Prop := (e_size b <= e_size a)%Q.

#[global] Instance size_desc_dec a b : Decision (size_desc a b).
Proof.
  unfold size_desc. destruct (Qlt_le_dec (e_size a) (e_size b)) as [H | H].
  - right. intros H'. exact (Qlt_not_le _ _ H H').
  - left. exact H.
Defined.

(** [drop_duplicates(subset="Filename", keep="first")]; [names] are the
    file names already kept *)
Fixpoint drop_duplicates_from (names : list string) (l : list Entry)
  : list Entry :=
  match l with
  | [] => []
  | e :: l' =>
      if elem (e_filename e) names then drop_duplicates_from names l'
      else e :: drop_duplicates_from (e_filename e :: names) l'
  end.

Definition drop_duplicates (l : list Entry) : list Entry :=
  drop_duplicates_from [] l.

(** [(s[:k+1], s[k+1:])] for [k = s.rfind(c)] *)
Fixpoint rsplit_at (c : ascii) (s : string) : string * string :=
  match s with
  | EmptyString => (EmptyString, EmptyString)
  | String a s' =>
      let '(h, t) := rsplit_at c s' in
      if truthy h then (String a h, t)
      else if ascii_eqb a c then (String a EmptyString, t)
      else (EmptyString, String a t)
  end.

(** [s[:-1]] *)
Fixpoint drop_last (s : string) : string :=
  match s with
  | EmptyString => EmptyString
  | String a EmptyString => EmptyString
  | String a s' => String a (drop_last s')
  end.

(** [os.path.splitext(p)]: the extension starts at the last dot of the last
    component, unless only dots precede it there. *)
Definition splitext (p : string) : string * string :=
  let '(_, base) := rsplit_at "/" p in
  if has_char "." (lstrip_by (ascii_eqb ".") base) then
    let '(h, t) := rsplit_at "." p in (drop_last h, "." +:+ t)
  else (p, EmptyString).

(** [re.findall(r'[A-Za-z0-9]+', x)[:4]] of the file name without its
    extension *)
Definition parts_of (f : string) : list string :=
  take 4 (alnum_runs (splitext f).1).

(** [os.path.splitext(f)[1].lstrip(".").lower()] *)
Definition filetype_of (f : string) : string :=
  lower (lstrip_by (ascii_eqb ".") (splitext f).2).

Definition row_of (e : Entry) : Row :=
  {| URL := e_url e; Filename := e_filename e; Size := e_size e;
     Parts := parts_of (e_filename e); FileType := filetype_of (e_filename e) |}.

(** The rows the size filter keeps. *)
Definition in_size_range (min_size max_size : Q) (r : Row) : bool :=
  if negb (Qle_bool max_size 0)
  then Qle_bool min_size (Size r) && Qle_bool (Size r) max_size
  else Qle_bool min_size (Size r).

Section Table.

(** [sort_values] with the default algorithm is not stable; all that is
    known of it is that it sorts. *)
Variable sort_values : list Entry -> list Entry.

(** The table after the sort and the removal of duplicates. *)
Definition deduplicated (items : list (string * Q)) : list Entry :=
  drop_duplicates (sort_values (entry_of <$> items)).

(** The table the page shows and exports: [apply_size] is the state of the
    button of the size filter. An empty frame is left as it is. *)
Definition reduce (apply_size : bool) (min_size max_size : Q)
    (items : list (string * Q)) : list Row :=
  match items with
  | [] => []
  | _ =>
      let rows := row_of <$> deduplicated items in
      if apply_size
      then filter (fun r => in_size_range min_size max_size r = true) rows
      else rows
  end.

End Table.

(** What a second run of the reducer is given: the URLs of the rows and
    their sizes. *)
Definition items_of (rows : list Row) : list (string * Q) :=
  (fun r => (URL r, Size r)) <$> rows.

End Reducer.

(** ** The candidates of an [<img>] element, in the words of the specification *)

Module ImgSpec.

Import Py.

(** The first non-empty attribute among [src], [data-src], [data-original]
    and [data-lazy]. *)
Definition direct_candidate (img : Tag) : option string :=
  List.find truthy (omap (get img) App.img_attributes).

(** Every non-empty attribute among the four, in that order. *)
Definition all_direct_candidates (img : Tag) : list string :=
  List.filter truthy (omap (get img) App.img_attributes).

(** The first blank-delimited token of the comma-separated candidates of
    [srcset]; a blank candidate has none. *)
Definition srcset_candidates (img : Tag) : list string :=
  match get img "srcset" with
  | Some srcset => omap (fun part => head (split_ws (strip part))) (split "," srcset)
  | None => []
  end.

Definition candidates (img : Tag) : list string :=
  option_list (direct_candidate img) ++ srcset_candidates img.

(** No candidate of [srcset] is blank. *)
Definition srcset_well_formed (img : Tag) : Prop :=
  match get img "srcset" with
  | Some srcset => Forall (fun part => split_ws (strip part) <> []) (split "," srcset)
  | None => True
  end.

End ImgSpec.

(** ** Pages used in the examples *)

Module Examples.

Definition img (a : list (string * string)) : Tag :=
  {| name := "img"; attrs := a; strings := [] |}.

Definition anchor (href : string) : Tag :=
  {| name := "a"; attrs := [("href", href)]; strings := [] |}.

(** [<img src="a.jpg"><img data-src="b.png?x=1">] *)
Definition page_two_images : Html :=
  [img [("src", "a.jpg")]; img [("data-src", "b.png?x=1")]].

(** [<img src="PHOTO.JPG?v=2">] *)
Definition page_upper_case : Html := [img [("src", "PHOTO.JPG?v=2")]].

(** [<img src="logo.png">] *)
Definition page_logo : Html := [img [("src", "logo.png")]].

(** [<img src="banner-logo.png" alt="banner"><img src="banner.png">] *)
Definition page_banner : Html :=
  [img [("src", "banner-logo.png"); ("alt", "banner")];
   img [("src", "banner.png")]].

(** [<img src="a.jpg" data-src="b.png">] *)
Definition img_two_attributes : Tag :=
  img [("src", "a.jpg"); ("data-src", "b.png")].

(** [<img srcset="a.jpg 1x,">] *)
Definition img_trailing_comma : Tag := img [("srcset", "a.jpg 1x,")].

(** [<img src="c.gif" srcset="a.jpg 1x, b.jpg 2x">] *)
Definition img_srcset : Tag :=
  img [("src", "c.gif"); ("srcset", "a.jpg 1x, b.jpg 2x")].

(** [<a href="//[">] *)
Definition page_bad_href : Html := [anchor "//["].

(** A world that lists a set in the order of [elements]. *)
Definition plain_world (stop : nat -> bool) (get : nat -> string -> Response)
    (head : nat -> string -> HeadResponse) : World :=
  {| stop_flag := stop; http_get := get; http_head := head;
     set_order := elements;
     set_order_perm := fun s => Permutation_refl (elements s) |}.

(** A sort by decreasing size. *)
Definition sort_by_size : list Reducer.Entry -> list Reducer.Entry :=
  merge_sort Reducer.size_desc.

(** Two images named [pic.png] of 10 and 20 KB, and a third image. *)
Definition items_same_name : list (string * Q) :=
  [("http://h/a/pic.png", 10%Q); ("http://h/b/pic.png?v=2", 20%Q);
   ("http://h/c.gif", 5%Q)].

(** Every [HEAD] request is answered [404] with a body of 2048 bytes. *)
Definition world_404 : World :=
  plain_world (fun _ => false) (fun _ _ => Failed)
    (fun _ _ => HeadReply 404 (Some "2048")).

(** The first [HEAD] request times out, the second is answered without a
    length, the third with a length that is not a number, the fourth with
    1536 bytes. *)
Definition world_heads : World :=
  plain_world (fun _ => false) (fun _ _ => Failed)
    (fun i _ => match i with
                | 0 => HeadFailed
                | 1 => HeadReply 200 None
                | 2 => HeadReply 200 (Some "12a")
                | _ => HeadReply 200 (Some "1536")
                end).

End Examples.

(** ** What the claims about a crawl state of its outcome and final state *)

(** The pages visited are distinct and at most [max_pages], at every point
    of the log, and every URL dispatched, requested or enqueued has the
    authority of the base URL. *)
Definition within_budget_and_host (base_url : string) (max_pages : Z)
    (c : Crawl) : Prop :=
  NoDup (visited_urls (trace c))
  /\ seen c = list_to_set (visited_urls (trace c))
  /\ (forall tr, tr `prefix_of` trace c ->
        NoDup (visited_urls tr)
        /\ (Z.of_nat (length (visited_urls tr)) <= max_pages)%Z)
  /\ (Z.of_nat (size (seen c)) <= max_pages)%Z
  /\ (forall u, Enqueued u ∈ trace c \/ FetchStarted u ∈ trace c
                \/ Visited u ∈ trace c ->
        exists rb r, urllib.urlparse base_url = Ok rb
                     /\ urllib.urlparse u = Ok r
                     /\ urllib.netloc r = urllib.netloc rb).

(** Once set, the stop flag stays set. *)
Definition stop_flag_stays (W : World) : Prop :=
  forall t t', t <= t' -> stop_flag W t = true -> stop_flag W t' = true.

(** Wherever the log records that the stop flag was observed, with the
    images and the count of pages of that moment: nothing is dispatched or
    requested afterwards, a crawl that returns returns at least those images
    and that count, within the budget, and the crawl does return when no page
    makes the extractors raise. *)
Definition cancellation_kept (max_pages : Z) (extraction_ok : Prop)
    (run : Outcome * Crawl) : Prop :=
  forall tr1 imgs n tr2,
    trace run.2 = tr1 ++ StopObserved imgs n :: tr2 ->
    (forall u, FetchStarted u ∉ tr2 /\ Visited u ∉ tr2)
    /\ (forall l m, run.1 = Returned l m ->
          imgs ⊆ list_to_set l /\ n <= m /\ (Z.of_nat m <= max_pages)%Z)
    /\ (extraction_ok -> exists l m, run.1 = Returned l m).

(** The count a crawl returns is the number of pages it dispatched; the
    pages it fetched and parsed are among them. *)
Definition pages_are_dispatches (run : Outcome * Crawl) : Prop :=
  match run.1 with
  | Returned _ n =>
      n = length (visited_urls (trace run.2))
      /\ parsed_urls (trace run.2) ⊆ visited_urls (trace run.2)
      /\ length (parsed_urls (trace run.2)) <= n
  | _ => True
  end.

Module CrawlExamples.

Import Examples.

Definition progress0 : Progress :=
  {| pages_visited := 0; images_found := 0; current_activity := "Starting..." |}.

(** A site of four pages on the host [h]; the home page also links to
    another host. *)
Definition site (t : nat) (u : string) : Response :=
  if String.eqb u "http://h/" then
    Reply "text/html"
      [anchor "/p1"; anchor "/p2"; anchor "http://other/x";
       img [("src", "a.jpg")]]
  else if String.eqb u "http://h/p1" then
    Reply "text/html" [anchor "/p3"; img [("src", "b.png")]]
  else if String.eqb u "http://h/p2" then Reply "image/png" []
  else Failed.

Definition no_heads (i : nat) (u : string) : HeadResponse := HeadFailed.

(** The stop flag is never set. *)
Definition world_site : World := plain_world (fun _ => false) site no_heads.

(** The stop flag is set after the third read: the first turn runs, the
    second passes its checkpoint, and its two tasks see the flag. *)
Definition world_stop_in_worker : World :=
  plain_world (fun t => Nat.leb 3 t) site no_heads.

(** The stop flag is set between the first checkpoint and the first task. *)
Definition world_stop_first_task : World :=
  plain_world (fun t => Nat.leb 1 t) site no_heads.

(** Every request fails. *)
Definition world_down : World :=
  plain_world (fun _ => false) (fun _ _ => Failed) no_heads.

(** Every reply is an image. *)
Definition world_binary : World :=
  plain_world (fun _ => false) (fun _ _ => Reply "image/png" []) no_heads.

End CrawlExamples.

(** A run is an exception raised before the loop or a run of the loop. *)
Definition run_of (W : World) (same_host : string -> string -> bool)
    (guarded_pop : bool) (fetch_text : World -> nat -> string -> option Html)
    (extract : string -> option Html -> result (gset string * gset string))
    (activity_label : string) (max_pages concurrency : Z) (base_url : string)
    (progress : option Progress) (run : Outcome * Crawl) : Prop :=
  (exists e, run = (Raised e, initial base_url progress))
  \/ (exists rb, urllib.urlparse base_url = Ok rb
       /\ run = crawl_loop W same_host guarded_pop fetch_text extract
                  activity_label (urllib.netloc rb) max_pages concurrency
                  (S (Z.to_nat max_pages)) (initial base_url progress)).

(** ** Further notions for the properties of the code

    The order of the rows of the table, what the counters of
    [progress_state] show, the discipline of the requests of a crawl, and
    the keywords the page hands to the crawler. *)

(** The order of the rows of the table. *)
Definition by_size_desc (r1 r2 : Reducer.Row) : Prop :=
  (Reducer.Size r2 <= Reducer.Size r1)%Q.

(** The two counters of [progress_state] show the state of the crawl. *)
Definition counters_agree (c : Crawl) : Prop :=
  match progress_state c with
  | Some p => pages_visited p = size (seen c)
              /\ images_found p = size (found_images c)
  | None => True
  end.

(** Reading a log from its start with the pages dispatched and requested
    before it: every request is of a page dispatched before, and every page
    parsed was requested before. *)
Fixpoint in_order (vis fet : gset string) (tr : list Event) : Prop :=
  match tr with
  | [] => True
  | Visited u :: tr' => in_order (vis ∪ {[ u ]}) fet tr'
  | FetchStarted u :: tr' => u ∈ vis /\ in_order vis (fet ∪ {[ u ]}) tr'
  | Parsed u :: tr' => u ∈ fet /\ in_order vis fet tr'
  | _ :: tr' => in_order vis fet tr'
  end.

(** No page is requested twice nor parsed twice, and at every point of the
    log the pages requested so far were dispatched before, and the pages
    parsed so far requested before. *)
Definition requests_once (c : Crawl) : Prop :=
  NoDup (fetched_urls (trace c))
  /\ NoDup (parsed_urls (trace c))
  /\ length (fetched_urls (trace c)) <= size (seen c)
  /\ forall tr, tr `prefix_of` trace c ->
       fetched_urls tr ⊆ visited_urls tr
       /\ parsed_urls tr ⊆ fetched_urls tr.

(** [app.py]: the keywords typed in the sidebar *)

Module Ui.

Import Py.

(** [[k.strip().lower() for k in keywords_input.split(",") if k.strip()]] *)
Definition keywords (keywords_input : string) : list string :=
  (fun k => lower (strip k))
    <$> List.filter (fun k => truthy (strip k)) (split "," keywords_input).

End Ui.

(** Every read of the stop flag that found it set is in the log as an
    observation; [clock] counts the reads. *)
Definition flag_reads_logged (W : World) (c : Crawl) : Prop :=
  forall t, t < clock c -> stop_flag W t = true ->
            existsb is_stop (trace c) = true.

(** ** A cancellation while a page that raises is in flight *)

Module CancelExamples.

Import Examples.

(** The home page shows [a.jpg] and links to two pages; the first of them is
    [<img srcset="a.jpg 1x,"><a href="//[">]. *)
Definition site (t : nat) (u : string) : Response :=
  if String.eqb u "http://h/" then
    Reply "text/html" [anchor "/p1"; anchor "/p2"; img [("src", "a.jpg")]]
  else if String.eqb u "http://h/p1" then
    Reply "text/html" [img_trailing_comma; anchor "//["]
  else if String.eqb u "http://h/p2" then
    Reply "text/html" [img [("src", "b.png")]]
  else Failed.

(** The stop flag is set from its fifth read on: in the second batch the
    task of the first page has made its request and the task of the second
    sees the flag. *)
Definition world_stop_mid_batch : World :=
  plain_world (fun t => Nat.leb 4 t) site CrawlExamples.no_heads.

(** The same cancellation on the site of four well-formed pages. *)
Definition world_stop_mid_batch_sound : World :=
  plain_world (fun t => Nat.leb 4 t) CrawlExamples.site CrawlExamples.no_heads.

End CancelExamples.

(** * Properties *)

(** ** Loops over fallible bodies *)

Lemma for_each_app {A S} (body : A -> S -> result S) (l1 l2 : list A) (s : S) :
  for_each body (l1 ++ l2) s = (s' ← for_each body l1 s; for_each body l2 s').
Proof.
  revert s. induction l1 as [| x l1 IH]; intros s; simpl; [reflexivity |].
  destruct (body x s) as [s1 | e]; simpl; [apply IH | reflexivity].
Qed.

Lemma for_each_invariant {A S} (P : S -> Prop) (body : A -> S -> result S)
    (l : list A) :
  (forall x s s', body x s = Ok s' -> P s -> P s') ->
  forall s s', for_each body l s = Ok s' -> P s -> P s'.
Proof.
  intros Hbody. induction l as [| x l IH]; intros s s' Hrun Hs; simpl in Hrun.
  - congruence.
  - destruct (body x s) as [s1 | e] eqn:Hx; simpl in Hrun; [| discriminate].
    eapply IH; [exact Hrun |]. eapply Hbody; eassumption.
Qed.

(** ** The extractors *)

Section Extractors.

Import Py Examples.

(** No image that [add_candidate] adds is excluded. *)
Lemma add_candidate_not_excluded base kws ctx c imgs imgs' :
  App.add_candidate base kws ctx c imgs = Ok imgs' ->
  (forall u, u ∈ imgs -> App.is_excluded u = false) ->
  forall u, u ∈ imgs' -> App.is_excluded u = false.
Proof.
  unfold App.add_candidate. intros Hrun Hinv u Hu.
  destruct (App.abs_url base c) as [joined |]; simpl in Hrun; [| discriminate].
  destruct (App.normalize_url joined) as [full |]; simpl in Hrun; [| discriminate].
  destruct (App.is_image_url full); simpl in Hrun;
    [| injection Hrun as <-; auto].
  destruct (App.is_excluded full) eqn:Hex; simpl in Hrun;
    [injection Hrun as <-; auto |].
  destruct (_ || _) in Hrun; injection Hrun as <-; [| auto].
  apply elem_of_union in Hu as [Hu | Hu]; [auto |].
  apply elem_of_singleton in Hu. congruence.
Qed.

Lemma extract_images_not_excluded base html kws imgs :
  App.extract_images_from_html base html kws = Ok imgs ->
  forall u, u ∈ imgs -> App.is_excluded u = false.
Proof.
  set (P := fun s : gset string => forall u, u ∈ s -> App.is_excluded u = false).
  assert (Hadd : forall ctx c s s',
             App.add_candidate base kws ctx c s = Ok s' -> P s -> P s').
  { intros ctx c s s' H Hs. exact (add_candidate_not_excluded _ _ _ _ _ _ H Hs). }
  assert (Himg : forall x s s', App.scan_img base kws x s = Ok s' -> P s -> P s').
  { intros x s s' H Hs. unfold App.scan_img in H.
    match type of H with
    | (mbind _ ?r = _) => destruct r as [s1 |] eqn:H1
    end; simpl in H; [| discriminate].
    assert (Hs1 : P s1).
    { eapply (for_each_invariant P); [| exact H1 | exact Hs].
      intros [[| a c] |] t t' Ht Hp; try (injection Ht as <-; exact Hp).
      eapply Hadd; eassumption. }
    destruct (get x "srcset") as [[| a srcset] |];
      try (injection H as <-; exact Hs1).
    eapply (for_each_invariant P); [| exact H | exact Hs1].
    intros part t t' Ht Hp. cbv beta in Ht.
    destruct (App.first_token part) as [url |]; simpl in Ht; [| discriminate].
    eapply Hadd; eassumption. }
  assert (Hstyle : forall x s s',
             App.scan_inline_style base kws x s = Ok s' -> P s -> P s').
  { intros x s s' H Hs. unfold App.scan_inline_style in H.
    eapply (for_each_invariant P); [| exact H | exact Hs].
    intros c t t' Ht Hp. cbv beta in Ht. eapply Hadd; eassumption. }
  assert (Hblock : forall x s s',
             App.scan_style_block base kws x s = Ok s' -> P s -> P s').
  { intros x s s' H Hs. unfold App.scan_style_block in H.
    eapply (for_each_invariant P); [| exact H | exact Hs].
    intros c t t' Ht Hp. cbv beta in Ht. eapply Hadd; eassumption. }
  assert (Hattr : forall a x s s',
             App.scan_attr a base kws x s = Ok s' -> P s -> P s').
  { intros a x s s' H Hs. unfold App.scan_attr in H.
    destruct (get x a) as [[| ch c] |]; try (injection H as <-; exact Hs).
    eapply Hadd; eassumption. }
  assert (Hvideo : forall x s s',
             App.scan_video base kws x s = Ok s' -> P s -> P s').
  { intros x s s' H Hs. unfold App.scan_video in H.
    destruct (get x "poster") as [[| ch c] |]; try (injection H as <-; exact Hs).
    eapply Hadd; eassumption. }
  unfold App.extract_images_from_html. intros Hrun.
  repeat match type of Hrun with
         | (mbind _ ?r = _) =>
             let s := fresh "s" in let E := fresh "E" in
             destruct r as [s |] eqn:E; simpl in Hrun; [| discriminate]
         end.
  assert (P0 : P ∅) by (intros u Hu; set_solver).
  pose proof (for_each_invariant P _ _ Himg _ _ E P0) as P1.
  pose proof (for_each_invariant P _ _ Hstyle _ _ E0 P1) as P2.
  pose proof (for_each_invariant P _ _ Hblock _ _ E1 P2) as P3.
  pose proof (for_each_invariant P _ _ (Hattr _) _ _ E2 P3) as P4.
  pose proof (for_each_invariant P _ _ (Hattr _) _ _ E3 P4) as P5.
  exact (for_each_invariant P _ _ Hvideo _ _ Hrun P5).
Qed.

Lemma is_excluded_false u :
  App.is_excluded u = false ->
  contains "logo" (lower u) = false /\ contains "icon" (lower u) = false
  /\ contains "favicon" (lower u) = false.
Proof.
  unfold App.is_excluded, App.EXCLUDE_KEYWORDS. simpl.
  intros H. repeat (apply orb_false_iff in H as [? H]). auto.
Qed.

(** On an absent or empty page both extractors of both files return the
    empty set. *)
Lemma extract_empty_page base kws html :
  html = None \/ html = Some [] ->
  App.extract_images_from_html base html kws = Ok ∅
  /\ App.extract_links base html = Ok ∅
  /\ Backend.extract_images_from_html base html = Ok ∅
  /\ Backend.extract_links base html = Ok ∅.
Proof. intros [-> | ->]; repeat split; reflexivity. Qed.

(** C3: the extractor of [app.py] raises [IndexError] on
    [<img srcset="a.jpg 1x,">], whose [srcset] has a blank candidate after
    the comma, where the claim says that no markup makes it raise; the
    extractor of [backend.py] skips the blank candidate and returns the image.
    A link [<a href="//[">] makes the link extractors of both files raise
    the [ValueError] of [urljoin]. *)
Theorem C3_blank_srcset_candidate_raises :
  App.extract_images_from_html "http://h/p" (Some [img_trailing_comma]) []
    = Raise IndexError
  /\ Backend.extract_images_from_html "http://h/p" (Some [img_trailing_comma])
     = Ok {[ "http://h/a.jpg" ]}
  /\ App.extract_links "http://h/p" (Some page_bad_href) = Raise ValueError
  /\ Backend.extract_links "http://h/p" (Some page_bad_href) = Raise ValueError.
Proof. repeat split; vm_compute; reflexivity. Qed.

(** C4 (as amended): no URL in the set that [extract_images_from_html] of
    [app.py] returns contains [logo], [icon] or [favicon] once lower-cased,
    whatever the page and the keyword filter. *)
Theorem C4_app_never_extracts_excluded base html kws imgs u :
  App.extract_images_from_html base html kws = Ok imgs ->
  u ∈ imgs ->
  contains "logo" (lower u) = false /\ contains "icon" (lower u) = false
  /\ contains "favicon" (lower u) = false.
Proof.
  intros Hrun Hu. apply is_excluded_false.
  eapply extract_images_not_excluded; eassumption.
Qed.

(** With the filter [banner], [banner-logo.png] matches the filter by its
    URL and by its [alt] text and is left out all the same. *)
Lemma C4_witness :
  contains "logo" (lower "http://h/banner.png") = false
  /\ contains "icon" (lower "http://h/banner.png") = false
  /\ contains "favicon" (lower "http://h/banner.png") = false.
Proof.
  apply (C4_app_never_extracts_excluded "http://h/p" (Some page_banner)
           ["banner"] {[ "http://h/banner.png" ]}).
  - vm_compute. reflexivity.
  - apply elem_of_singleton. reflexivity.
Defined.

(** C4 as stated fails for [backend.py]: its extractor has no exclusion list
    and returns [http://h/logo.png]. *)
Lemma C4_counterexample :
  ~ (forall base html imgs u,
        Backend.extract_images_from_html base html = Ok imgs ->
        u ∈ imgs -> contains "logo" (lower u) = false).
Proof.
  intros H.
  specialize (H "http://h/p" (Some page_logo) {[ "http://h/logo.png" ]}
                "http://h/logo.png").
  assert (Hrun : Backend.extract_images_from_html "http://h/p" (Some page_logo)
                 = Ok {[ "http://h/logo.png" ]}) by (vm_compute; reflexivity).
  specialize (H Hrun ltac:(apply elem_of_singleton; reflexivity)).
  vm_compute in H. discriminate H.
Qed.

(** The chain of [or] of [backend.py] picks the first non-empty attribute. *)
Lemma img_src_first_non_empty img :
  match Backend.img_src img with
  | Some (String a s) => ImgSpec.direct_candidate img = Some (String a s)
  | _ => ImgSpec.direct_candidate img = None
  end.
Proof.
  unfold Backend.img_src, ImgSpec.direct_candidate, App.img_attributes.
  simpl.
  destruct (get img "src") as [[| a1 s1] |];
    destruct (get img "data-src") as [[| a2 s2] |];
    destruct (get img "data-original") as [[| a3 s3] |];
    destruct (get img "data-lazy") as [[| a4 s4] |]; reflexivity.
Qed.

Lemma for_each_first_tokens {S} (f : string -> S -> result S) parts (s : S) :
  for_each
    (fun item s => match split_ws (strip item) with
                   | [] => Ok s
                   | url :: _ => f url s
                   end) parts s
  = for_each f (omap (fun part => head (split_ws (strip part))) parts) s.
Proof.
  revert s. induction parts as [| p parts IH]; intros s; simpl; [reflexivity |].
  destruct (split_ws (strip p)) as [| url rest]; simpl; [apply IH |].
  destruct (f url s); simpl; [apply IH | reflexivity].
Qed.

Lemma for_each_first_tokens_strict {S} (f : string -> S -> result S) parts (s : S) :
  Forall (fun part => split_ws (strip part) <> []) parts ->
  for_each (fun part s => url ← App.first_token part; f url s) parts s
  = for_each f (omap (fun part => head (split_ws (strip part))) parts) s.
Proof.
  intros Hparts. revert s.
  induction Hparts as [| p parts Hp _ IH]; intros s; simpl; [reflexivity |].
  assert (Hft : App.first_token p
                = match split_ws (strip p) with
                  | [] => Raise IndexError
                  | url :: _ => Ok url
                  end) by reflexivity.
  rewrite Hft. clear Hft.
  destruct (split_ws (strip p)) as [| url rest]; [congruence |]. simpl.
  destruct (f url s); simpl; [apply IH | reflexivity].
Qed.

Lemma for_each_non_empty {S} (f : string -> S -> result S) (l : list (option string)) (s : S) :
  for_each (fun c s => match c with
                       | Some (String _ _ as c) => f c s
                       | _ => Ok s
                       end) l s
  = for_each f (List.filter truthy (omap id l)) s.
Proof.
  revert s. induction l as [| c l IH]; intros s; simpl; [reflexivity |].
  destruct c as [[| a c] |]; simpl; try apply IH.
  destruct (f (String a c) s); simpl; [apply IH | reflexivity].
Qed.

(** C5 (as amended): for every [<img>], the extractor of [backend.py] takes
    as candidates the first non-empty attribute among the four and the first
    token of every candidate of [srcset] that is not blank; the extractor of
    [app.py] takes every non-empty attribute among the four, and the same
    tokens when no candidate of [srcset] is blank. *)
Theorem C5_img_candidates base kws img imgs :
  Backend.scan_img base img imgs
    = for_each (Backend.add_if_image base) (ImgSpec.candidates img) imgs
  /\ (ImgSpec.srcset_well_formed img ->
      App.scan_img base kws img imgs
      = for_each
          (App.add_candidate base kws
             (Some (get_or_empty img "alt" +:+ " "
                    +:+ get_or_empty img "title")))
          (ImgSpec.all_direct_candidates img ++ ImgSpec.srcset_candidates img)
          imgs).
Proof.
  split.
  - unfold Backend.scan_img, ImgSpec.candidates. rewrite for_each_app.
    pose proof (img_src_first_non_empty img) as Hsrc.
    assert (Hdirect :
              match Backend.img_src img with
              | Some (String _ _ as src) => Backend.add_if_image base src imgs
              | _ => Ok imgs
              end
              = for_each (Backend.add_if_image base)
                  (option_list (ImgSpec.direct_candidate img)) imgs).
    { destruct (Backend.img_src img) as [[| a s] |]; rewrite Hsrc; simpl;
        try reflexivity.
      destruct (Backend.add_if_image base (String a s) imgs); reflexivity. }
    rewrite Hdirect.
    destruct (for_each _ (option_list _) imgs) as [imgs1 |]; simpl;
      [| reflexivity].
    unfold ImgSpec.srcset_candidates.
    destruct (get img "srcset") as [[| a srcset] |]; try reflexivity.
    apply for_each_first_tokens.
  - intros Hwf.
    unfold App.scan_img, ImgSpec.all_direct_candidates. rewrite for_each_app.
    rewrite for_each_non_empty.
    assert (Hall : omap id (map (get img) App.img_attributes)
                   = omap (get img) App.img_attributes) by reflexivity.
    rewrite Hall.
    destruct (for_each _ (List.filter _ _) imgs) as [imgs1 |]; simpl;
      [| reflexivity].
    unfold ImgSpec.srcset_candidates, ImgSpec.srcset_well_formed in *.
    destruct (get img "srcset") as [[| a srcset] |]; try reflexivity.
    apply for_each_first_tokens_strict. exact Hwf.
Qed.

Lemma C5_witness :
  App.scan_img "http://h/p" [] img_srcset ∅
  = for_each (App.add_candidate "http://h/p" [] (Some " "))
      ["c.gif"; "a.jpg"; "b.jpg"] ∅.
Proof.
  apply (proj2 (C5_img_candidates "http://h/p" [] img_srcset ∅)).
  vm_compute. repeat constructor; discriminate.
Defined.

(** C5 as stated fails for [app.py]: on [<img src="a.jpg" data-src="b.png">]
    the first non-empty attribute is [src], and the extractor also takes
    [data-src]. *)
Lemma C5_counterexample :
  ~ (forall base kws img imgs,
        App.scan_img base kws img imgs
        = for_each
            (App.add_candidate base kws
               (Some (get_or_empty img "alt" +:+ " " +:+ get_or_empty img "title")))
            (ImgSpec.candidates img) imgs).
Proof.
  intros H. specialize (H "http://h/p" [] img_two_attributes ∅).
  apply (f_equal (fun r => match r with
                           | Ok s => bool_decide ("http://h/b.png" ∈ s)
                           | Raise _ => false
                           end)) in H.
  vm_compute in H. discriminate H.
Qed.

(** C6 (as amended): on [<img src="a.jpg"><img data-src="b.png?x=1">] with
    the base [http://h/p], the extractor of [app.py] without keywords returns
    [{http://h/a.jpg, http://h/b.png}]; the extractor of [backend.py] keeps
    the query and returns [{http://h/a.jpg, http://h/b.png?x=1}]. Both test
    the extension without the query and without regard to case. *)
Theorem C6_two_images :
  App.extract_images_from_html "http://h/p" (Some page_two_images) []
    = Ok {[ "http://h/a.jpg"; "http://h/b.png" ]}
  /\ Backend.extract_images_from_html "http://h/p" (Some page_two_images)
     = Ok {[ "http://h/a.jpg"; "http://h/b.png?x=1" ]}
  /\ App.extract_images_from_html "http://h/p" (Some page_upper_case) []
     = Ok {[ "http://h/PHOTO.JPG" ]}
  /\ Backend.extract_images_from_html "http://h/p" (Some page_upper_case)
     = Ok {[ "http://h/PHOTO.JPG?v=2" ]}.
Proof. repeat split; vm_compute; reflexivity. Qed.

(** C6 as stated fails for [backend.py], which does not strip the query. *)
Lemma C6_counterexample :
  Backend.extract_images_from_html "http://h/p" (Some page_two_images)
  <> Ok {[ "http://h/a.jpg"; "http://h/b.png" ]}.
Proof.
  intros H.
  apply (f_equal (fun r => match r with
                           | Ok s => bool_decide ("http://h/b.png" ∈ s)
                           | Raise _ => false
                           end)) in H.
  vm_compute in H. discriminate H.
Qed.

End Extractors.

(** ** The size probe *)

Section ProbeProperties.

Import Py Examples.

Lemma worker_no_length W i u :
  Probe.no_length (http_head W i u) -> Probe.worker W i u = 0%Q.
Proof.
  unfold Probe.no_length, Probe.worker, Probe.get_head_size.
  destruct (http_head W i u) as [| status [cl |]]; intros H; try reflexivity.
  rewrite H, andb_false_r. reflexivity.
Qed.

Lemma worker_length W i u status cl :
  http_head W i u = HeadReply status (Some cl) -> isdigit cl = true ->
  Probe.worker W i u = Probe.size_of_length cl.
Proof.
  unfold Probe.worker, Probe.size_of_length, Probe.get_head_size. intros -> H.
  assert (Ht : truthy cl = true).
  { unfold isdigit in H. apply andb_true_iff in H. tauto. }
  rewrite Ht, H. reflexivity.
Qed.

(** C7 (as amended): with a concurrency of at least 1 the probe returns, and
    does not raise; its list has the length and the order of the URLs; the
    entry of a URL is [0.0] when its request raised or its reply announces no
    length or one that is not a number; the status of the reply is not
    looked at: a reply with a numeric length gives, whatever its status, what
    [round(int(cl)/1024.0, 2)] gives for that length, which is [0.0] when the
    arithmetic raises. *)
Theorem C7_probe_sizes W urls concurrency timeout :
  (1 <= concurrency)%Z ->
  exists kb,
    Probe.fetch_sizes W urls concurrency timeout = Probe.Sizes kb
    /\ length kb = length urls
    /\ (forall i u, urls !! i = Some u ->
          kb !! i = Some (Probe.worker W i u))
    /\ (forall i u, urls !! i = Some u ->
          Probe.no_length (http_head W i u) -> kb !! i = Some 0%Q)
    /\ (forall i u status cl, urls !! i = Some u ->
          http_head W i u = HeadReply status (Some cl) -> isdigit cl = true ->
          kb !! i = Some (Probe.size_of_length cl)).
Proof.
  intros Hc. exists (imap (Probe.worker W) urls).
  assert (Hlookup : forall i u, urls !! i = Some u ->
            imap (Probe.worker W) urls !! i = Some (Probe.worker W i u)).
  { intros i u Hu. rewrite list_lookup_imap, Hu. reflexivity. }
  repeat split.
  - unfold Probe.fetch_sizes, Probe.fetch_sizes_async.
    destruct (concurrency <? 0)%Z eqn:E1; [lia |].
    destruct (concurrency =? 0)%Z eqn:E2; [lia |]. reflexivity.
  - apply length_imap.
  - exact Hlookup.
  - intros i u Hu Hno. rewrite (Hlookup i u Hu), worker_no_length; auto.
  - intros i u status cl Hu Hr Hd.
    rewrite (Hlookup i u Hu), (worker_length _ _ _ _ _ Hr Hd). reflexivity.
Qed.

Lemma C7_witness :
  exists kb,
    Probe.fetch_sizes world_heads ["u0"; "u1"; "u2"; "u3"] 20 8 = Probe.Sizes kb
    /\ length kb = 4
    /\ kb = [0%Q; 0%Q; 0%Q; (3 # 2)%Q].
Proof.
  destruct (C7_probe_sizes world_heads ["u0"; "u1"; "u2"; "u3"] 20 8
              ltac:(lia)) as (kb & Hrun & Hlen & Hkb & _).
  exists kb. split; [exact Hrun |]. split; [exact Hlen |].
  destruct kb as [| k0 [| k1 [| k2 [| k3 [| k4 kb]]]]]; try discriminate Hlen.
  pose proof (Hkb 0 "u0" eq_refl) as H0.
  pose proof (Hkb 1 "u1" eq_refl) as H1.
  pose proof (Hkb 2 "u2" eq_refl) as H2.
  pose proof (Hkb 3 "u3" eq_refl) as H3.
  vm_compute in H0, H1, H2, H3. congruence.
Defined.

(** C7 as stated fails for a reply whose status is not 2xx: the probe takes
    the length a [404] reply announces. *)
Lemma C7_counterexample :
  ~ (forall W urls concurrency timeout i u status cl,
        urls !! i = Some u ->
        http_head W i u = HeadReply status cl ->
        (status < 200 \/ 300 <= status) ->
        exists kb,
          Probe.fetch_sizes W urls concurrency timeout = Probe.Sizes kb
          /\ kb !! i = Some 0%Q).
Proof.
  intros H.
  destruct (H world_404 ["http://h/gone.png"] 20%Z 8%Z 0 "http://h/gone.png"
              404 (Some "2048") eq_refl eq_refl ltac:(right; lia))
    as (kb & Hrun & Hkb).
  vm_compute in Hrun. injection Hrun as <-. vm_compute in Hkb.
  discriminate Hkb.
Qed.

End ProbeProperties.

(** ** The reducer *)

Section ReducerProperties.

Import Py Examples Reducer.

#[global] Instance size_desc_transitive : Transitive size_desc.
Proof. intros a b c Hab Hbc. unfold size_desc in *. eapply Qle_trans; eassumption. Qed.

#[global] Instance size_desc_total : Total size_desc.
Proof.
  intros a b. unfold size_desc.
  destruct (Qlt_le_dec (e_size a) (e_size b)) as [H | H]; [right | left].
  - apply Qlt_le_weak. exact H.
  - exact H.
Qed.

Lemma filter_fmap {A B} (f : A -> B) (P : B -> Prop) `{forall y, Decision (P y)}
    (l : list A) :
  filter P (f <$> l) = f <$> filter (fun x => P (f x)) l.
Proof.
  induction l as [| x l IH]; [reflexivity |].
  rewrite fmap_cons, !filter_cons.
  destruct (decide (P (f x))); rewrite ?fmap_cons, IH; reflexivity.
Qed.

Lemma elem_spec x (l : list string) : elem x l = true <-> x ∈ l.
Proof. unfold elem. apply bool_decide_eq_true. Qed.

Lemma drop_duplicates_from_elem names l e :
  e ∈ drop_duplicates_from names l -> e ∈ l /\ e_filename e ∉ names.
Proof.
  revert names. induction l as [| x l IH]; intros names He; simpl in He.
  - inversion He.
  - destruct (elem (e_filename x) names) eqn:E.
    + destruct (IH _ He). split; [right |]; assumption.
    + apply elem_of_cons in He as [-> | He].
      * split; [left |]. intros Hin. apply elem_spec in Hin. congruence.
      * destruct (IH _ He) as [? Hn]. split; [right; assumption |].
        intros Hin. apply Hn. right. exact Hin.
Qed.

Lemma drop_duplicates_from_NoDup names l :
  NoDup (e_filename <$> drop_duplicates_from names l).
Proof.
  revert names. induction l as [| x l IH]; intros names; simpl.
  - constructor.
  - destruct (elem (e_filename x) names); [apply IH |].
    simpl. constructor; [| apply IH].
    intros Hin. apply list_elem_of_fmap in Hin as (e & Hname & He).
    apply drop_duplicates_from_elem in He as [_ Hn]. apply Hn.
    rewrite <- Hname. left.
Qed.

Lemma drop_duplicates_from_id names l :
  NoDup (e_filename <$> l) -> (forall e, e ∈ l -> e_filename e ∉ names) ->
  drop_duplicates_from names l = l.
Proof.
  revert names. induction l as [| x l IH]; intros names Hnd Hnames; simpl;
    [reflexivity |].
  simpl in Hnd. apply NoDup_cons in Hnd as [Hx Hnd].
  destruct (elem (e_filename x) names) eqn:E.
  - apply elem_spec in E. exfalso. apply (Hnames x); [left | exact E].
  - f_equal. apply IH; [exact Hnd |].
    intros e He Hin. apply elem_of_cons in Hin as [Heq | Hin].
    + apply Hx. rewrite <- Heq. apply list_elem_of_fmap. eauto.
    + apply (Hnames e); [right |]; assumption.
Qed.

(** Of the entries of one file name, the removal of duplicates keeps the
    first. *)
Lemma drop_duplicates_from_filter names l f :
  filter (fun e => e_filename e = f) (drop_duplicates_from names l)
  = if decide (f ∈ names) then []
    else option_list (head (filter (fun e => e_filename e = f) l)).
Proof.
  revert names. induction l as [| x l IH]; intros names; simpl.
  - destruct (decide (f ∈ names)); reflexivity.
  - rewrite (filter_cons _ x l).
    destruct (elem (e_filename x) names) eqn:E.
    + rewrite IH. apply elem_spec in E.
      destruct (decide (f ∈ names)) as [Hf | Hf]; [reflexivity |].
      destruct (decide (e_filename x = f)) as [Hx | Hx]; [| reflexivity].
      congruence.
    + assert (Hn : e_filename x ∉ names).
      { intros Hin. apply elem_spec in Hin. congruence. }
      rewrite filter_cons, IH.
      destruct (decide (e_filename x = f)) as [Hx | Hx].
      * subst f. rewrite decide_True by left.
        rewrite decide_False by exact Hn. reflexivity.
      * destruct (decide (f ∈ names)) as [Hf | Hf].
        -- rewrite decide_True by (right; exact Hf). reflexivity.
        -- rewrite decide_False; [reflexivity |].
           intros Hin. apply elem_of_cons in Hin as [? | ?]; congruence.
Qed.

(** In a list sorted by decreasing size, the first entry with a property is
    a largest one with it. *)
Lemma head_filter_largest (P : Entry -> Prop) `{forall e, Decision (P e)} l e :
  StronglySorted size_desc l -> head (filter P l) = Some e ->
  P e /\ e ∈ l /\ forall e', e' ∈ l -> P e' -> (e_size e' <= e_size e)%Q.
Proof.
  intros Hs. induction Hs as [| x l Hs IH Hx]; intros Hhd; [discriminate |].
  rewrite filter_cons in Hhd. destruct (decide (P x)) as [Hp | Hp].
  - injection Hhd as <-. split; [exact Hp |]. split; [left |].
    intros e' He' _. apply elem_of_cons in He' as [-> | He'].
    + apply Qle_refl.
    + rewrite Forall_forall in Hx. apply (Hx e'). exact He'.
  - destruct (IH Hhd) as (HPe & Hel & Hmax). split; [exact HPe |].
    split; [right; exact Hel |].
    intros e' He' HP'. apply elem_of_cons in He' as [-> | He'].
    + contradiction.
    + apply Hmax; assumption.
Qed.

Variable sort_values : list Entry -> list Entry.
Hypothesis sort_values_perm : forall l, sort_values l ≡ₚ l.
Hypothesis sort_values_sorted : forall l, Sorted size_desc (sort_values l).

Lemma deduplicated_largest items url size :
  (url, size) ∈ items ->
  exists e,
    filter (fun e => e_filename e = filename_of url)
      (deduplicated sort_values items) = [e]
    /\ (e_url e, e_size e) ∈ items
    /\ e_filename e = filename_of url
    /\ forall u s, (u, s) ∈ items -> filename_of u = filename_of url ->
                   (s <= e_size e)%Q.
Proof.
  intros Hin. unfold deduplicated, drop_duplicates.
  rewrite drop_duplicates_from_filter.
  destruct (decide (filename_of url ∈ [])) as [Hnil | _]; [inversion Hnil |].
  set (sorted := sort_values (entry_of <$> items)).
  assert (Hmem : forall e, e ∈ sorted <-> e ∈ entry_of <$> items).
  { intros e. unfold sorted. rewrite sort_values_perm. reflexivity. }
  destruct (head (filter (fun e => e_filename e = filename_of url) sorted))
    as [e |] eqn:Hhd.
  - apply head_filter_largest in Hhd as (Hname & Hel & Hmax).
    2:{ apply Sorted_StronglySorted; [apply _ | apply sort_values_sorted]. }
    exists e. split; [reflexivity |].
    apply Hmem in Hel. apply list_elem_of_fmap in Hel as ([u s] & -> & Hus).
    split; [exact Hus |]. split; [exact Hname |].
    intros u' s' Hus' Hname'.
    apply (Hmax (entry_of (u', s'))); [| exact Hname'].
    apply Hmem. apply list_elem_of_fmap. eauto.
  - exfalso.
    assert (Hel : entry_of (url, size) ∈ sorted).
    { apply Hmem. apply list_elem_of_fmap. eauto. }
    assert (Hf : entry_of (url, size)
                 ∈ filter (fun e => e_filename e = filename_of url) sorted).
    { apply list_elem_of_filter. split; [reflexivity | exact Hel]. }
    destruct (filter _ sorted); [inversion Hf | discriminate].
Qed.

(** C8: for every file name that occurs among the items, the table holds
    exactly one row of that name, a row of largest size among the items of
    that name; the size filter, when applied, can only remove it. *)
Theorem C8_keeps_largest_per_filename apply_size min_size max_size items
    url size :
  (url, size) ∈ items ->
  exists r,
    (URL r, Size r) ∈ items
    /\ Filename r = filename_of url
    /\ (forall u s, (u, s) ∈ items -> filename_of u = filename_of url ->
                    (s <= Size r)%Q)
    /\ filter (fun r => Filename r = filename_of url)
         (reduce sort_values apply_size min_size max_size items)
       = if apply_size && negb (in_size_range min_size max_size r)
         then [] else [r].
Proof.
  intros Hin.
  destruct (deduplicated_largest items url size Hin)
    as (e & Hfilter & Hitem & Hname & Hmax).
  exists (row_of e). split; [exact Hitem |]. split; [exact Hname |].
  split; [exact Hmax |].
  assert (Hrows : filter (fun r => Filename r = filename_of url)
                    (row_of <$> deduplicated sort_values items) = [row_of e]).
  { rewrite filter_fmap. simpl. rewrite Hfilter. reflexivity. }
  unfold reduce. destruct items as [| item items]; [inversion Hin |].
  destruct apply_size; simpl; [| exact Hrows].
  set (rows := row_of <$> deduplicated sort_values (item :: items)) in *.
  assert (Hcomm :
            filter (fun r => Filename r = filename_of url)
              (filter (fun r => in_size_range min_size max_size r = true) rows)
            = filter (fun r => in_size_range min_size max_size r = true)
                (filter (fun r => Filename r = filename_of url) rows)).
  { rewrite !list_filter_filter. apply list_filter_iff. tauto. }
  rewrite Hcomm, Hrows. rewrite filter_cons, filter_nil.
  destruct (in_size_range min_size max_size (row_of e)); reflexivity.
Qed.

Lemma deduplicated_entries items e :
  e ∈ deduplicated sort_values items ->
  entry_of (e_url e, e_size e) = e.
Proof.
  unfold deduplicated, drop_duplicates. intros He.
  apply drop_duplicates_from_elem in He as [He _].
  rewrite sort_values_perm in He.
  apply list_elem_of_fmap in He as ([u s] & -> & _). reflexivity.
Qed.

Lemma fmap_id_on {A} (f : A -> A) (l : list A) :
  (forall x, x ∈ l -> f x = x) -> f <$> l = l.
Proof.
  induction l as [| x l IH]; intros H; [reflexivity |].
  rewrite fmap_cons, H by left. f_equal. apply IH.
  intros y Hy. apply H. right. exact Hy.
Qed.

Lemma filter_id_on {A} (P : A -> Prop) `{forall x, Decision (P x)} (l : list A) :
  (forall x, x ∈ l -> P x) -> filter P l = l.
Proof.
  induction l as [| x l IH]; intros HP; [reflexivity |].
  rewrite filter_cons_True by (apply HP; left). f_equal. apply IH.
  intros y Hy. apply HP. right. exact Hy.
Qed.

(** The reducer run on entries of distinct file names that are their own
    records returns them, in some order. *)
Lemma reduce_distinct apply_size min_size max_size (entries : list Entry) :
  NoDup (e_filename <$> entries) ->
  (forall e, e ∈ entries -> entry_of (e_url e, e_size e) = e) ->
  (apply_size = true ->
   forall e, e ∈ entries -> in_size_range min_size max_size (row_of e) = true) ->
  reduce sort_values apply_size min_size max_size
    ((fun e => (e_url e, e_size e)) <$> entries)
  ≡ₚ row_of <$> entries.
Proof.
  intros Hnd Hown Hrange. unfold reduce.
  destruct entries as [| e0 entries]; [reflexivity |].
  set (es := e0 :: entries) in *.
  assert (Hitems : (fun e => (e_url e, e_size e)) <$> es
                   = (e_url e0, e_size e0)
                     :: ((fun e => (e_url e, e_size e)) <$> entries))
    by reflexivity.
  rewrite Hitems. rewrite <- Hitems. clear Hitems.
  assert (Hentries : entry_of <$> ((fun e => (e_url e, e_size e)) <$> es) = es).
  { rewrite <- list_fmap_compose. apply fmap_id_on. exact Hown. }
  assert (Hded : deduplicated sort_values ((fun e => (e_url e, e_size e)) <$> es)
                 = sort_values es).
  { unfold deduplicated, drop_duplicates. rewrite Hentries.
    apply drop_duplicates_from_id.
    - rewrite sort_values_perm. exact Hnd.
    - intros e _ Hnil. inversion Hnil. }
  rewrite Hded.
  assert (Hperm : row_of <$> sort_values es ≡ₚ row_of <$> es).
  { rewrite sort_values_perm. reflexivity. }
  destruct apply_size; [| exact Hperm].
  rewrite filter_id_on; [exact Hperm |].
  intros r Hr. apply list_elem_of_fmap in Hr as (e & -> & He).
  apply Hrange; [reflexivity |]. rewrite sort_values_perm in He. exact He.
Qed.

(** C9: the reducer run on the URLs and sizes of its own rows, with the same
    size filter, returns the same rows. *)
Theorem C9_reducer_idempotent apply_size min_size max_size items :
  reduce sort_values apply_size min_size max_size
    (items_of (reduce sort_values apply_size min_size max_size items))
  ≡ₚ reduce sort_values apply_size min_size max_size items.
Proof.
  destruct items as [| item items]; [reflexivity |].
  set (its := item :: items).
  set (kept := if apply_size
               then filter (fun e => in_size_range min_size max_size (row_of e)
                                     = true)
                      (deduplicated sort_values its)
               else deduplicated sort_values its).
  assert (Hout : reduce sort_values apply_size min_size max_size its
                 = row_of <$> kept).
  { unfold reduce, kept, its. destruct apply_size; [| reflexivity].
    apply filter_fmap. }
  assert (Hsub : kept `sublist_of` deduplicated sort_values its).
  { unfold kept. destruct apply_size; [apply sublist_filter | reflexivity]. }
  rewrite Hout. unfold items_of. rewrite <- list_fmap_compose.
  apply reduce_distinct.
  - eapply sublist_NoDup; [| apply fmap_sublist; exact Hsub].
    apply drop_duplicates_from_NoDup.
  - intros e He. apply (deduplicated_entries its).
    eapply elem_of_sublist; eassumption.
  - intros -> e He. unfold kept in He.
    apply list_elem_of_filter in He as [He _]. exact He.
Qed.

End ReducerProperties.

(** Two images share the name [pic.png]; the row kept is the one of 20 KB. *)
Lemma reduce_same_name :
  Reducer.reduce Examples.sort_by_size false 0 0 Examples.items_same_name
  = [ {| Reducer.URL := "http://h/b/pic.png?v=2"; Reducer.Filename := "pic.png";
         Reducer.Size := 20; Reducer.Parts := ["pic"];
         Reducer.FileType := "png" |};
      {| Reducer.URL := "http://h/c.gif"; Reducer.Filename := "c.gif";
         Reducer.Size := 5; Reducer.Parts := ["c"];
         Reducer.FileType := "gif" |} ].
Proof. vm_compute. reflexivity. Qed.

Lemma C8_witness :
  exists r,
    (Reducer.URL r, Reducer.Size r) ∈ Examples.items_same_name
    /\ Reducer.Filename r = "pic.png"
    /\ (forall u s, (u, s) ∈ Examples.items_same_name ->
                    Reducer.filename_of u = "pic.png" ->
                    (s <= Reducer.Size r)%Q)
    /\ filter (fun r => Reducer.Filename r = "pic.png")
         (Reducer.reduce Examples.sort_by_size false 0 0
            Examples.items_same_name)
       = [r].
Proof.
  apply (C8_keeps_largest_per_filename Examples.sort_by_size
           (merge_sort_Permutation _) (Sorted_merge_sort _)
           false 0%Q 0%Q Examples.items_same_name "http://h/a/pic.png" 10%Q).
  left.
Defined.

Lemma C9_witness :
  Reducer.reduce Examples.sort_by_size true 6 0
    (Reducer.items_of
       (Reducer.reduce Examples.sort_by_size true 6 0 Examples.items_same_name))
  ≡ₚ Reducer.reduce Examples.sort_by_size true 6 0 Examples.items_same_name.
Proof.
  apply (C9_reducer_idempotent Examples.sort_by_size
           (merge_sort_Permutation _)).
Defined.

(** ** The log of a crawl *)

Lemma visited_urls_app tr1 tr2 :
  visited_urls (tr1 ++ tr2) = visited_urls tr1 ++ visited_urls tr2.
Proof. apply omap_app. Qed.

Lemma fetched_urls_app tr1 tr2 :
  fetched_urls (tr1 ++ tr2) = fetched_urls tr1 ++ fetched_urls tr2.
Proof. apply omap_app. Qed.

Lemma parsed_urls_app tr1 tr2 :
  parsed_urls (tr1 ++ tr2) = parsed_urls tr1 ++ parsed_urls tr2.
Proof. apply omap_app. Qed.

(** The projections of the four runs of events a turn appends. *)
Lemma projections_visited new :
  visited_urls (Visited <$> new) = new
  /\ fetched_urls (Visited <$> new) = []
  /\ parsed_urls (Visited <$> new) = [].
Proof.
  induction new as [| u new (IH1 & IH2 & IH3)]; [repeat split |].
  rewrite fmap_cons. unfold visited_urls, fetched_urls, parsed_urls in *.
  simpl.
  split_and!; first [exact IH1 | exact IH2 | exact IH3
                    | f_equal; first [exact IH1 | exact IH2 | exact IH3]].
Qed.

Lemma projections_started imgs n tasks :
  visited_urls (start_event imgs n <$> tasks) = []
  /\ fetched_urls (start_event imgs n <$> tasks) = requested tasks
  /\ parsed_urls (start_event imgs n <$> tasks) = [].
Proof.
  induction tasks as [| [u [t |]] tasks (IH1 & IH2 & IH3)]; [repeat split | |];
    rewrite fmap_cons;
    unfold visited_urls, fetched_urls, parsed_urls, requested in *;
    simpl;
    split_and!; first [exact IH1 | exact IH2 | exact IH3
                      | f_equal; first [exact IH1 | exact IH2 | exact IH3]].
Qed.

Lemma projections_parsed ps :
  visited_urls (Parsed <$> ps) = []
  /\ fetched_urls (Parsed <$> ps) = []
  /\ parsed_urls (Parsed <$> ps) = ps.
Proof.
  induction ps as [| u ps (IH1 & IH2 & IH3)]; [repeat split |].
  rewrite fmap_cons. unfold visited_urls, fetched_urls, parsed_urls in *.
  simpl.
  split_and!; first [exact IH1 | exact IH2 | exact IH3
                    | f_equal; first [exact IH1 | exact IH2 | exact IH3]].
Qed.

Lemma projections_enqueued ls :
  visited_urls (Enqueued <$> ls) = []
  /\ fetched_urls (Enqueued <$> ls) = []
  /\ parsed_urls (Enqueued <$> ls) = [].
Proof.
  induction ls as [| u ls (IH1 & IH2 & IH3)]; [repeat split |].
  rewrite fmap_cons. unfold visited_urls, fetched_urls, parsed_urls in *.
  simpl.
  split_and!; first [exact IH1 | exact IH2 | exact IH3
                    | f_equal; first [exact IH1 | exact IH2 | exact IH3]].
Qed.

Lemma elem_of_started imgs n tasks e :
  e ∈ start_event imgs n <$> tasks ->
  (exists u, e = FetchStarted u /\ u ∈ requested tasks)
  \/ (e = StopObserved imgs n
      /\ exists i u, tasks !! i = Some (u, None)).
Proof.
  induction tasks as [| [u [t |]] tasks IH]; rewrite ?fmap_cons; intros He.
  - inversion He.
  - apply elem_of_cons in He as [-> | He].
    + left. exists u. split; [reflexivity | left].
    + destruct (IH He) as [(v & -> & Hv) | (-> & i & v & Hi)].
      * left. exists v. split; [reflexivity | right; exact Hv].
      * right. split; [reflexivity |]. exists (S i), v. exact Hi.
  - apply elem_of_cons in He as [-> | He].
    + right. split; [reflexivity |]. exists 0, u. reflexivity.
    + destruct (IH He) as [(v & -> & Hv) | (-> & i & v & Hi)].
      * left. exists v. split; [reflexivity | exact Hv].
      * right. split; [reflexivity |]. exists (S i), v. exact Hi.
Qed.

Lemma requested_sublist tasks : requested tasks `sublist_of` fst <$> tasks.
Proof.
  induction tasks as [| [u [t |]] tasks IH]; [reflexivity | |];
    rewrite fmap_cons; unfold requested in *; simpl.
  - apply sublist_skip. exact IH.
  - apply sublist_cons. exact IH.
Qed.

(** *** Quiet logs *)

Lemma quiet_after_stop_app tr evs :
  quiet_after_stop (tr ++ evs)
  = if existsb is_stop tr
    then quiet_after_stop tr && forallb (fun e => negb (is_dispatch e)) evs
    else quiet_after_stop evs.
Proof.
  induction tr as [| e tr IH]; [reflexivity |]. simpl.
  destruct (is_stop e); simpl; [apply forallb_app | exact IH].
Qed.

Lemma quiet_without_stop tr :
  existsb is_stop tr = false -> quiet_after_stop tr = true.
Proof.
  induction tr as [| e tr IH]; [reflexivity |]. simpl.
  destruct (is_stop e); simpl; [discriminate | exact IH].
Qed.

(** After the first stop in a quiet log no page is dispatched or requested. *)
Lemma quiet_after_stop_split tr tr1 imgs n tr2 :
  quiet_after_stop tr = true -> tr = tr1 ++ StopObserved imgs n :: tr2 ->
  forall u, FetchStarted u ∉ tr2 /\ Visited u ∉ tr2.
Proof.
  intros Hq -> u. revert Hq. induction tr1 as [| e tr1 IH]; simpl.
  - intros Hall. rewrite forallb_forall in Hall.
    split; intros Hin; apply list_elem_of_In in Hin; apply Hall in Hin;
      discriminate.
  - destruct (is_stop e); [| exact IH].
    rewrite forallb_app. intros Hall. apply andb_true_iff in Hall as [_ Hall].
    simpl in Hall. rewrite forallb_forall in Hall.
    split; intros Hin; apply list_elem_of_In in Hin; apply Hall in Hin;
      discriminate.
Qed.

Lemma no_stop_in_visited new : existsb is_stop (Visited <$> new) = false.
Proof. induction new as [| u new IH]; [reflexivity | exact IH]. Qed.

Lemma no_stop_in_parsed ps : existsb is_stop (Parsed <$> ps) = false.
Proof. induction ps as [| u ps IH]; [reflexivity | exact IH]. Qed.

Lemma no_stop_in_enqueued ls : existsb is_stop (Enqueued <$> ls) = false.
Proof. induction ls as [| u ls IH]; [reflexivity | exact IH]. Qed.

Lemma no_dispatch_in_parsed ps :
  forallb (fun e => negb (is_dispatch e)) (Parsed <$> ps) = true.
Proof. induction ps as [| u ps IH]; [reflexivity | exact IH]. Qed.

Lemma no_dispatch_in_enqueued ls :
  forallb (fun e => negb (is_dispatch e)) (Enqueued <$> ls) = true.
Proof. induction ls as [| u ls IH]; [reflexivity | exact IH]. Qed.

(** ** The crawl scheduler *)

Section SchedulerProperties.

Variable W : World.
Variable same_host : string -> string -> bool.
Variable guarded_pop : bool.
Variable fetch_text : World -> nat -> string -> option Html.
Variable extract : string -> option Html -> result (gset string * gset string).
Variable activity_label : string.
Variable base_host : string.
Variable max_pages : Z.
Variable concurrency : Z.

Local Abbreviation draw := (draw same_host guarded_pop base_host).
Local Abbreviation start_one := (start_visit W activity_label).
Local Abbreviation start_all := (start_all W activity_label).
Local Abbreviation finish_visit := (finish_visit W fetch_text extract).
Local Abbreviation finish_all := (finish_all W fetch_text extract).
Local Abbreviation merge_links := (merge_links same_host base_host max_pages).
Local Abbreviation merge := (merge same_host base_host max_pages).
Local Abbreviation iteration := (iteration W same_host base_host max_pages).
Local Abbreviation invariant := (invariant same_host base_host max_pages).
Local Abbreviation stop_invariant := (stop_invariant W).
Local Abbreviation stopped := (stopped W).
Local Abbreviation finish := (finish W).
Local Abbreviation loop :=
  (crawl_loop W same_host guarded_pop fetch_text extract activity_label
     base_host max_pages concurrency).

(** *** What each part of a turn does to the state *)

Lemma draw_effect k c batch c' batch' :
  draw k c batch = Ok (c', batch') ->
  exists new,
    batch' = batch ++ new
    /\ trace c' = trace c ++ (Visited <$> new)
    /\ seen c' = seen c ∪ list_to_set new
    /\ NoDup new
    /\ (forall u, u ∈ new -> (u ∉ seen c) /\ same_host u base_host = true)
    /\ length new <= k
    /\ size (seen c') = size (seen c) + length new
    /\ found_images c' = found_images c
    /\ clock c' = clock c
    /\ length (to_visit c') <= length (to_visit c).
Proof.
  revert c batch c' batch'.
  induction k as [| k IH]; intros c batch c' batch' Hrun; simpl in Hrun.
  - injection Hrun as <- <-. exists []. rewrite !app_nil_r.
    split_and!; [reflexivity | reflexivity | set_solver | apply NoDup_nil_2
                | intros ? Hu; inversion Hu | simpl; lia | simpl; lia
                | reflexivity | reflexivity | lia].
  - destruct (to_visit c) as [| u rest] eqn:Hq.
    + destruct guarded_pop; [| discriminate]. injection Hrun as <- <-.
      exists []. rewrite !app_nil_r.
      split_and!; [reflexivity | reflexivity | set_solver | apply NoDup_nil_2
                  | intros ? Hu; inversion Hu | simpl; lia | simpl; lia
                  | reflexivity | reflexivity | rewrite Hq; simpl; lia].
    + assert (Hpop : length (to_visit (pop_front c)) <= length (to_visit c)).
      { simpl. rewrite Hq. simpl. lia. }
      destruct (bool_decide (u ∉ seen c) && same_host u base_host) eqn:Hc.
      * apply IH in Hrun
          as (new & -> & Htr & Hseen & Hnd & Hnew & Hlen & Hsz & Hf & Hclk & Hq').
        apply andb_true_iff in Hc as [Hu Hh]. apply bool_decide_eq_true in Hu.
        simpl in Htr, Hseen, Hnew, Hsz, Hf, Hclk, Hu.
        exists (u :: new). rewrite <- app_assoc.
        split_and!.
        -- reflexivity.
        -- rewrite Htr, <- app_assoc. reflexivity.
        -- rewrite Hseen. set_solver.
        -- constructor; [| exact Hnd]. intros Hin. apply Hnew in Hin as [Hin _].
           set_solver.
        -- intros v Hv.
           apply elem_of_cons in Hv as [-> | Hv]; [split; assumption |].
           apply Hnew in Hv as [Hv1 Hv2]. split; [set_solver | exact Hv2].
        -- simpl. lia.
        -- rewrite Hsz. rewrite size_union by set_solver.
           rewrite size_singleton. simpl. lia.
        -- exact Hf.
        -- exact Hclk.
        -- rewrite <- Hq. exact (Nat.le_trans _ _ _ Hq' Hpop).
      * apply IH in Hrun
          as (new & -> & Htr & Hseen & Hnd & Hnew & Hlen & Hsz & Hf & Hclk & Hq').
        exists new.
        split_and!; [reflexivity | exact Htr | exact Hseen | exact Hnd
                    | exact Hnew | lia | exact Hsz | exact Hf | exact Hclk |].
        first [exact (Nat.le_trans _ _ _ Hq' Hpop)
              | rewrite <- Hq; exact (Nat.le_trans _ _ _ Hq' Hpop)].
Qed.

Lemma draw_ok k c batch :
  k <= length (to_visit c) -> exists r, draw k c batch = Ok r.
Proof.
  revert c batch. induction k as [| k IH]; intros c batch Hk; simpl.
  - eauto.
  - destruct (to_visit c) as [| u rest] eqn:Hq; [simpl in Hk; lia |].
    assert (Hpop : k <= length (to_visit (pop_front c))).
    { simpl. rewrite Hq. simpl in *. lia. }
    destruct (_ && _); apply IH; simpl; exact Hpop.
Qed.

Lemma start_all_effect batch c c' tasks :
  start_all batch c = (c', tasks) ->
  fst <$> tasks = batch
  /\ seen c' = seen c
  /\ found_images c' = found_images c
  /\ to_visit c' = to_visit c
  /\ clock c' = clock c + length batch
  /\ trace c' = trace c
                ++ (start_event (found_images c) (size (seen c)) <$> tasks)
  /\ (forall i u r, tasks !! i = Some (u, r) ->
        r = if stop_flag W (clock c + i) then None else Some (clock c + i)).
Proof.
  revert c c' tasks. induction batch as [| u batch IH]; intros c c' tasks Hrun;
    simpl in Hrun.
  - injection Hrun as <- <-. rewrite app_nil_r.
    split_and!; try reflexivity; [simpl; lia |]. intros i v r Hi. inversion Hi.
  - destruct (start_one u c) as [c1 r1] eqn:H1.
    destruct (start_all batch c1) as [c2 rs] eqn:H2.
    injection Hrun as <- <-.
    apply IH in H2 as (Hb & Hs & Hf & Hq & Hclk & Htr & Hrs).
    assert (Hc1 : seen c1 = seen c /\ found_images c1 = found_images c
                  /\ to_visit c1 = to_visit c /\ clock c1 = S (clock c)
                  /\ trace c1 = trace c
                       ++ [start_event (found_images c) (size (seen c)) (u, r1)]
                  /\ r1 = if stop_flag W (clock c) then None
                          else Some (clock c)).
    { unfold start_visit in H1.
      destruct (stop_flag W (clock c)); injection H1 as <- <-;
        split_and!; reflexivity. }
    destruct Hc1 as (Hs1 & Hf1 & Hq1 & Hclk1 & Htr1 & Hr1).
    split_and!.
    + rewrite fmap_cons, Hb. reflexivity.
    + congruence.
    + congruence.
    + congruence.
    + rewrite Hclk, Hclk1. simpl. lia.
    + rewrite Htr, Htr1, Hs1, Hf1, fmap_cons, <- app_assoc. reflexivity.
    + intros [| i] v r Hi; simpl in Hi.
      * injection Hi as <- <-. rewrite Nat.add_0_r. exact Hr1.
      * apply Hrs in Hi. rewrite Hclk1 in Hi.
        replace (clock c + S i) with (S (clock c) + i) by lia. exact Hi.
Qed.

Lemma finish_visit_effect task c res c' :
  finish_visit task c = (res, c') ->
  seen c' = seen c /\ found_images c' = found_images c
  /\ to_visit c' = to_visit c /\ clock c' = clock c
  /\ exists ps, trace c' = trace c ++ (Parsed <$> ps)
               /\ ps `sublist_of` requested [task].
Proof.
  destruct task as [u [t |]]; simpl; intros Hrun.
  - injection Hrun as _ <-.
    destruct (fetch_text W t u); simpl; split_and!; try reflexivity.
    + exists [u]. split; reflexivity.
    + exists []. rewrite app_nil_r. split; [reflexivity |].
      apply sublist_nil_l.
  - injection Hrun as _ <-. split_and!; try reflexivity.
    exists []. rewrite app_nil_r. split; reflexivity.
Qed.

Lemma finish_all_effect tasks c res c' :
  finish_all tasks c = (res, c') ->
  seen c' = seen c /\ found_images c' = found_images c
  /\ to_visit c' = to_visit c /\ clock c' = clock c
  /\ exists ps, trace c' = trace c ++ (Parsed <$> ps)
               /\ ps `sublist_of` requested tasks.
Proof.
  revert c res c'. induction tasks as [| task tasks IH]; intros c res c' Hrun;
    simpl in Hrun.
  - injection Hrun as _ <-. split_and!; try reflexivity.
    exists []. rewrite app_nil_r. split; reflexivity.
  - destruct (finish_visit task c) as [r1 c1] eqn:H1.
    apply finish_visit_effect in H1 as (Hs1 & Hf1 & Hq1 & Hk1 & ps1 & Ht1 & Hp1).
    assert (Hreq : requested (task :: tasks)
                   = requested [task] ++ requested tasks).
    { unfold requested. simpl. destruct (task.2); reflexivity. }
    assert (Hstop : seen c1 = seen c /\ found_images c1 = found_images c
                    /\ to_visit c1 = to_visit c /\ clock c1 = clock c
                    /\ exists ps, trace c1 = trace c ++ (Parsed <$> ps)
                                 /\ ps `sublist_of` requested (task :: tasks)).
    { split_and!; try assumption. exists ps1. split; [exact Ht1 |].
      rewrite Hreq. apply sublist_inserts_r. exact Hp1. }
    destruct r1 as [r |]; [| injection Hrun as _ <-; exact Hstop].
    destruct (finish_all tasks c1) as [rs c2] eqn:H2.
    apply IH in H2 as (Hs2 & Hf2 & Hq2 & Hk2 & ps2 & Ht2 & Hp2).
    assert (Hc' : c' = c2) by (destruct rs; injection Hrun as _ <-; reflexivity).
    subst c'. split_and!; try congruence.
    exists (ps1 ++ ps2). split.
    + rewrite Ht2, Ht1, fmap_app, <- app_assoc. reflexivity.
    + rewrite Hreq. apply sublist_app; assumption.
Qed.

Lemma finish_all_ok tasks c :
  (forall u t, (u, Some t) ∈ tasks ->
               exists r, extract u (fetch_text W t u) = Ok r) ->
  exists results, (finish_all tasks c).1 = Ok results.
Proof.
  revert c. induction tasks as [| task tasks IH]; intros c Hok; simpl.
  - eauto.
  - assert (H1 : exists r c1, finish_visit task c = (Ok r, c1)).
    { destruct task as [u [t |]]; simpl; [| eauto].
      destruct (Hok u t ltac:(left)) as [r ->]. simpl. eauto. }
    destruct H1 as (r & c1 & ->).
    destruct (IH c1) as [rs Hrs].
    { intros u t Hin. apply Hok. right. exact Hin. }
    destruct (finish_all tasks c1) as [res c2]. simpl in Hrs. subst res.
    simpl. eauto.
Qed.

Lemma merge_links_effect links c :
  seen (merge_links links c) = seen c
  /\ found_images (merge_links links c) = found_images c
  /\ clock (merge_links links c) = clock c
  /\ exists ls, trace (merge_links links c) = trace c ++ (Enqueued <$> ls)
               /\ forall l, l ∈ ls -> same_host l base_host = true.
Proof.
  revert c. induction links as [| l links IH]; intros c; simpl.
  - split_and!; try reflexivity. exists []. rewrite app_nil_r.
    split; [reflexivity |]. intros l Hl. inversion Hl.
  - destruct (bool_decide (l ∉ seen c) && same_host l base_host
              && (Z.of_nat (size (seen c)) <? max_pages)%Z) eqn:Hc.
    + destruct (IH (enqueue l c)) as (Hs & Hf & Hk & ls & Ht & Hh).
      split_and!; try assumption. exists (l :: ls). split.
      * rewrite Ht. simpl. rewrite <- app_assoc. reflexivity.
      * intros l' Hl'. apply elem_of_cons in Hl' as [-> | Hl']; [| auto].
        apply andb_true_iff in Hc as [Hc _].
        apply andb_true_iff in Hc as [_ Hc]. exact Hc.
    + apply IH.
Qed.

Lemma merge_effect results c :
  seen (merge results c) = seen c
  /\ found_images c ⊆ found_images (merge results c)
  /\ clock (merge results c) = clock c
  /\ exists ls, trace (merge results c) = trace c ++ (Enqueued <$> ls)
               /\ forall l, l ∈ ls -> same_host l base_host = true.
Proof.
  revert c. induction results as [| [imgs links] results IH]; intros c; simpl.
  - split_and!; try reflexivity. exists []. rewrite app_nil_r.
    split; [reflexivity |]. intros l Hl. inversion Hl.
  - destruct (merge_links_effect links (add_images imgs c))
      as (Hs1 & Hf1 & Hk1 & ls1 & Ht1 & Hh1).
    destruct (IH (merge_links links (add_images imgs c)))
      as (Hs2 & Hf2 & Hk2 & ls2 & Ht2 & Hh2).
    split_and!.
    + rewrite Hs2, Hs1. reflexivity.
    + rewrite Hf1 in Hf2. simpl in Hf2. set_solver.
    + rewrite Hk2, Hk1. reflexivity.
    + exists (ls1 ++ ls2). split.
      * rewrite Ht2, Ht1, fmap_app, <- app_assoc. reflexivity.
      * intros l Hl. apply elem_of_app in Hl as [Hl | Hl]; auto.
Qed.

(** *** One turn of the loop *)

Lemma iteration_without_batch c c1 :
  (Z.of_nat (size (seen c)) <= max_pages)%Z ->
  trace c1 = trace c -> seen c1 = seen c -> found_images c1 = found_images c ->
  clock c1 = S (clock c) ->
  iteration c c1.
Proof.
  intros Hb Ht Hs Hf Hk. exists [], [], [], []. simpl.
  rewrite !app_nil_r.
  split_and!; try assumption; try reflexivity.
  - set_solver.
  - apply NoDup_nil_2.
  - intros u Hu. inversion Hu.
  - rewrite Nat.add_0_r. exact Hb.
  - rewrite Hf. reflexivity.
  - intros i u r Hi. inversion Hi.
  - intros l Hl. inversion Hl.
  - lia.
Qed.

Lemma crawl_loop_step fuel c out c' :
  loop (S fuel) c = (out, c') ->
  (out, c') = finish c
  \/ (stop_flag W (clock c) = true
      /\ (out, c') = finish (log_event
                               (StopObserved (found_images c) (size (seen c)))
                               (tick c)))
  \/ (stop_flag W (clock c) = false
      /\ (Z.of_nat (size (seen c)) < max_pages)%Z
      /\ exists c1,
           iteration c c1
           /\ ((exists e, out = Raised e /\ c' = c1)
               \/ (out, c') = finish c1
               \/ (size (seen c) < size (seen c1)
                   /\ loop fuel c1 = (out, c')))).
Proof.
  intros Hrun. simpl in Hrun.
  destruct (to_visit c) as [| u0 rest] eqn:Hq; [left; congruence |].
  destruct (Z.of_nat (size (seen c)) <? max_pages)%Z eqn:Hlt; simpl in Hrun;
    [| left; congruence].
  apply Z.ltb_lt in Hlt.
  destruct (stop_flag W (clock c)) eqn:Hstop; [right; left; split; congruence |].
  right; right. split; [reflexivity |]. split; [exact Hlt |].
  set (k := Z.to_nat (batch_size max_pages concurrency (tick c))) in *.
  assert (Hk : (Z.of_nat k <= max_pages - Z.of_nat (size (seen c)))%Z).
  { unfold k, batch_size. simpl. lia. }
  destruct (draw k (tick c) []) as [[c1 batch] | e] eqn:Hdraw.
  2:{ injection Hrun as <- <-. exists (tick c). split; [| left; eauto].
      apply iteration_without_batch; try reflexivity. lia. }
  apply draw_effect in Hdraw
    as (new & Hbatch & Htr1 & Hs1 & Hnd & Hnew & Hlen & Hsz1 & Hf1 & Hk1 & _).
  simpl in Hbatch, Htr1, Hs1, Hnew, Hsz1, Hf1, Hk1. subst batch.
  destruct new as [| u new].
  { injection Hrun as <- <-. exists c1. split; [| right; left; reflexivity].
    apply iteration_without_batch; try assumption; [lia | |].
    - rewrite Htr1. simpl. apply app_nil_r.
    - rewrite Hs1. set_solver. }
  cbv beta iota in Hrun.
  assert (Hpos : 0 < length (u :: new)) by (simpl; lia).
  remember (u :: new) as batch eqn:Hbatch. clear Hbatch.
  destruct (start_all batch c1) as [c2 tasks] eqn:Hstart.
  apply start_all_effect in Hstart
    as (Hfst & Hs2 & Hf2 & Hq2 & Hk2 & Htr2 & Htasks).
  destruct (finish_all tasks c2) as [res c3] eqn:Hfin.
  apply finish_all_effect in Hfin as (Hs3 & Hf3 & Hq3 & Hk3 & ps & Htr3 & Hps).
  assert (Hbound : (Z.of_nat (size (seen c) + length batch) <= max_pages)%Z)
    by lia.
  assert (Htasks' : forall i v r, tasks !! i = Some (v, r) ->
            r = if stop_flag W (clock c + 1 + i) then None
                else Some (clock c + 1 + i)).
  { intros i v r Hi. apply Htasks in Hi. rewrite Hk1 in Hi.
    replace (clock c + 1 + i) with (S (clock c) + i) by lia. exact Hi. }
  assert (Htrace : trace c3 = trace c ++ (Visited <$> batch)
            ++ (start_event (found_images c) (size (seen c) + length batch)
                  <$> tasks)
            ++ (Parsed <$> ps)).
  { rewrite Htr3, Htr2, Htr1, Hf1, Hsz1, <- !app_assoc. reflexivity. }
  destruct res as [results | e].
  - destruct (merge_effect results c3) as (Hs4 & Hf4 & Hk4 & ls & Htr4 & Hls).
    exists (report (merge results c3)). split.
    + exists batch, tasks, ps, ls.
      split_and!; try assumption.
      * change (trace (report (merge results c3)))
          with (trace (merge results c3)).
        rewrite Htr4, Htrace, <- !app_assoc. reflexivity.
      * change (seen (report (merge results c3)))
          with (seen (merge results c3)).
        rewrite Hs4, Hs3, Hs2. exact Hs1.
      * change (found_images (report (merge results c3)))
          with (found_images (merge results c3)).
        rewrite <- Hf4, Hf3, Hf2, Hf1. reflexivity.
      * change (clock (report (merge results c3)))
          with (clock (merge results c3)).
        rewrite Hk4, Hk3, Hk2, Hk1. lia.
    + right; right. split; [| exact Hrun].
      change (seen (report (merge results c3))) with (seen (merge results c3)).
      rewrite Hs4, Hs3, Hs2, Hsz1. lia.
  - injection Hrun as <- <-. exists c3. split; [| left; eauto].
    exists batch, tasks, ps, []. rewrite fmap_nil, app_nil_r.
    split_and!; try assumption.
    + rewrite Hs3, Hs2. exact Hs1.
    + rewrite Hf3, Hf2, Hf1. reflexivity.
    + intros l Hl. inversion Hl.
    + rewrite Hk3, Hk2, Hk1. lia.
Qed.

(** *** The invariant of the loop *)

Lemma elem_of_iteration_trace c c1 e :
  iteration c c1 -> e ∈ trace c1 ->
  e ∈ trace c
  \/ (exists u, e = Visited u /\ (u ∉ seen c) /\ same_host u base_host = true)
  \/ (exists u, e = FetchStarted u /\ (u ∉ seen c)
                /\ same_host u base_host = true)
  \/ (exists n, e = StopObserved (found_images c) n /\ n = size (seen c1)
                /\ stopped c1)
  \/ (exists u, e = Parsed u /\ (u ∉ seen c))
  \/ (exists u, e = Enqueued u /\ same_host u base_host = true).
Proof.
  intros (new & tasks & ps & ls & Htr & Hs1 & Hnd & Hnew & Hbound & Hfound
          & Hfst & Htasks & Hps & Hls & Hclk) He.
  assert (Hreq : forall u, u ∈ requested tasks -> u ∈ new).
  { intros u Hu. rewrite <- Hfst. eapply elem_of_sublist; [exact Hu |].
    apply requested_sublist. }
  assert (Hsize : size (seen c1) = size (seen c) + length new).
  { rewrite Hs1, size_union.
    - rewrite size_list_to_set by exact Hnd. reflexivity.
    - intros u Hu1 Hu2. apply elem_of_list_to_set in Hu2.
      apply Hnew in Hu2 as [Hu2 _]. contradiction. }
  rewrite Htr, !elem_of_app in He.
  destruct He as [He | [He | [He | [He | He]]]].
  - left. exact He.
  - right; left. apply list_elem_of_fmap in He as (u & -> & Hu).
    exists u. split; [reflexivity |]. apply Hnew. exact Hu.
  - apply elem_of_started in He as [(u & -> & Hu) | (-> & i & u & Hi)].
    + right; right; left. exists u. split; [reflexivity |].
      apply Hnew. apply Hreq. exact Hu.
    + right; right; right; left. exists (size (seen c) + length new).
      split; [reflexivity |]. split; [symmetry; exact Hsize |].
      exists (clock c + 1 + i). split.
      * apply lookup_lt_Some in Hi. rewrite <- Hfst, length_fmap in Hclk. lia.
      * apply Htasks in Hi. destruct (stop_flag W (clock c + 1 + i));
          [reflexivity | discriminate].
  - right; right; right; right; left.
    apply list_elem_of_fmap in He as (u & -> & Hu). exists u.
    split; [reflexivity |]. apply Hnew. apply Hreq.
    eapply elem_of_sublist; eassumption.
  - right; right; right; right; right.
    apply list_elem_of_fmap in He as (u & -> & Hu). exists u.
    split; [reflexivity |]. apply Hls. exact Hu.
Qed.

Lemma invariant_size c :
  invariant c -> size (seen c) = length (visited_urls (trace c)).
Proof.
  intros (Hnd & Hseen & _). rewrite Hseen at 1.
  apply size_list_to_set. exact Hnd.
Qed.

Lemma iteration_invariant c c1 :
  invariant c -> iteration c c1 -> invariant c1.
Proof.
  intros Hinv Hit. pose proof (elem_of_iteration_trace c c1) as Hel.
  specialize (fun e => Hel e Hit).
  destruct Hinv as (Hnd & Hseen & Hb & Hhost & Hsnap & Hfnd & Hfsub & Hpnd
                    & Hpsub).
  destruct Hit as (new & tasks & ps & ls & Htr & Hs1 & Hnew_nd & Hnew & Hbound
                   & Hfound & Hfst & Htasks & Hps & Hls & Hclk).
  destruct (projections_visited new) as (V1 & V2 & V3).
  destruct (projections_started (found_images c) (size (seen c) + length new)
              tasks) as (T1 & T2 & T3).
  destruct (projections_parsed ps) as (P1 & P2 & P3).
  destruct (projections_enqueued ls) as (E1 & E2 & E3).
  assert (Hv : visited_urls (trace c1) = visited_urls (trace c) ++ new).
  { rewrite Htr, !visited_urls_app, V1, T1, P1, E1. simpl.
    rewrite ?app_nil_r. reflexivity. }
  assert (Hf : fetched_urls (trace c1)
               = fetched_urls (trace c) ++ requested tasks).
  { rewrite Htr, !fetched_urls_app, V2, T2, P2, E2. simpl.
    rewrite ?app_nil_r. reflexivity. }
  assert (Hp : parsed_urls (trace c1) = parsed_urls (trace c) ++ ps).
  { rewrite Htr, !parsed_urls_app, V3, T3, P3, E3. simpl.
    rewrite ?app_nil_r. reflexivity. }
  assert (Hreq : requested tasks `sublist_of` new).
  { rewrite <- Hfst. apply requested_sublist. }
  assert (Hold : forall u, u ∈ visited_urls (trace c) -> u ∉ new).
  { intros u Hu Hin. apply Hnew in Hin as [Hin _]. apply Hin.
    rewrite Hseen. apply elem_of_list_to_set. exact Hu. }
  assert (Hsz : size (seen c1) = size (seen c) + length new).
  { rewrite Hs1, size_union.
    - rewrite size_list_to_set by exact Hnew_nd. reflexivity.
    - intros u Hu1 Hu2. apply elem_of_list_to_set in Hu2.
      apply Hnew in Hu2 as [Hu2 _]. contradiction. }
  split_and!.
  - rewrite Hv. apply NoDup_app. split_and!; assumption.
  - rewrite Hs1, Hv, Hseen, list_to_set_app_L. reflexivity.
  - rewrite Hsz. exact Hbound.
  - intros u Hu.
    assert (Hcase : exists e, e ∈ trace c1
              /\ (e = Visited u \/ e = FetchStarted u \/ e = Enqueued u)).
    { destruct Hu as [Hu | [Hu | Hu]]; eauto. }
    destruct Hcase as (e & He & Hkind).
    destruct (Hel e He)
      as [Ho | [(v & -> & _ & Hh) | [(v & -> & _ & Hh)
         | [(n & -> & _) | [(v & -> & _) | (v & -> & Hh)]]]]].
    + apply Hhost. destruct Hkind as [-> | [-> | ->]]; auto.
    + destruct Hkind as [Hk | [Hk | Hk]]; congruence.
    + destruct Hkind as [Hk | [Hk | Hk]]; congruence.
    + destruct Hkind as [Hk | [Hk | Hk]]; discriminate.
    + destruct Hkind as [Hk | [Hk | Hk]]; discriminate.
    + destruct Hkind as [Hk | [Hk | Hk]]; congruence.
  - intros imgs n He.
    destruct (Hel _ He)
      as [Ho | [(v & Hk & _) | [(v & Hk & _)
         | [(m & Hk & -> & _) | [(v & Hk & _) | (v & Hk & _)]]]]];
      try discriminate.
    + destruct (Hsnap _ _ Ho) as [Hi Hn]. split; [set_solver | lia].
    + injection Hk as -> ->. split; [exact Hfound | lia].
  - rewrite Hf. apply NoDup_app. split_and!.
    + exact Hfnd.
    + intros u Hu Hin. apply (Hold u); [apply Hfsub; exact Hu |].
      eapply elem_of_sublist; eassumption.
    + eapply sublist_NoDup; eassumption.
  - rewrite Hf, Hv. intros u Hu. apply elem_of_app in Hu as [Hu | Hu];
      apply elem_of_app; [left; apply Hfsub; exact Hu | right].
    eapply elem_of_sublist; eassumption.
  - rewrite Hp. apply NoDup_app. split_and!.
    + exact Hpnd.
    + intros u Hu Hin. apply (Hold u); [apply Hfsub, Hpsub; exact Hu |].
      eapply elem_of_sublist; [| exact Hreq].
      eapply elem_of_sublist; eassumption.
    + eapply sublist_NoDup; [| exact Hps]. eapply sublist_NoDup; eassumption.
  - rewrite Hp, Hf. intros u Hu. apply elem_of_app in Hu as [Hu | Hu];
      apply elem_of_app; [left; apply Hpsub; exact Hu | right].
    eapply elem_of_sublist; eassumption.
Qed.

Lemma stop_observed_invariant c :
  invariant c ->
  invariant (log_event (StopObserved (found_images c) (size (seen c))) (tick c)).
Proof.
  intros (Hnd & Hseen & Hb & Hhost & Hsnap & Hfnd & Hfsub & Hpnd & Hpsub).
  unfold invariant. simpl.
  assert (Hv : visited_urls (trace c ++ [StopObserved (found_images c)
                                            (size (seen c))])
               = visited_urls (trace c)).
  { rewrite visited_urls_app. apply app_nil_r. }
  assert (Hf : fetched_urls (trace c ++ [StopObserved (found_images c)
                                            (size (seen c))])
               = fetched_urls (trace c)).
  { rewrite fetched_urls_app. apply app_nil_r. }
  assert (Hp : parsed_urls (trace c ++ [StopObserved (found_images c)
                                           (size (seen c))])
               = parsed_urls (trace c)).
  { rewrite parsed_urls_app. apply app_nil_r. }
  rewrite Hv, Hf, Hp. split_and!; try assumption.
  - intros u Hu. apply Hhost.
    destruct Hu as [Hu | [Hu | Hu]]; apply elem_of_app in Hu as [Hu | Hu];
      auto; apply list_elem_of_singleton in Hu; discriminate.
  - intros imgs n He. apply elem_of_app in He as [He | He]; [auto |].
    apply list_elem_of_singleton in He. injection He as -> ->.
    split; [reflexivity | lia].
Qed.

Lemma crawl_loop_invariant fuel c out c' :
  invariant c -> loop fuel c = (out, c') ->
  invariant c'
  /\ trace c `prefix_of` trace c'
  /\ (forall l n, out = Returned l n ->
        l = list_of_set W (found_images c') /\ n = size (seen c')).
Proof.
  revert c. induction fuel as [| fuel IH]; intros c Hinv Hrun.
  - simpl in Hrun. injection Hrun as <- <-.
    split_and!; [exact Hinv | reflexivity | discriminate].
  - apply crawl_loop_step in Hrun
      as [Hfin | [(_ & Hfin) | (_ & _ & c1 & Hit & Hrest)]].
    + injection Hfin as -> ->.
      split_and!; [exact Hinv | reflexivity |].
      intros l n Heq. injection Heq as <- <-. split; reflexivity.
    + injection Hfin as -> ->.
      split_and!; [apply stop_observed_invariant; exact Hinv | |].
      * simpl. apply prefix_app_r. reflexivity.
      * intros l n Heq. injection Heq as <- <-. split; reflexivity.
    + assert (Hinv1 : invariant c1) by (eapply iteration_invariant; eassumption).
      assert (Hpre : trace c `prefix_of` trace c1).
      { destruct Hit as (new & tasks & ps & ls & -> & _).
        apply prefix_app_r. reflexivity. }
      destruct Hrest as [(e & -> & ->) | [Hfin | (_ & Hrec)]].
      * split_and!; [exact Hinv1 | exact Hpre | discriminate].
      * injection Hfin as -> ->. split_and!; [exact Hinv1 | exact Hpre |].
        intros l n Heq. injection Heq as <- <-. split; reflexivity.
      * destruct (IH c1 Hinv1 Hrec) as (Hi & Hp & Hr).
        split_and!; [exact Hi | etransitivity; eassumption | exact Hr].
Qed.

(** *** Termination *)

Lemma crawl_loop_terminates fuel c :
  Z.to_nat (max_pages - Z.of_nat (size (seen c))) < fuel ->
  (loop fuel c).1 <> OutOfFuel.
Proof.
  revert c. induction fuel as [| fuel IH]; intros c Hfuel; [lia |].
  destruct (loop (S fuel) c) as [out c'] eqn:Hrun.
  apply crawl_loop_step in Hrun
    as [Hfin | [(_ & Hfin) | (_ & Hlt & c1 & _ & Hrest)]].
  - injection Hfin as -> _. discriminate.
  - injection Hfin as -> _. discriminate.
  - destruct Hrest as [(e & -> & _) | [Hfin | (Hgrow & Hrec)]].
    + discriminate.
    + injection Hfin as -> _. discriminate.
    + specialize (IH c1 ltac:(lia)). rewrite Hrec in IH. exact IH.
Qed.

(** *** Exceptions come from the extractors only *)

Lemma crawl_loop_no_raise fuel c :
  (forall u t, exists r, extract u (fetch_text W t u) = Ok r) ->
  forall e, (loop fuel c).1 <> Raised e.
Proof.
  intros Hok e. revert c. induction fuel as [| fuel IH]; intros c; simpl;
    [discriminate |].
  destruct (to_visit c) as [| u0 rest] eqn:Hq; [discriminate |].
  destruct (negb _); [discriminate |].
  destruct (stop_flag W (clock c)); [discriminate |].
  set (k := Z.to_nat _).
  destruct (draw_ok k (tick c) []) as [[c1 batch] Hdraw].
  { unfold k, batch_size. simpl. rewrite Hq. simpl length. lia. }
  rewrite Hdraw. destruct batch as [| u batch]; [discriminate |].
  destruct (start_all (u :: batch) c1) as [c2 tasks].
  destruct (finish_all_ok tasks c2) as [results Hres].
  { intros v t _. apply Hok. }
  destruct (finish_all tasks c2) as [res c3]. simpl in Hres. subst res.
  apply IH.
Qed.

(** *** Cancellation *)

Section Monotone.

(** Once set, the stop flag stays set for the rest of the crawl. *)
Hypothesis Hstays : stop_flag_stays W.

Lemma not_stopped c : stop_flag W (clock c) = false -> ~ stopped c.
Proof.
  intros Hflag (t & Ht & Hset).
  rewrite (Hstays t (clock c)) in Hflag by (lia || exact Hset).
  discriminate.
Qed.

Lemma tasks_quiet imgs n base tasks :
  (forall i u r, tasks !! i = Some (u, r) ->
     r = if stop_flag W (base + i) then None else Some (base + i)) ->
  quiet_after_stop (start_event imgs n <$> tasks) = true.
Proof.
  revert base. induction tasks as [| [u r] tasks IH]; intros base Htasks;
    [reflexivity |].
  assert (Htail : forall i v r', tasks !! i = Some (v, r') ->
            r' = if stop_flag W (S base + i) then None else Some (S base + i)).
  { intros i v r' Hi. specialize (Htasks (S i) v r' Hi).
    replace (S base + i) with (base + S i) by lia. exact Htasks. }
  rewrite fmap_cons. pose proof (Htasks 0 u r eq_refl) as Hr.
  rewrite Nat.add_0_r in Hr.
  destruct (stop_flag W base) eqn:Hflag; subst r; simpl.
  - apply forallb_forall. intros e He. apply list_elem_of_In in He.
    apply list_elem_of_fmap in He as ([v r'] & -> & Hv).
    apply list_elem_of_lookup in Hv as [i Hi]. apply Htail in Hi.
    rewrite (Hstays base (S base + i)) in Hi by (lia || exact Hflag).
    subst r'. reflexivity.
  - apply (IH (S base)). exact Htail.
Qed.

Lemma iteration_stop_invariant c c1 :
  stop_invariant c -> stop_flag W (clock c) = false -> iteration c c1 ->
  stop_invariant c1.
Proof.
  intros [Hquiet Hstopped] Hflag Hit.
  assert (Hnone : existsb is_stop (trace c) = false).
  { destruct (existsb is_stop (trace c)); [| reflexivity].
    exfalso. apply (not_stopped c Hflag). apply Hstopped. reflexivity. }
  pose proof (elem_of_iteration_trace c c1) as Hel.
  specialize (fun e => Hel e Hit).
  destruct Hit as (new & tasks & ps & ls & Htr & _ & _ & _ & _ & _ & _ & Htasks
                   & _ & _ & _).
  split.
  - rewrite Htr, quiet_after_stop_app, Hnone.
    rewrite quiet_after_stop_app, no_stop_in_visited.
    rewrite quiet_after_stop_app.
    rewrite (tasks_quiet _ _ (clock c + 1) tasks Htasks).
    rewrite forallb_app, no_dispatch_in_parsed, no_dispatch_in_enqueued.
    rewrite quiet_without_stop.
    + destruct (existsb is_stop
                  (start_event (found_images c) (size (seen c) + length new)
                     <$> tasks)); reflexivity.
    + rewrite existsb_app, no_stop_in_parsed, no_stop_in_enqueued. reflexivity.
  - intros Hex. apply existsb_exists in Hex as (e & He & Hs).
    apply list_elem_of_In in He.
    destruct (Hel e He)
      as [Ho | [(v & -> & _) | [(v & -> & _)
         | [(m & -> & _ & Hst) | [(v & -> & _) | (v & -> & _)]]]]];
      try discriminate.
    + exfalso. assert (Hex : existsb is_stop (trace c) = true).
      { apply existsb_exists. exists e. split; [| exact Hs].
        apply list_elem_of_In. exact Ho. }
      congruence.
    + exact Hst.
Qed.

Lemma stop_observed_stop_invariant c :
  stop_invariant c -> stop_flag W (clock c) = true ->
  stop_invariant
    (log_event (StopObserved (found_images c) (size (seen c))) (tick c)).
Proof.
  intros [Hquiet _] Hflag. split; simpl.
  - rewrite quiet_after_stop_app, Hquiet.
    destruct (existsb is_stop (trace c)); reflexivity.
  - intros _. exists (clock c). simpl. split; [lia | exact Hflag].
Qed.

Lemma crawl_loop_stop_invariant fuel c out c' :
  stop_invariant c -> loop fuel c = (out, c') -> stop_invariant c'.
Proof.
  revert c. induction fuel as [| fuel IH]; intros c Hinv Hrun.
  - simpl in Hrun. injection Hrun as _ <-. exact Hinv.
  - apply crawl_loop_step in Hrun
      as [Hfin | [(Hflag & Hfin) | (Hflag & _ & c1 & Hit & Hrest)]].
    + injection Hfin as _ ->. exact Hinv.
    + injection Hfin as _ ->. apply stop_observed_stop_invariant; assumption.
    + assert (Hinv1 : stop_invariant c1)
        by (eapply iteration_stop_invariant; eassumption).
      destruct Hrest as [(e & _ & ->) | [Hfin | (_ & Hrec)]].
      * exact Hinv1.
      * injection Hfin as _ ->. exact Hinv1.
      * exact (IH c1 Hinv1 Hrec).
Qed.

End Monotone.

Lemma initial_invariant base_url progress :
  (0 <= max_pages)%Z -> invariant (initial base_url progress).
Proof.
  intros Hmax. unfold invariant.
  change (trace (initial base_url progress)) with (@nil Event).
  change (seen (initial base_url progress)) with (∅ : gset string).
  change (visited_urls []) with (@nil string).
  change (fetched_urls []) with (@nil string).
  change (parsed_urls []) with (@nil string).
  split_and!; try apply NoDup_nil_2; try reflexivity.
  - rewrite size_empty. exact Hmax.
  - intros u [H | [H | H]]; inversion H.
  - intros imgs n H. inversion H.
Qed.

Lemma initial_stop_invariant base_url progress :
  stop_invariant (initial base_url progress).
Proof. split; [reflexivity | discriminate]. Qed.

(** Without a budget the loop returns at once. *)
Lemma crawl_loop_no_budget fuel base_url progress :
  (max_pages <= 0)%Z ->
  loop (S fuel) (initial base_url progress)
  = finish (initial base_url progress).
Proof.
  intros Hmax. cbn [crawl_loop initial to_visit seen].
  rewrite size_empty.
  change (Z.of_nat 0) with 0%Z.
  destruct (0 <? max_pages)%Z eqn:E; [apply Z.ltb_lt in E; lia | reflexivity].
Qed.

(** *** A whole run of the loop *)

Lemma returned_or_not (out : Outcome) :
  out <> OutOfFuel -> (forall e, out <> Raised e) ->
  exists l m, out = Returned l m.
Proof.
  destruct out as [l m | e |]; intros H1 H2; [eauto | | congruence].
  exfalso. exact (H2 e eq_refl).
Qed.

Lemma crawl_run base_url progress out c' :
  loop (S (Z.to_nat max_pages)) (initial base_url progress) = (out, c') ->
  out <> OutOfFuel
  /\ (forall l n, out = Returned l n ->
        l = list_of_set W (found_images c') /\ n = size (seen c'))
  /\ ((0 <= max_pages)%Z -> invariant c')
  /\ ((max_pages <= 0)%Z -> c' = initial base_url progress)
  /\ (stop_flag_stays W -> stop_invariant c')
  /\ ((forall u t, exists r, extract u (fetch_text W t u) = Ok r) ->
      forall e, out <> Raised e).
Proof.
  intros Hrun. split_and!.
  - pose proof (crawl_loop_terminates (S (Z.to_nat max_pages))
                  (initial base_url progress)) as Hterm.
    rewrite Hrun in Hterm. apply Hterm.
    change (seen (initial base_url progress)) with (∅ : gset string).
    rewrite size_empty. lia.
  - destruct (Z.le_gt_cases 0 max_pages) as [Hmax | Hmax].
    + apply (crawl_loop_invariant _ _ _ _ (initial_invariant _ _ Hmax) Hrun).
    + rewrite crawl_loop_no_budget in Hrun by lia.
      injection Hrun as <- <-. intros l n Heq. injection Heq as <- <-.
      split; reflexivity.
  - intros Hmax.
    apply (crawl_loop_invariant _ _ _ _ (initial_invariant _ _ Hmax) Hrun).
  - intros Hmax. rewrite crawl_loop_no_budget in Hrun by exact Hmax.
    injection Hrun as _ <-. reflexivity.
  - intros Hstays.
    exact (crawl_loop_stop_invariant Hstays _ _ _ _
             (initial_stop_invariant _ _) Hrun).
  - intros Hok e.
    pose proof (crawl_loop_no_raise (S (Z.to_nat max_pages))
                  (initial base_url progress) Hok e) as Hno.
    rewrite Hrun in Hno. exact Hno.
Qed.

Lemma invariant_pages_are_dispatches out c :
  invariant c ->
  (forall l n, out = Returned l n ->
     l = list_of_set W (found_images c) /\ n = size (seen c)) ->
  pages_are_dispatches (out, c).
Proof.
  intros Hinv Hret. unfold pages_are_dispatches.
  destruct out as [l n | e |]; simpl; [| exact I | exact I].
  destruct (Hret l n eq_refl) as [_ ->].
  pose proof (invariant_size c Hinv) as Hsize.
  destruct Hinv as (Hnd & Hseen & Hb & Hhost & Hsnap & Hfnd & Hfsub & Hpnd
                    & Hpsub).
  assert (Hsub : parsed_urls (trace c) ⊆ visited_urls (trace c)).
  { intros u Hu. apply Hfsub, Hpsub. exact Hu. }
  split_and!; [exact Hsize | exact Hsub |].
  rewrite Hsize. apply submseteq_length. apply NoDup_submseteq; assumption.
Qed.

Lemma invariant_cancellation_kept (extraction_ok : Prop) out c :
  invariant c -> stop_invariant c ->
  (forall l n, out = Returned l n ->
     l = list_of_set W (found_images c) /\ n = size (seen c)) ->
  (extraction_ok -> exists l m, out = Returned l m) ->
  cancellation_kept max_pages extraction_ok (out, c).
Proof.
  intros Hinv [Hquiet _] Hret Hok tr1 imgs n tr2 Htr. simpl in Htr.
  split_and!.
  - exact (quiet_after_stop_split _ _ _ _ _ Hquiet Htr).
  - intros l m Heq. simpl in Heq. destruct (Hret l m Heq) as [-> ->].
    destruct Hinv as (_ & _ & Hb & _ & Hsnap & _).
    destruct (Hsnap imgs n) as [Himgs Hn].
    { rewrite Htr. apply elem_of_app. right. left. }
    split_and!; [| exact Hn | exact Hb].
    intros u Hu. apply elem_of_list_to_set. unfold list_of_set.
    rewrite set_order_perm. apply elem_of_elements. apply Himgs. exact Hu.
  - exact Hok.
Qed.

End SchedulerProperties.

(** ** The two crawlers *)

Lemma crawl_site_run W base_url max_pages concurrency progress keywords :
  run_of W App.same_host false App.fetch_text (App.visit keywords) "Fetching "
    max_pages concurrency base_url (Some progress)
    (App.crawl_site W base_url max_pages concurrency progress keywords).
Proof.
  unfold run_of, App.crawl_site.
  destruct (urllib.urlparse base_url) as [rb | e]; [| left; eauto].
  destruct (concurrency <? 0)%Z; [left; eauto | right; eauto].
Qed.

Lemma scan_site_run W base_url max_pages concurrency progress :
  run_of W Backend.same_host true Backend.fetch_text Backend.visit "Scraping: "
    max_pages concurrency base_url progress
    (Backend.scan_site W base_url max_pages concurrency progress).
Proof.
  unfold run_of, Backend.scan_site.
  destruct (urllib.urlparse base_url) as [rb | e]; [| left; eauto].
  destruct (concurrency <? 0)%Z; [left; eauto | right; eauto].
Qed.

Lemma app_same_host_authority u h :
  App.same_host u h = true ->
  exists r, urllib.urlparse u = Ok r /\ urllib.netloc r = h.
Proof.
  unfold App.same_host. destruct (urllib.urlparse u) as [r |]; [| discriminate].
  intros H. apply String.eqb_eq in H. eauto.
Qed.

Lemma backend_same_host_authority u h :
  Backend.same_host u h = true ->
  exists r, urllib.urlparse u = Ok r /\ urllib.netloc r = h.
Proof.
  unfold Backend.same_host.
  destruct (urllib.urlparse u) as [r |]; [| discriminate].
  intros H. apply String.eqb_eq in H. eauto.
Qed.

Section Runs.

Variable W : World.
Variable same_host : string -> string -> bool.
Variable guarded_pop : bool.
Variable fetch_text : World -> nat -> string -> option Html.
Variable extract : string -> option Html -> result (gset string * gset string).
Variable activity_label : string.
Variable max_pages concurrency : Z.
Variable base_url : string.
Variable progress : option Progress.
Variable run : Outcome * Crawl.

Hypothesis same_host_authority :
  forall u h, same_host u h = true ->
              exists r, urllib.urlparse u = Ok r /\ urllib.netloc r = h.

Hypothesis Hrun :
  run_of W same_host guarded_pop fetch_text extract activity_label max_pages
    concurrency base_url progress run.

Lemma visited_urls_prefix tr1 tr2 :
  tr1 `prefix_of` tr2 -> visited_urls tr1 `prefix_of` visited_urls tr2.
Proof.
  intros [k ->]. rewrite visited_urls_app. apply prefix_app_r. reflexivity.
Qed.

Lemma run_within_budget :
  (0 <= max_pages)%Z -> within_budget_and_host base_url max_pages run.2.
Proof.
  intros Hmax.
  assert (Hgoal : forall rb c,
            urllib.urlparse base_url = Ok rb \/ trace c = [] ->
            invariant same_host (urllib.netloc rb) max_pages c ->
            within_budget_and_host base_url max_pages c).
  { intros rb c Hrb Hinv. pose proof (invariant_size _ _ _ _ Hinv) as Hsize.
    destruct Hinv as (Hnd & Hseen & Hb & Hhost & _).
    split_and!; try assumption.
    - intros tr Hpre. apply visited_urls_prefix in Hpre.
      split.
      + destruct Hpre as [k Hk]. rewrite Hk in Hnd.
        apply NoDup_app in Hnd as [Hnd _]. exact Hnd.
      + apply prefix_length in Hpre. lia.
    - intros u Hu.
      destruct Hrb as [Hrb | Hnil].
      + destruct (same_host_authority u (urllib.netloc rb)) as (r & Hr & Hn).
        { apply Hhost. tauto. }
        exists rb, r. split_and!; assumption.
      + rewrite Hnil in Hu. destruct Hu as [Hu | [Hu | Hu]]; inversion Hu. }
  destruct Hrun as [(e & ->) | (rb & Hrb & Hloop)].
  - apply (Hgoal {| urllib.scheme := EmptyString; urllib.netloc := EmptyString;
                    urllib.path := EmptyString; urllib.params := EmptyString;
                    urllib.query := EmptyString;
                    urllib.fragment := EmptyString |}).
    + right. reflexivity.
    + apply initial_invariant. exact Hmax.
  - destruct run as [out c]. symmetry in Hloop.
    apply crawl_run in Hloop as (_ & _ & Hinv & _).
    apply (Hgoal rb); [left; exact Hrb | exact (Hinv Hmax)].
Qed.

(** The fuel given to the loop is enough: a run returns or raises. *)
Lemma run_terminates : run.1 <> OutOfFuel.
Proof.
  destruct Hrun as [(e & ->) | (rb & Hrb & Hloop)]; [discriminate |].
  destruct run as [out c]. symmetry in Hloop.
  apply crawl_run in Hloop as (Hfuel & _). exact Hfuel.
Qed.

Lemma run_pages_are_dispatches : pages_are_dispatches run.
Proof.
  destruct Hrun as [(e & ->) | (rb & Hrb & Hloop)]; [exact I |].
  destruct run as [out c]. symmetry in Hloop.
  apply crawl_run in Hloop as (_ & Hret & Hinv & Hsmall & _).
  destruct (Z.le_gt_cases 0 max_pages) as [Hmax | Hmax].
  - eapply invariant_pages_are_dispatches; [exact (Hinv Hmax) | exact Hret].
  - rewrite (Hsmall ltac:(lia)) in *. unfold pages_are_dispatches.
    destruct out as [l n | e |]; simpl; [| exact I | exact I].
    destruct (Hret l n eq_refl) as [_ ->].
    change (seen (initial base_url progress)) with (∅ : gset string).
    rewrite size_empty. split_and!; [reflexivity | reflexivity | reflexivity].
Qed.

Lemma run_cancellation_kept :
  (0 <= max_pages)%Z -> stop_flag_stays W ->
  cancellation_kept max_pages
    (forall u t, exists r, extract u (fetch_text W t u) = Ok r) run.
Proof.
  intros Hmax Hstays.
  destruct Hrun as [(e & ->) | (rb & Hrb & Hloop)].
  - intros tr1 imgs n tr2 Htr. simpl in Htr. destruct tr1; discriminate Htr.
  - destruct run as [out c]. symmetry in Hloop.
    apply crawl_run in Hloop as (Hfuel & Hret & Hinv & _ & Hstop & Hraise).
    eapply invariant_cancellation_kept;
      [exact (Hinv Hmax) | exact (Hstop Hstays) | exact Hret |].
    intros Hok. apply returned_or_not; [exact Hfuel | exact (Hraise Hok)].
Qed.

End Runs.

(** Both crawlers are total: the loop never runs out of fuel. *)
Lemma crawl_site_terminates W base_url max_pages concurrency progress keywords :
  (App.crawl_site W base_url max_pages concurrency progress keywords).1
  <> OutOfFuel.
Proof. eapply run_terminates. apply crawl_site_run. Qed.

Lemma scan_site_terminates W base_url max_pages concurrency progress :
  (Backend.scan_site W base_url max_pages concurrency progress).1 <> OutOfFuel.
Proof. eapply run_terminates. apply scan_site_run. Qed.

(** A crawl of the example site, in full. *)
Lemma crawl_site_example :
  let run := App.crawl_site CrawlExamples.world_site "http://h/" 10 2
               CrawlExamples.progress0 [] in
  run.1 = Returned ["http://h/a.jpg"; "http://h/b.png"] 4
  /\ trace run.2
     = [Visited "http://h/"; FetchStarted "http://h/"; Parsed "http://h/";
        Enqueued "http://h/p1"; Enqueued "http://h/p2";
        Visited "http://h/p1"; Visited "http://h/p2";
        FetchStarted "http://h/p1"; FetchStarted "http://h/p2";
        Parsed "http://h/p1"; Enqueued "http://h/p3";
        Visited "http://h/p3"; FetchStarted "http://h/p3"].
Proof. vm_compute. split; reflexivity. Qed.

(** C1: for a budget and a concurrency of at least 1, the pages either
    crawler visits are distinct and at most [max_pages] at every point of
    the crawl, and every URL it dispatches, requests or adds to the frontier
    has exactly the authority of the base URL. *)
Theorem C1_page_budget_and_same_host W base_url max_pages concurrency
    progress keywords backend_progress :
  (1 <= max_pages)%Z -> (1 <= concurrency)%Z ->
  within_budget_and_host base_url max_pages
    (App.crawl_site W base_url max_pages concurrency progress keywords).2
  /\ within_budget_and_host base_url max_pages
       (Backend.scan_site W base_url max_pages concurrency backend_progress).2.
Proof.
  intros Hmax _. split.
  - eapply run_within_budget;
      [apply app_same_host_authority | apply crawl_site_run | lia].
  - eapply run_within_budget;
      [apply backend_same_host_authority | apply scan_site_run | lia].
Qed.

Lemma C1_witness :
  within_budget_and_host "http://h/" 2
    (App.crawl_site CrawlExamples.world_site "http://h/" 2 5
       CrawlExamples.progress0 []).2
  /\ within_budget_and_host "http://h/" 2
       (Backend.scan_site CrawlExamples.world_site "http://h/" 2 5 None).2.
Proof.
  apply (C1_page_budget_and_same_host CrawlExamples.world_site "http://h/"
           2 5 CrawlExamples.progress0 [] None); lia.
Defined.

(** C2: a cancellation does not always keep the partial results. On a site
    whose page [/p1] is [<img srcset="a.jpg 1x,"><a href="//[">], with the
    stop flag set while the second batch is being started, the task of [/p2]
    observes the flag, with one image found and three pages counted, and
    then the extraction of [/p1], requested before, raises: [crawl_site]
    ends in [IndexError] and [scan_site] in [ValueError], and nothing is
    returned. On well-formed pages the same cancellation returns the images
    of the pages requested before it and the count of three. *)
Theorem C2_exception_discards_partial_results :
  let run := App.crawl_site CancelExamples.world_stop_mid_batch "http://h/"
               10 2 CrawlExamples.progress0 [] in
  let run' := Backend.scan_site CancelExamples.world_stop_mid_batch "http://h/"
                10 2 None in
  let sound := App.crawl_site CancelExamples.world_stop_mid_batch_sound
                 "http://h/" 10 2 CrawlExamples.progress0 [] in
  trace run.2
  = [Visited "http://h/"; FetchStarted "http://h/"; Parsed "http://h/";
     Enqueued "http://h/p1"; Enqueued "http://h/p2";
     Visited "http://h/p1"; Visited "http://h/p2";
     FetchStarted "http://h/p1"; StopObserved {[ "http://h/a.jpg" ]} 3;
     Parsed "http://h/p1"]
  /\ run.1 = Raised IndexError
  /\ trace run'.2 = trace run.2
  /\ run'.1 = Raised ValueError
  /\ sound.1 = Returned ["http://h/a.jpg"; "http://h/b.png"] 3.
Proof. vm_compute. split_and!; reflexivity. Qed.

(** C10: the count either crawler returns is the number of pages it
    dispatched, and the pages it fetched and parsed are among them; a page
    whose request fails, whose reply is not text, or whose task sees the stop
    flag is counted without having been parsed. *)
Theorem C10_pages_visited_counts_dispatches :
  (forall W base_url max_pages concurrency progress keywords,
      pages_are_dispatches
        (App.crawl_site W base_url max_pages concurrency progress keywords))
  /\ (forall W base_url max_pages concurrency progress,
         pages_are_dispatches
           (Backend.scan_site W base_url max_pages concurrency progress))
  /\ Forall
       (fun W =>
          let run := App.crawl_site W "http://h/" 10 2
                       CrawlExamples.progress0 [] in
          let run' := Backend.scan_site W "http://h/" 10 2 None in
          run.1 = Returned [] 1 /\ parsed_urls (trace run.2) = []
          /\ run'.1 = Returned [] 1 /\ parsed_urls (trace run'.2) = [])
       [CrawlExamples.world_down; CrawlExamples.world_binary;
        CrawlExamples.world_stop_first_task].
Proof.
  split_and!.
  - intros. eapply run_pages_are_dispatches. apply crawl_site_run.
  - intros. eapply run_pages_are_dispatches. apply scan_site_run.
  - repeat constructor; vm_compute; reflexivity.
Qed.

(** * Further properties *)

(** ** Characters and strings *)

Section Strings.

Import Py.

(** A fact about every character, by cases on its eight bits. *)
Ltac by_cases_on_bits c :=
  destruct c as [[] [] [] [] [] [] [] []]; vm_compute; try reflexivity;
  try discriminate; try tauto.

Lemma ascii_eqb_eq a b : ascii_eqb a b = true <-> a = b.
Proof. unfold ascii_eqb. apply bool_decide_eq_true. Qed.

Lemma ascii_eqb_refl a : ascii_eqb a a = true.
Proof. apply ascii_eqb_eq. reflexivity. Qed.

Lemma lower_char_idempotent c : lower_char (lower_char c) = lower_char c.
Proof. by_cases_on_bits c. Qed.

Lemma lower_char_not_upper c : is_upper (lower_char c) = false.
Proof. by_cases_on_bits c. Qed.

Lemma lower_char_question c :
  ascii_eqb (lower_char c) "?" = ascii_eqb c "?".
Proof. by_cases_on_bits c. Qed.

Lemma lower_idempotent s : lower (lower s) = lower s.
Proof.
  induction s as [| c s IH]; [reflexivity |]. simpl.
  rewrite lower_char_idempotent, IH. reflexivity.
Qed.

Lemma split_not_nil sep s : split sep s <> [].
Proof.
  destruct s as [| c s]; simpl; [discriminate |].
  destruct (ascii_eqb c sep); [discriminate |].
  destruct (split sep s); discriminate.
Qed.

Lemma hd_split_cons sep c s :
  hd EmptyString (split sep (String c s))
  = if ascii_eqb c sep then EmptyString
    else String c (hd EmptyString (split sep s)).
Proof.
  simpl. destruct (ascii_eqb c sep); [reflexivity |].
  pose proof (split_not_nil sep s) as Hne.
  destruct (split sep s); [congruence | reflexivity].
Qed.

(** Lower-casing commutes with taking the text before the first [?]. *)
Lemma lower_before_query u :
  lower (hd EmptyString (split "?" u)) = hd EmptyString (split "?" (lower u)).
Proof.
  induction u as [| c u IH]; [reflexivity |].
  change (lower (String c u)) with (String (lower_char c) (lower u)).
  rewrite !hd_split_cons, lower_char_question.
  destruct (ascii_eqb c "?"); [reflexivity |]. simpl. rewrite IH. reflexivity.
Qed.

Lemma has_char_app c a b :
  has_char c (a +:+ b) = has_char c a || has_char c b.
Proof.
  induction a as [| x a IH]; [reflexivity |]. simpl.
  rewrite IH, orb_assoc. reflexivity.
Qed.

Lemma hd_split_app sep a b :
  has_char sep a = false ->
  hd EmptyString (split sep (a +:+ String sep b)) = a.
Proof.
  induction a as [| c a IH]; intros Ha.
  - simpl. rewrite ascii_eqb_refl. reflexivity.
  - simpl in Ha. apply orb_false_iff in Ha as [Hc Ha].
    change (String c a +:+ String sep b) with (String c (a +:+ String sep b)).
    rewrite hd_split_cons.
    assert (Hc' : ascii_eqb c sep = false).
    { destruct (ascii_eqb c sep) eqn:E; [| reflexivity].
      apply ascii_eqb_eq in E. subst c. rewrite ascii_eqb_refl in Hc.
      discriminate. }
    rewrite Hc', IH by exact Ha. reflexivity.
Qed.

Lemma hd_split_absent sep a :
  has_char sep a = false -> hd EmptyString (split sep a) = a.
Proof.
  induction a as [| c a IH]; intros Ha; [reflexivity |].
  simpl in Ha. apply orb_false_iff in Ha as [Hc Ha].
  rewrite hd_split_cons.
  assert (Hc' : ascii_eqb c sep = false).
  { destruct (ascii_eqb c sep) eqn:E; [| reflexivity].
    apply ascii_eqb_eq in E. subst c. rewrite ascii_eqb_refl in Hc.
    discriminate. }
  rewrite Hc', IH by exact Ha. reflexivity.
Qed.

End Strings.

(** ** The extension test *)

Section ExtensionTest.

Import Py.

Lemma is_image_url_lower_first u :
  App.is_image_url u = Backend.is_valid_image u.
Proof.
  unfold App.is_image_url, Backend.is_valid_image.
  rewrite <- lower_before_query.
  destruct u as [| c u]; reflexivity.
Qed.

(** X1: the extension tests of the two files accept the same URLs, although
    one lower-cases before it cuts at the first [?] and the other after, and
    only one tests for the empty string; the test does not look at the case
    of the URL, nor at what follows its first [?]. *)
Theorem X1_extension_test u q :
  App.is_image_url u = Backend.is_valid_image u
  /\ App.is_image_url (lower u) = App.is_image_url u
  /\ (has_char "?" u = false ->
      App.is_image_url (u +:+ "?" +:+ q) = App.is_image_url u).
Proof.
  split_and!.
  - apply is_image_url_lower_first.
  - rewrite !is_image_url_lower_first. unfold Backend.is_valid_image.
    rewrite lower_idempotent. reflexivity.
  - intros Hu. rewrite !is_image_url_lower_first.
    unfold Backend.is_valid_image. rewrite <- !lower_before_query.
    change ("?" +:+ q) with (String "?" q).
    rewrite hd_split_app, hd_split_absent by exact Hu.
    reflexivity.
Qed.

Lemma X1_witness :
  App.is_image_url ("http://h/Pic.PNG" +:+ "?" +:+ "v=2")
  = App.is_image_url "http://h/Pic.PNG".
Proof.
  apply (proj2 (proj2 (X1_extension_test "http://h/Pic.PNG" "v=2"))).
  reflexivity.
Defined.

End ExtensionTest.

(** ** Normalised URLs *)

Section Normalised.

Import Py urllib.

Local Abbreviation absent d s := (has_char d s = false).

Lemma split_once_absent c s a r : split_once c s = (a, r) -> absent c a.
Proof.
  revert a r. induction s as [| x s IH]; intros a r H; simpl in H.
  - injection H as <- _. reflexivity.
  - destruct (ascii_eqb x c) eqn:E.
    + injection H as <- _. reflexivity.
    + destruct (split_once c s) as [a' r']. injection H as <- _. simpl.
      rewrite (IH a' r' eq_refl), orb_false_r.
      destruct (ascii_eqb c x) eqn:E'; [| reflexivity].
      apply ascii_eqb_eq in E'. subst x. rewrite ascii_eqb_refl in E.
      discriminate.
Qed.

Lemma split_once_sub d c s a r :
  split_once c s = (a, r) -> absent d s ->
  absent d a /\ forall b, r = Some b -> absent d b.
Proof.
  revert a r. induction s as [| x s IH]; intros a r H Hs; simpl in H.
  - injection H as <- <-. split; [reflexivity | discriminate].
  - simpl in Hs. apply orb_false_iff in Hs as [Hx Hs].
    destruct (ascii_eqb x c).
    + injection H as <- <-. split; [reflexivity |].
      intros b Hb. injection Hb as <-. exact Hs.
    + destruct (split_once c s) as [a' r']. injection H as <- <-.
      destruct (IH a' r' eq_refl Hs) as [Ha Hr]. split; [| exact Hr].
      simpl. rewrite Hx, Ha. reflexivity.
Qed.

Lemma split_once_none c s a : split_once c s = (a, None) -> a = s.
Proof.
  revert a. induction s as [| x s IH]; intros a H; simpl in H.
  - injection H as <-. reflexivity.
  - destruct (ascii_eqb x c); [discriminate |].
    destruct (split_once c s) as [a' [b |]]; [discriminate |].
    injection H as <-. rewrite (IH a' eq_refl). reflexivity.
Qed.

Lemma splitnetloc_absent d s a b :
  splitnetloc s = (a, b) -> has_char d "/?#" = true -> absent d a.
Proof.
  intros H Hd. revert a b H.
  induction s as [| x s IH]; intros a b H.
  - injection H as <- _. reflexivity.
  - change (splitnetloc (String x s))
      with (if has_char x "/?#" then (EmptyString, String x s)
            else let '(a, b) := splitnetloc s in (String x a, b)) in H.
    destruct (has_char x "/?#") eqn:E.
    + injection H as <- _. reflexivity.
    + destruct (splitnetloc s) as [a' b']. injection H as <- _. simpl.
      rewrite (IH a' b' eq_refl), orb_false_r.
      destruct (ascii_eqb d x) eqn:E'; [| reflexivity].
      apply ascii_eqb_eq in E'. subst x. congruence.
Qed.

Lemma rsplit_slash_sub d s h t :
  rsplit_slash s = (h, t) -> absent d s -> absent d h /\ absent d t.
Proof.
  revert h t. induction s as [| x s IH]; intros h t H Hs; simpl in H.
  - injection H as <- <-. split; reflexivity.
  - simpl in Hs. apply orb_false_iff in Hs as [Hx Hs].
    destruct (rsplit_slash s) as [h' t'].
    destruct (IH h' t' eq_refl Hs) as [Hh Ht]. cbv beta iota in H.
    destruct (truthy h'); [| destruct (ascii_eqb x "/")];
      injection H as <- <-; simpl; rewrite ?Hx, ?Hh, ?Ht; split; reflexivity.
Qed.

Lemma scheme_char_lower c :
  scheme_char c = true ->
  ascii_eqb "?" (lower_char c) = false /\ ascii_eqb "#" (lower_char c) = false.
Proof.
  destruct c as [[] [] [] [] [] [] [] []]; vm_compute; intros H;
    first [discriminate H | split; reflexivity].
Qed.

Lemma scheme_absent s :
  all_chars scheme_char s = true ->
  absent "?" (lower s) /\ absent "#" (lower s).
Proof.
  induction s as [| c s IH]; intros H; [split; reflexivity |].
  simpl in H. apply andb_true_iff in H as [Hc Hs].
  destruct (IH Hs) as [H1 H2]. destruct (scheme_char_lower c Hc) as [H3 H4].
  simpl. rewrite H1, H2, H3, H4. split; reflexivity.
Qed.

Lemma split_scheme_absent dflt url sch rest :
  split_scheme dflt url = (sch, rest) ->
  absent "?" dflt -> absent "#" dflt ->
  absent "?" sch /\ absent "#" sch.
Proof.
  unfold split_scheme. intros H Hq Hh.
  destruct url as [| c0 url0]; [injection H as <- _; auto |].
  destruct (split_once ":" (String c0 url0)) as [pre [r |]];
    [| injection H as <- _; auto].
  destruct (truthy pre && is_alpha c0 && all_chars scheme_char pre) eqn:E;
    injection H as <- _; [| auto].
  apply andb_true_iff in E as [_ E]. apply scheme_absent. exact E.
Qed.

(** What [urlsplit] returns has no [#] outside its fragment, and no [?]
    outside its query and fragment. *)
Lemma urlsplit_absent url dflt r :
  urlsplit url dflt = Ok r ->
  absent "?" dflt -> absent "#" dflt ->
  (absent "?" (scheme r) /\ absent "?" (netloc r) /\ absent "?" (path r))
  /\ (absent "#" (scheme r) /\ absent "#" (netloc r) /\ absent "#" (path r)
      /\ absent "#" (query r))
  /\ params r = EmptyString.
Proof.
  unfold urlsplit. intros H Hq Hh.
  destruct (split_scheme dflt _) as [sch u1] eqn:Hsch.
  destruct (split_scheme_absent _ _ _ _ Hsch Hq Hh) as [Hs1 Hs2].
  match type of H with
  | (mbind _ ?m = _) => destruct m as [[nl u2] |] eqn:Hnl
  end; simpl in H; [| discriminate].
  assert (Hnl' : absent "?" nl /\ absent "#" nl).
  { destruct (startswith "//" u1).
    - destruct (splitnetloc (drop 2 u1)) as [nl0 rest0] eqn:Hsp.
      destruct (_ || _); [discriminate |].
      destruct (if has_char "[" nl0 && has_char "]" nl0
                then check_bracketed_netloc nl0 else Ok tt);
        simpl in Hnl; [| discriminate].
      injection Hnl as <- _.
      split; eapply splitnetloc_absent; try exact Hsp; reflexivity.
    - injection Hnl as <- _. split; reflexivity. }
  destruct Hnl' as [Hn1 Hn2].
  destruct (split_once "#" u2) as [a1 r1] eqn:H1.
  pose proof (split_once_absent _ _ _ _ H1) as Ha1.
  set (u3 := match r1 with Some _ => a1 | None => u2 end).
  assert (Hu3 : absent "#" u3).
  { unfold u3. destruct r1; [exact Ha1 |].
    apply split_once_none in H1. subst a1. exact Ha1. }
  assert (Hrest : exists frag,
             (let '(url, qry) :=
                match split_once "?" u3 with
                | (a, Some b) => (a, b)
                | (_, None) => (u3, EmptyString)
                end in
              Ok {| scheme := sch; netloc := nl; path := url;
                    params := EmptyString; query := qry; fragment := frag |})
             = Ok r).
  { unfold u3. destruct r1 as [b1 |]; eexists; exact H. }
  clear H. destruct Hrest as [frag H].
  destruct (split_once "?" u3) as [a2 r2] eqn:H2.
  pose proof (split_once_absent _ _ _ _ H2) as Ha2.
  destruct (split_once_sub "#" _ _ _ _ H2 Hu3) as [Ha2' Hr2].
  destruct r2 as [b2 |]; injection H as <-; simpl.
  - split_and!; try assumption; try reflexivity. apply Hr2. reflexivity.
  - apply split_once_none in H2. subst a2.
    split_and!; try assumption; reflexivity.
Qed.

Lemma splitparams_sub d p a b :
  splitparams p = (a, b) -> absent d p -> absent d a /\ absent d b.
Proof.
  unfold splitparams. intros H Hp.
  destruct (rsplit_slash p) as [h t] eqn:Hr.
  destruct (rsplit_slash_sub d _ _ _ Hr Hp) as [Hh Ht].
  destruct (split_once ";" t) as [x [y |]] eqn:Hs.
  - destruct (split_once_sub d _ _ _ _ Hs Ht) as [Hx Hy].
    injection H as <- <-. rewrite has_char_app, Hh, Hx.
    split; [reflexivity | apply Hy; reflexivity].
  - injection H as <- <-. split; [exact Hp | reflexivity].
Qed.

Lemma urlparse_with_absent url dflt r :
  urlparse_with url dflt = Ok r ->
  absent "?" dflt -> absent "#" dflt ->
  (absent "?" (scheme r) /\ absent "?" (netloc r) /\ absent "?" (path r)
   /\ absent "?" (params r))
  /\ (absent "#" (scheme r) /\ absent "#" (netloc r) /\ absent "#" (path r)
      /\ absent "#" (params r) /\ absent "#" (query r)).
Proof.
  unfold urlparse_with. intros H Hq Hh.
  destruct (urlsplit url dflt) as [r0 |] eqn:Hsplit; simpl in H;
    [| discriminate].
  destruct (urlsplit_absent _ _ _ Hsplit Hq Hh)
    as ((Q1 & Q2 & Q3) & (H1 & H2 & H3 & H4) & Hprm).
  destruct (elem (scheme r0) uses_params && has_char ";" (path r0)).
  - destruct (splitparams (path r0)) as [p prm] eqn:Hsp.
    destruct (splitparams_sub "?" _ _ _ Hsp Q3) as [Qp Qprm].
    destruct (splitparams_sub "#" _ _ _ Hsp H3) as [Hp Hprm'].
    injection H as <-. simpl. split_and!; assumption.
  - injection H as <-. rewrite Hprm. split_and!; try assumption; reflexivity.
Qed.

Lemma urlunparse_absent d r :
  absent d "/:;" ->
  (truthy (query r) = true -> absent d "?") ->
  (truthy (fragment r) = true -> absent d "#") ->
  absent d (scheme r) -> absent d (netloc r) -> absent d (path r) ->
  absent d (params r) -> absent d (query r) -> absent d (fragment r) ->
  absent d (urlunparse r).
Proof.
  intros Hd Hquest Hhash Hs Hn Hp Hprm Hq Hf. unfold urlunparse, urlunsplit.
  assert (Hslash : absent d "/").
  { simpl in *. repeat (apply orb_false_iff in Hd as [? Hd]).
    rewrite orb_false_r. assumption. }
  assert (Hcolon : absent d ":").
  { simpl in *. repeat (apply orb_false_iff in Hd as [? Hd]).
    rewrite orb_false_r. assumption. }
  assert (Hsemi : absent d ";").
  { simpl in *. repeat (apply orb_false_iff in Hd as [? Hd]).
    rewrite orb_false_r. assumption. }
  assert (Hss : absent d "//").
  { simpl in *. apply orb_false_iff in Hslash as [-> _]. reflexivity. }
  destruct (truthy (query r)); destruct (truthy (fragment r));
    try specialize (Hquest eq_refl); try specialize (Hhash eq_refl);
    repeat match goal with
           | |- context [if ?b then _ else _] => destruct b
           end;
    rewrite ?has_char_app, ?Hs, ?Hn, ?Hp, ?Hprm, ?Hq, ?Hf, ?Hslash, ?Hcolon,
      ?Hsemi, ?Hquest, ?Hhash, ?Hss; reflexivity.
Qed.

Lemma urldefrag_absent u v : urldefrag u = Ok v -> absent "#" v.
Proof.
  unfold urldefrag. intros H.
  destruct (has_char "#" u) eqn:E; [| injection H as <-; exact E].
  destruct (urlparse u) as [r |] eqn:Hp; simpl in H; [| discriminate].
  injection H as <-.
  destruct (urlparse_with_absent _ _ _ Hp eq_refl eq_refl)
    as (_ & (H1 & H2 & H3 & H4 & H5)).
  apply urlunparse_absent; simpl; try assumption; try reflexivity;
    discriminate.
Qed.

Lemma app_normalize_url_absent u v :
  App.normalize_url u = Ok v -> absent "?" v /\ absent "#" v.
Proof.
  unfold App.normalize_url. intros H.
  destruct (urldefrag u) as [u1 |]; simpl in H; [| discriminate].
  destruct (urlparse u1) as [r |] eqn:Hp; simpl in H; [| discriminate].
  injection H as <-.
  destruct (urlparse_with_absent _ _ _ Hp eq_refl eq_refl)
    as ((Q1 & Q2 & Q3 & Q4) & (H1 & H2 & H3 & H4 & H5)).
  split; apply urlunparse_absent; simpl; try assumption; try reflexivity;
    discriminate.
Qed.

(** X2: the canonical form [normalize_url] of [app.py] returns has neither
    a [?] nor a [#]: the query and the fragment are gone with their
    delimiters; that of [backend.py] has no [#] and may keep its query. *)
Theorem X2_normalize_url_strips u v :
  (App.normalize_url u = Ok v -> absent "?" v /\ absent "#" v)
  /\ (Backend.normalize_url u = Ok v -> absent "#" v).
Proof. split; [apply app_normalize_url_absent | apply urldefrag_absent]. Qed.

Lemma X2_witness :
  (absent "?" "http://h/a;x" /\ absent "#" "http://h/a;x")
  /\ absent "#" "http://h/a;x?q=1".
Proof.
  split.
  - apply (proj1 (X2_normalize_url_strips "http://h/a;x?q=1#top" "http://h/a;x")).
    vm_compute. reflexivity.
  - apply (proj2 (X2_normalize_url_strips "http://h/a;x?q=1#top"
                    "http://h/a;x?q=1")).
    vm_compute. reflexivity.
Defined.

End Normalised.

(** ** What the extractors return *)

Section ExtractorResults.

Import Py.

Lemma add_candidate_cases base kws ctx c imgs imgs' :
  App.add_candidate base kws ctx c imgs = Ok imgs' ->
  imgs' = imgs
  \/ exists joined full,
       App.abs_url base c = Ok joined
       /\ App.normalize_url joined = Ok full
       /\ App.is_image_url full = true
       /\ App.is_excluded full = false
       /\ (App.keyword_match kws full = true
           \/ exists text, ctx = Some text
                           /\ App.keyword_match kws text = true)
       /\ imgs' = imgs ∪ {[ full ]}.
Proof.
  unfold App.add_candidate. intros H.
  destruct (App.abs_url base c) as [joined |]; simpl in H; [| discriminate].
  destruct (App.normalize_url joined) as [full |] eqn:Hn; simpl in H;
    [| discriminate].
  destruct (App.is_image_url full) eqn:Hi; simpl in H;
    [| left; congruence].
  destruct (App.is_excluded full) eqn:He; simpl in H; [left; congruence |].
  destruct (App.keyword_match kws full) eqn:Hk; simpl in H.
  - right. exists joined, full. injection H as <-. split_and!; auto.
  - destruct ctx as [text |]; [| left; congruence].
    destruct (App.keyword_match kws text) eqn:Hk'; [| left; congruence].
    right. exists joined, full. injection H as <-.
    split_and!; eauto.
Qed.

(** A property of sets that every addition of a candidate keeps is kept by
    the extractor of [app.py]. *)
Lemma extract_images_preserves base html kws (Q : gset string -> Prop) imgs :
  (forall ctx c s s', App.add_candidate base kws ctx c s = Ok s' -> Q s -> Q s') ->
  Q ∅ ->
  App.extract_images_from_html base html kws = Ok imgs -> Q imgs.
Proof.
  intros Hadd Q0.
  assert (Himg : forall x s s', App.scan_img base kws x s = Ok s' -> Q s -> Q s').
  { intros x s s' H Hs. unfold App.scan_img in H.
    match type of H with
    | (mbind _ ?r = _) => destruct r as [s1 |] eqn:H1
    end; simpl in H; [| discriminate].
    assert (Hs1 : Q s1).
    { eapply (for_each_invariant Q); [| exact H1 | exact Hs].
      intros [[| a c] |] t t' Ht Hp; try (injection Ht as <-; exact Hp).
      eapply Hadd; eassumption. }
    destruct (get x "srcset") as [[| a srcset] |];
      try (injection H as <-; exact Hs1).
    eapply (for_each_invariant Q); [| exact H | exact Hs1].
    intros part t t' Ht Hp. cbv beta in Ht.
    destruct (App.first_token part) as [url |]; simpl in Ht; [| discriminate].
    eapply Hadd; eassumption. }
  assert (Hstyle : forall x s s',
             App.scan_inline_style base kws x s = Ok s' -> Q s -> Q s').
  { intros x s s' H Hs. unfold App.scan_inline_style in H.
    eapply (for_each_invariant Q); [| exact H | exact Hs].
    intros c t t' Ht Hp. cbv beta in Ht. eapply Hadd; eassumption. }
  assert (Hblock : forall x s s',
             App.scan_style_block base kws x s = Ok s' -> Q s -> Q s').
  { intros x s s' H Hs. unfold App.scan_style_block in H.
    eapply (for_each_invariant Q); [| exact H | exact Hs].
    intros c t t' Ht Hp. cbv beta in Ht. eapply Hadd; eassumption. }
  assert (Hattr : forall a x s s',
             App.scan_attr a base kws x s = Ok s' -> Q s -> Q s').
  { intros a x s s' H Hs. unfold App.scan_attr in H.
    destruct (get x a) as [[| ch c] |]; try (injection H as <-; exact Hs).
    eapply Hadd; eassumption. }
  assert (Hvideo : forall x s s',
             App.scan_video base kws x s = Ok s' -> Q s -> Q s').
  { intros x s s' H Hs. unfold App.scan_video in H.
    destruct (get x "poster") as [[| ch c] |]; try (injection H as <-; exact Hs).
    eapply Hadd; eassumption. }
  unfold App.extract_images_from_html. intros Hrun.
  repeat match type of Hrun with
         | (mbind _ ?r = _) =>
             let s := fresh "s" in let E := fresh "E" in
             destruct r as [s |] eqn:E; simpl in Hrun; [| discriminate]
         end.
  pose proof (for_each_invariant Q _ _ Himg _ _ E Q0) as Q1.
  pose proof (for_each_invariant Q _ _ Hstyle _ _ E0 Q1) as Q2.
  pose proof (for_each_invariant Q _ _ Hblock _ _ E1 Q2) as Q3.
  pose proof (for_each_invariant Q _ _ (Hattr _) _ _ E2 Q3) as Q4.
  pose proof (for_each_invariant Q _ _ (Hattr _) _ _ E3 Q4) as Q5.
  exact (for_each_invariant Q _ _ Hvideo _ _ Hrun Q5).
Qed.

Lemma app_images_canonical base html kws imgs u :
  App.extract_images_from_html base html kws = Ok imgs -> u ∈ imgs ->
  App.is_image_url u = true
  /\ has_char "?" u = false /\ has_char "#" u = false.
Proof.
  intros Hrun.
  revert u.
  apply (extract_images_preserves base html kws
           (fun s => forall u, u ∈ s ->
              App.is_image_url u = true
              /\ has_char "?" u = false /\ has_char "#" u = false));
    [| intros u Hu; set_solver | exact Hrun].
  intros ctx c s s' Hadd Hs u Hu.
  apply add_candidate_cases in Hadd
    as [-> | (joined & full & _ & Hn & Hi & _ & _ & ->)]; [auto |].
  apply elem_of_union in Hu as [Hu | Hu]; [auto |].
  apply elem_of_singleton in Hu. subst u.
  destruct (app_normalize_url_absent joined full Hn) as [Hq Hh].
  split_and!; assumption.
Qed.

(** X3: every URL the image extractor of [app.py] returns, from whichever
    of its six sources, passes the extension test and is in canonical form:
    it has no query and no fragment. *)
Theorem X3_app_images_are_canonical base html kws imgs u :
  App.extract_images_from_html base html kws = Ok imgs -> u ∈ imgs ->
  App.is_image_url u = true
  /\ has_char "?" u = false /\ has_char "#" u = false.
Proof. apply app_images_canonical. Qed.

Lemma X3_witness :
  App.is_image_url "http://h/b.png" = true
  /\ has_char "?" "http://h/b.png" = false
  /\ has_char "#" "http://h/b.png" = false.
Proof.
  apply (X3_app_images_are_canonical "http://h/p"
           (Some Examples.page_two_images) []
           {[ "http://h/a.jpg"; "http://h/b.png" ]}).
  - vm_compute. reflexivity.
  - set_solver.
Defined.

Lemma add_if_image_cases base c imgs imgs' :
  Backend.add_if_image base c imgs = Ok imgs' ->
  imgs' = imgs
  \/ exists joined full,
       Backend.abs_url base c = Ok joined
       /\ Backend.normalize_url joined = Ok full
       /\ Backend.is_valid_image full = true
       /\ imgs' = imgs ∪ {[ full ]}.
Proof.
  unfold Backend.add_if_image. intros H.
  destruct (Backend.abs_url base c) as [joined |]; simpl in H; [| discriminate].
  destruct (Backend.normalize_url joined) as [full |] eqn:Hn; simpl in H;
    [| discriminate].
  destruct (Backend.is_valid_image full) eqn:Hi; injection H as <-;
    [right; eauto 10 | left; reflexivity].
Qed.

Lemma backend_images_valid base html imgs u :
  Backend.extract_images_from_html base html = Ok imgs -> u ∈ imgs ->
  Backend.is_valid_image u = true /\ has_char "#" u = false.
Proof.
  unfold Backend.extract_images_from_html. intros Hrun. revert u.
  eapply (for_each_invariant
            (fun s : gset string => forall u, u ∈ s ->
               Backend.is_valid_image u = true /\ has_char "#" u = false));
    [| exact Hrun | intros u Hu; set_solver].
  assert (Hadd : forall c s s',
            Backend.add_if_image base c s = Ok s' ->
            (forall u, u ∈ s ->
               Backend.is_valid_image u = true /\ has_char "#" u = false) ->
            forall u, u ∈ s' ->
               Backend.is_valid_image u = true /\ has_char "#" u = false).
  { intros c s s' Hc Hs u Hu.
    apply add_if_image_cases in Hc as [-> | (joined & full & _ & Hn & Hi & ->)];
      [auto |].
    apply elem_of_union in Hu as [Hu | Hu]; [auto |].
    apply elem_of_singleton in Hu. subst u. split; [exact Hi |].
    exact (urldefrag_absent joined full Hn). }
  intros img s s' H Hs. unfold Backend.scan_img in H.
  match type of H with
  | (mbind _ ?r = _) => destruct r as [s1 |] eqn:H1
  end; simpl in H; [| discriminate].
  assert (Hs1 : forall u, u ∈ s1 ->
            Backend.is_valid_image u = true /\ has_char "#" u = false).
  { destruct (Backend.img_src img) as [[| a src] |];
      try (injection H1 as <-; exact Hs).
    eapply Hadd; eassumption. }
  destruct (get img "srcset") as [[| a srcset] |];
    try (injection H as <-; exact Hs1).
  eapply (for_each_invariant
            (fun s : gset string => forall u, u ∈ s ->
               Backend.is_valid_image u = true /\ has_char "#" u = false));
    [| exact H | exact Hs1].
  intros item t t' Ht Hp. cbv beta in Ht.
  destruct (split_ws (strip item)) as [| url rest];
    [injection Ht as <-; exact Hp |].
  eapply Hadd; eassumption.
Qed.

(** X4: every URL the image extractor of [backend.py] returns passes the
    extension test and has no fragment. *)
Theorem X4_backend_images_are_images base html imgs u :
  Backend.extract_images_from_html base html = Ok imgs -> u ∈ imgs ->
  Backend.is_valid_image u = true /\ has_char "#" u = false.
Proof. apply backend_images_valid. Qed.

Lemma X4_witness :
  Backend.is_valid_image "http://h/b.png?x=1" = true
  /\ has_char "#" "http://h/b.png?x=1" = false.
Proof.
  apply (X4_backend_images_are_images "http://h/p"
           (Some Examples.page_two_images)
           {[ "http://h/a.jpg"; "http://h/b.png?x=1" ]}).
  - vm_compute. reflexivity.
  - set_solver.
Defined.

(** X5: the links either link extractor returns have no fragment, and
    those of [app.py] no query either. *)
Theorem X5_links_are_canonical base html links u :
  (App.extract_links base html = Ok links -> u ∈ links ->
   has_char "?" u = false /\ has_char "#" u = false)
  /\ (Backend.extract_links base html = Ok links -> u ∈ links ->
      has_char "#" u = false).
Proof.
  split.
  - unfold App.extract_links. intros Hrun. revert u.
    eapply (for_each_invariant
              (fun s : gset string => forall u, u ∈ s ->
                 has_char "?" u = false /\ has_char "#" u = false));
      [| exact Hrun | intros u Hu; set_solver].
    intros a s s' H Hs u Hu. cbv beta in H.
    destruct (App.abs_url base (get_or_empty a "href")) as [joined |];
      simpl in H; [| discriminate].
    destruct (App.normalize_url joined) as [full |] eqn:Hn; simpl in H;
      [| discriminate].
    injection H as <-. apply elem_of_union in Hu as [Hu | Hu]; [auto |].
    apply elem_of_singleton in Hu. subst u.
    exact (app_normalize_url_absent joined full Hn).
  - unfold Backend.extract_links. intros Hrun. revert u.
    eapply (for_each_invariant
              (fun s : gset string => forall u, u ∈ s ->
                 has_char "#" u = false));
      [| exact Hrun | intros u Hu; set_solver].
    intros a s s' H Hs u Hu. cbv beta in H.
    destruct (Backend.abs_url base (get_or_empty a "href")) as [joined |];
      simpl in H; [| discriminate].
    destruct (Backend.normalize_url joined) as [full |] eqn:Hn; simpl in H;
      [| discriminate].
    injection H as <-. apply elem_of_union in Hu as [Hu | Hu]; [auto |].
    apply elem_of_singleton in Hu. subst u.
    exact (urldefrag_absent joined full Hn).
Qed.

Lemma X5_witness :
  (has_char "?" "http://h/q" = false /\ has_char "#" "http://h/q" = false)
  /\ has_char "#" "http://h/q?x=1" = false.
Proof.
  split.
  - apply (proj1 (X5_links_are_canonical "http://h/p"
                    (Some [Examples.anchor "q?x=1#top"])
                    {[ "http://h/q" ]} "http://h/q")).
    + vm_compute. reflexivity.
    + set_solver.
  - apply (proj2 (X5_links_are_canonical "http://h/p"
                    (Some [Examples.anchor "q?x=1#top"])
                    {[ "http://h/q?x=1" ]} "http://h/q?x=1")).
    + vm_compute. reflexivity.
    + set_solver.
Defined.

End ExtractorResults.

(** ** The keyword filter *)

Section KeywordFilter.

Import Py.

Lemma for_each_related {A S} (R : S -> S -> Prop) (b1 b2 : A -> S -> result S)
    (l : list A) :
  (forall x s1 s2 s1', R s1 s2 -> b1 x s1 = Ok s1' ->
                       exists s2', b2 x s2 = Ok s2' /\ R s1' s2') ->
  forall s1 s2 s1', R s1 s2 -> for_each b1 l s1 = Ok s1' ->
                    exists s2', for_each b2 l s2 = Ok s2' /\ R s1' s2'.
Proof.
  intros Hstep. induction l as [| x l IH]; intros s1 s2 s1' HR Hrun;
    simpl in Hrun.
  - injection Hrun as <-. exists s2. split; [reflexivity | exact HR].
  - destruct (b1 x s1) as [t1 |] eqn:H1; simpl in Hrun; [| discriminate].
    destruct (Hstep x s1 s2 t1 HR H1) as (t2 & H2 & HR').
    destruct (IH t1 t2 s1' HR' Hrun) as (s2' & Hrun2 & HR'').
    exists s2'. split; [| exact HR'']. simpl. rewrite H2. exact Hrun2.
Qed.

Lemma add_candidate_unfiltered base kws ctx c (s1 s2 s1' : gset string) :
  s1 ⊆ s2 -> App.add_candidate base kws ctx c s1 = Ok s1' ->
  exists s2', App.add_candidate base [] ctx c s2 = Ok s2' /\ s1' ⊆ s2'.
Proof.
  unfold App.add_candidate. intros Hsub H.
  destruct (App.abs_url base c) as [joined |]; simpl in *; [| discriminate].
  destruct (App.normalize_url joined) as [full |]; simpl in *; [| discriminate].
  destruct (App.is_image_url full && negb (App.is_excluded full)).
  - eexists. split; [reflexivity |].
    destruct (_ || _) in H; injection H as <-; set_solver.
  - injection H as <-. eexists. split; [reflexivity | exact Hsub].
Qed.

(** X6: the keyword filter only removes images: where the extractor of
    [app.py] returns under a filter it returns without one too, and what it
    returns under the filter is part of what it returns without. *)
Theorem X6_keywords_only_remove base html kws imgs :
  App.extract_images_from_html base html kws = Ok imgs ->
  exists all,
    App.extract_images_from_html base html [] = Ok all /\ imgs ⊆ all.
Proof.
  set (R := fun s1 s2 : gset string => s1 ⊆ s2).
  assert (Hadd : forall ctx c s1 s2 s1', R s1 s2 ->
            App.add_candidate base kws ctx c s1 = Ok s1' ->
            exists s2', App.add_candidate base [] ctx c s2 = Ok s2' /\ R s1' s2').
  { intros ctx c s1 s2 s1' HR H. eapply add_candidate_unfiltered; eassumption. }
  assert (Himg : forall x s1 s2 s1', R s1 s2 ->
            App.scan_img base kws x s1 = Ok s1' ->
            exists s2', App.scan_img base [] x s2 = Ok s2' /\ R s1' s2').
  { intros x s1 s2 s1' HR H. unfold App.scan_img in *.
    match type of H with
    | (mbind _ ?r = _) => destruct r as [t1 |] eqn:H1
    end; simpl in H; [| discriminate].
    match goal with
    | |- exists s2', mbind _ (for_each ?b2 _ _) = _ /\ _ =>
        assert (Hdirect : exists t2, for_each b2 (map (get x) App.img_attributes) s2
                                     = Ok t2 /\ R t1 t2)
    end.
    { eapply (for_each_related R); [| exact HR | exact H1].
      intros [[| a c] |] u1 u2 u1' Hu Hc;
        try (injection Hc as <-; eexists; split; [reflexivity | exact Hu]).
      eapply Hadd; eassumption. }
    destruct Hdirect as (t2 & H2 & HR').
    rewrite H2. simpl.
    destruct (get x "srcset") as [[| a srcset] |];
      try (injection H as <-; eexists; split; [reflexivity | exact HR']).
    eapply (for_each_related R); [| exact HR' | exact H].
    intros part u1 u2 u1' Hu Hc. cbv beta in *.
    destruct (App.first_token part) as [url |]; simpl in *; [| discriminate].
    eapply Hadd; eassumption. }
  assert (Hstyle : forall x s1 s2 s1', R s1 s2 ->
            App.scan_inline_style base kws x s1 = Ok s1' ->
            exists s2', App.scan_inline_style base [] x s2 = Ok s2' /\ R s1' s2').
  { intros x s1 s2 s1' HR H. unfold App.scan_inline_style in *.
    eapply (for_each_related R); [| exact HR | exact H].
    intros c u1 u2 u1' Hu Hc. cbv beta in *. eapply Hadd; eassumption. }
  assert (Hblock : forall x s1 s2 s1', R s1 s2 ->
            App.scan_style_block base kws x s1 = Ok s1' ->
            exists s2', App.scan_style_block base [] x s2 = Ok s2' /\ R s1' s2').
  { intros x s1 s2 s1' HR H. unfold App.scan_style_block in *.
    eapply (for_each_related R); [| exact HR | exact H].
    intros c u1 u2 u1' Hu Hc. cbv beta in *. eapply Hadd; eassumption. }
  assert (Hattr : forall a x s1 s2 s1', R s1 s2 ->
            App.scan_attr a base kws x s1 = Ok s1' ->
            exists s2', App.scan_attr a base [] x s2 = Ok s2' /\ R s1' s2').
  { intros a x s1 s2 s1' HR H. unfold App.scan_attr in *.
    destruct (get x a) as [[| ch c] |];
      try (injection H as <-; eexists; split; [reflexivity | exact HR]).
    eapply Hadd; eassumption. }
  assert (Hvideo : forall x s1 s2 s1', R s1 s2 ->
            App.scan_video base kws x s1 = Ok s1' ->
            exists s2', App.scan_video base [] x s2 = Ok s2' /\ R s1' s2').
  { intros x s1 s2 s1' HR H. unfold App.scan_video in *.
    destruct (get x "poster") as [[| ch c] |];
      try (injection H as <-; eexists; split; [reflexivity | exact HR]).
    eapply Hadd; eassumption. }
  unfold App.extract_images_from_html. intros Hrun.
  repeat match type of Hrun with
         | (mbind _ ?r = _) =>
             let s := fresh "s" in let E := fresh "E" in
             destruct r as [s |] eqn:E; simpl in Hrun; [| discriminate]
         end.
  assert (R0 : R ∅ ∅) by (unfold R; set_solver).
  destruct (for_each_related R _ _ _ Himg _ _ _ R0 E) as (t & H0 & R1).
  rewrite H0; cbn [mbind result_bind rbind].
  destruct (for_each_related R _ _ _ Hstyle _ _ _ R1 E0) as (t0 & H1 & R2).
  rewrite H1; cbn [mbind result_bind rbind].
  destruct (for_each_related R _ _ _ Hblock _ _ _ R2 E1) as (t1 & H2 & R3).
  rewrite H2; cbn [mbind result_bind rbind].
  destruct (for_each_related R _ _ _ (Hattr _) _ _ _ R3 E2) as (t2 & H3 & R4).
  rewrite H3; cbn [mbind result_bind rbind].
  destruct (for_each_related R _ _ _ (Hattr _) _ _ _ R4 E3) as (t3 & H5 & R5).
  rewrite H5; cbn [mbind result_bind rbind].
  destruct (for_each_related R _ _ _ Hvideo _ _ _ R5 Hrun) as (t4 & H4 & R6).
  exists t4. split; [exact H4 | exact R6].
Qed.

Lemma X6_witness :
  exists all,
    App.extract_images_from_html "http://h/p" (Some Examples.page_banner) []
      = Ok all
    /\ ({[ "http://h/banner.png" ]} : gset string) ⊆ all.
Proof.
  apply (X6_keywords_only_remove "http://h/p" (Some Examples.page_banner)
           ["banner"]).
  vm_compute. reflexivity.
Defined.

End KeywordFilter.

(** ** The sizes the probe returns *)

Section ProbeRounding.

Import Py.

Lemma round_half_even_exact k d :
  (0 < d)%Z -> Float.round_half_even (k * d) d = k.
Proof.
  intros Hd. unfold Float.round_half_even.
  rewrite Z.mod_mul, Z.div_mul by lia.
  destruct (2 * 0 <? d)%Z eqn:E; [reflexivity | apply Z.ltb_ge in E; lia].
Qed.

Lemma round_half_even_near n d :
  (0 < d)%Z ->
  (2 * (Float.round_half_even n d * d - n) <= d)%Z
  /\ (2 * (n - Float.round_half_even n d * d) <= d)%Z
  /\ ((0 <= n)%Z -> (0 <= Float.round_half_even n d)%Z).
Proof.
  intros Hd. unfold Float.round_half_even.
  pose proof (Z.div_mod n d ltac:(lia)) as Hdm.
  pose proof (Z.mod_pos_bound n d Hd) as Hr.
  assert (Hq : (0 <= n -> 0 <= n / d)%Z) by (intros; apply Z.div_pos; lia).
  set (q := (n / d)%Z) in *. set (r := (n mod d)%Z) in *.
  destruct (2 * r <? d)%Z eqn:E1; [| destruct (d <? 2 * r)%Z eqn:E2;
                                     [| destruct (Z.even q)]];
    split_and!; try nia; intros H; specialize (Hq H); lia.
Qed.

Lemma scaled_nonneg m s : (0 <= m)%Z -> (0 <= Float.scaled m s)%Q.
Proof.
  intros Hm. unfold Float.scaled. destruct (0 <=? s)%Z eqn:E.
  - apply Z.leb_le in E. unfold Qle, inject_Z. cbn [Qnum Qden].
    pose proof (Z.pow_nonneg 2 s ltac:(lia)). nia.
  - rewrite Qred_correct. unfold Qle. cbn [Qnum Qden]. lia.
Qed.

Lemma nearest_nonneg q x :
  (0 <= q)%Q -> Float.nearest q = Some x -> (0 <= x)%Q.
Proof.
  intros Hq. unfold Float.nearest.
  destruct q as [n d]. cbn [Qnum Qden]. unfold Qle in Hq. cbn [Qnum Qden] in Hq.
  destruct n as [| p | p]; [| | lia].
  - intros H. injection H as <-. apply Qle_refl.
  - unfold Float.nearest_pos.
    set (s := Z.max _ _). set (m := if (0 <=? s)%Z then _ else _).
    destruct (_ && _); [discriminate |]. intros H. injection H as <-.
    apply scaled_nonneg. unfold m.
    destruct (0 <=? s)%Z eqn:E.
    + apply round_half_even_near; [| lia].
      apply Z.leb_le in E. pose proof (Z.pow_pos_nonneg 2 s ltac:(lia) E). nia.
    + apply round_half_even_near; [lia |].
      pose proof (Z.pow_nonneg 2 (- s) ltac:(lia)). nia.
Qed.

Lemma default_nearest_nonneg q :
  (0 <= q)%Q -> (0 <= default 0%Q (Float.nearest q))%Q.
Proof.
  intros Hq. destruct (Float.nearest q) as [x |] eqn:E; [| apply Qle_refl].
  exact (nearest_nonneg q x Hq E).
Qed.

Lemma int_digits_nonneg s acc : (0 <= acc)%Z -> (0 <= int_digits acc s)%Z.
Proof.
  revert acc. induction s as [| c s IH]; intros acc Hacc; simpl; [exact Hacc |].
  apply IH. lia.
Qed.

Lemma int_nonneg s : (0 <= int s)%Z.
Proof. apply int_digits_nonneg. lia. Qed.

Lemma get_head_size_nonneg W i u : (0 <= Probe.get_head_size W i u)%Q.
Proof.
  unfold Probe.get_head_size.
  destruct (http_head W i u) as [| status [cl |]]; try apply Qle_refl.
  destruct (truthy cl && isdigit cl); [| apply Qle_refl].
  unfold Probe.kb_of_length.
  destruct (Probe.int_of_digits cl) as [n |] eqn:En; [| apply Qle_refl].
  assert (Hn : (0 <= n)%Z).
  { unfold Probe.int_of_digits in En. destruct (_ <=? _)%nat; [| discriminate].
    injection En as <-. apply int_nonneg. }
  cbn [mbind option_bind].
  destruct (Float.of_int n) as [x |] eqn:Ex; [| apply Qle_refl].
  cbn [mbind option_bind]. apply default_nearest_nonneg.
  assert (0 <= x)%Q.
  { eapply nearest_nonneg; [| exact Ex]. unfold Qle, inject_Z. cbn. lia. }
  unfold Qdiv. apply Qmult_le_0_compat; [assumption |]. discriminate.
Qed.

Lemma worker_nonneg W i u : (0 <= Probe.worker W i u)%Q.
Proof.
  unfold Probe.worker, Float.round2. apply default_nearest_nonneg.
  pose proof (get_head_size_nonneg W i u) as H.
  destruct (Probe.get_head_size W i u) as [n d].
  unfold Qle in *. cbn [Qnum Qden] in *.
  destruct (round_half_even_near (100 * n) (Z.pos d) ltac:(lia)) as (_ & _ & Hk).
  specialize (Hk ltac:(lia)). lia.
Qed.

(** *** Lengths below [2^53] *)

Lemma exponent_pow2 n b :
  (0 < n)%Z -> (0 <= b)%Z ->
  Float.exponent n (2 ^ b) = (Z.log2 n - b)%Z.
Proof.
  intros Hn Hb. unfold Float.exponent. rewrite Z.log2_pow2 by exact Hb.
  destruct (Z.log2_spec n Hn) as [Hlo _]. set (a := Z.log2 n) in *.
  assert (Ha : (0 <= a)%Z) by apply Z.log2_nonneg.
  destruct (0 <=? a - b)%Z eqn:E.
  - apply Z.leb_le in E.
    rewrite <- Z.pow_add_r by lia. replace (b + (a - b))%Z with a by lia.
    destruct (n <? 2 ^ a)%Z eqn:E'; [apply Z.ltb_lt in E'; lia | reflexivity].
  - apply Z.leb_gt in E.
    assert (H : (2 ^ b = 2 ^ a * 2 ^ (- (a - b)))%Z).
    { rewrite <- Z.pow_add_r by lia. f_equal. lia. }
    pose proof (Z.pow_pos_nonneg 2 (- (a - b)) ltac:(lia) ltac:(lia)).
    destruct (n * 2 ^ (- (a - b)) <? 2 ^ b)%Z eqn:E';
      [apply Z.ltb_lt in E'; nia | reflexivity].
Qed.

Lemma Qred_integer n : Qred (n # 1) = (n # 1)%Q.
Proof.
  unfold Qred.
  pose proof (Z.ggcd_correct_divisors n 1) as Hdiv.
  pose proof (Z.ggcd_gcd n 1) as Hg.
  destruct (Z.ggcd n 1) as [g [aa bb]]. cbn [fst] in Hg.
  rewrite Z.gcd_1_r in Hg. subst g. destruct Hdiv as [Ha Hb].
  rewrite Z.mul_1_l in Ha, Hb. subst aa bb. reflexivity.
Qed.

Lemma nearest_pos_pow2 n b :
  (0 < n < 2 ^ 53)%Z -> (0 <= b <= 1022)%Z ->
  Float.nearest_pos n (2 ^ b) = Some (Qred (n # Z.to_pos (2 ^ b))).
Proof.
  intros [Hn Hn53] Hb. unfold Float.nearest_pos.
  rewrite exponent_pow2 by lia.
  assert (Ha : (0 <= Z.log2 n < 53)%Z).
  { split; [apply Z.log2_nonneg | apply Z.log2_lt_pow2; lia]. }
  set (a := Z.log2 n) in *.
  rewrite Z.max_l by lia.
  pose proof (Z.pow_pos_nonneg 2 b ltac:(lia) ltac:(lia)) as Hpb.
  destruct (0 <=? a - b - 52)%Z eqn:E.
  - apply Z.leb_le in E. assert (a = 52 /\ b = 0)%Z as [Ea Eb] by lia.
    rewrite Ea, Eb. change (52 - 0 - 52)%Z with 0%Z.
    change (2 ^ 0)%Z with 1%Z. rewrite !Z.mul_1_r.
    assert (Hm : Float.round_half_even n 1 = n).
    { rewrite <- (Z.mul_1_r n) at 1. apply round_half_even_exact. lia. }
    rewrite Hm.
    destruct (2 ^ 1024 <=? n)%Z eqn:E'.
    { apply Z.leb_le in E'.
      assert (2 ^ 53 < 2 ^ 1024)%Z by (apply Z.pow_lt_mono_r; lia). lia. }
    cbn [andb]. f_equal. unfold Float.scaled. cbn [Z.leb Z.compare].
    change (2 ^ 0)%Z with 1%Z. rewrite Z.mul_1_r.
    symmetry. apply Qred_integer.
  - apply Z.leb_gt in E. cbn [andb].
    set (t := (- (a - b - 52))%Z).
    assert (Ht : (t = (52 - a) + b)%Z) by (unfold t; lia).
    assert (Hpow : (2 ^ t = 2 ^ (52 - a) * 2 ^ b)%Z).
    { rewrite Ht. apply Z.pow_add_r; lia. }
    rewrite Hpow, Z.mul_assoc, round_half_even_exact by lia.
    f_equal. unfold Float.scaled.
    destruct (0 <=? a - b - 52)%Z eqn:E2; [apply Z.leb_le in E2; lia |].
    apply Qred_complete. unfold Qeq. cbn [Qnum Qden].
    fold t. rewrite Hpow.
    pose proof (Z.pow_pos_nonneg 2 (52 - a) ltac:(lia) ltac:(lia)) as Hpa.
    rewrite !Z2Pos.id by nia. ring.
Qed.

Lemma of_int_exact n :
  (0 <= n < 2 ^ 53)%Z -> Float.of_int n = Some (inject_Z n).
Proof.
  intros [H0 H53]. unfold Float.of_int, Float.nearest, inject_Z.
  cbn [Qnum Qden]. destruct n as [| p | p]; [reflexivity | | lia].
  change (Z.pos 1) with (2 ^ 0)%Z.
  rewrite nearest_pos_pow2 by lia. f_equal.
  change (Z.to_pos (2 ^ 0)) with 1%positive. apply Qred_integer.
Qed.

Lemma div_1024_exact n :
  (0 <= n < 2 ^ 53)%Z ->
  Float.div (inject_Z n) 1024 = Some (Qred (n # 1024)).
Proof.
  intros [H0 H53]. unfold Float.div, Float.nearest.
  assert (Hq : (inject_Z n / 1024 = (n * 1 # 1024))%Q) by reflexivity.
  rewrite Hq. cbn [Qnum Qden]. rewrite Z.mul_1_r.
  destruct n as [| p | p]; [reflexivity | | lia].
  change (Z.pos 1024) with (2 ^ 10)%Z.
  rewrite nearest_pos_pow2 by lia. reflexivity.
Qed.

Lemma kb_of_length_exact cl :
  (String.length cl <= Probe.max_str_digits)%nat -> (int cl < 2 ^ 53)%Z ->
  Probe.kb_of_length cl = Some (Qred (int cl # 1024)).
Proof.
  intros Hlen Hint. unfold Probe.kb_of_length, Probe.int_of_digits.
  destruct (String.length cl <=? Probe.max_str_digits)%nat eqn:E;
    [| apply Nat.leb_gt in E; lia].
  pose proof (int_nonneg cl) as H0.
  cbn [mbind option_bind]. rewrite of_int_exact by lia.
  cbn [mbind option_bind]. apply div_1024_exact. lia.
Qed.

Lemma round2_spec x :
  (0 <= x)%Q ->
  exists k : Z,
    Float.round2 x = Float.nearest (k # 100)
    /\ (0 <= k)%Z
    /\ (x - (1 # 200) <= k # 100)%Q /\ (k # 100 <= x + (1 # 200))%Q.
Proof.
  intros Hx. destruct x as [n d]. unfold Float.round2. cbn [Qnum Qden].
  unfold Qle in Hx. cbn [Qnum Qden] in Hx.
  destruct (round_half_even_near (100 * n) (Z.pos d) ltac:(lia))
    as (Hhi & Hlo & Hpos).
  set (k := Float.round_half_even (100 * n) (Z.pos d)) in *.
  exists k. split_and!; [reflexivity | apply Hpos; lia | |];
    unfold Qle, Qminus, Qplus, Qopp; cbn [Qnum Qden];
    rewrite !Pos2Z.inj_mul; nia.
Qed.

Lemma nearest_hundredths k :
  (0 <= k < 2 ^ 52)%Z -> exists x, Float.nearest (k # 100) = Some x.
Proof.
  intros [H0 Hk]. unfold Float.nearest. cbn [Qnum Qden].
  destruct k as [| p | p]; [eauto | | lia].
  unfold Float.nearest_pos.
  assert (He : (Float.exponent (Z.pos p) 100 < 52)%Z).
  { unfold Float.exponent.
    assert (Hlog : (Z.log2 (Z.pos p) < 52)%Z) by (apply Z.log2_lt_pow2; lia).
    change (Z.log2 100) with 6%Z.
    repeat match goal with |- context [if ?c then _ else _] => destruct c end;
      lia. }
  destruct (0 <=? Z.max (Float.exponent (Z.pos p) 100 - 52) (-1074))%Z eqn:E;
    [apply Z.leb_le in E; lia |].
  cbn [andb]. eauto.
Qed.

(** X8: every size the probe returns is a [float] that is not negative. For
    a reply whose length is a string of at most 4300 digits and is below
    [2^53], the quotient [int(cl)/1024.0] is exact, and the size is the
    [float] nearest to that quotient rounded to two decimals, which is
    within half a hundredth of it. *)
Theorem X8_probe_sizes_rounded W urls concurrency timeout kb i u :
  Probe.fetch_sizes W urls concurrency timeout = Probe.Sizes kb ->
  urls !! i = Some u ->
  exists x : Q,
    kb !! i = Some x /\ (0 <= x)%Q
    /\ forall status cl,
         http_head W i u = HeadReply status (Some cl) -> isdigit cl = true ->
         (String.length cl <= 4300)%nat -> (int cl < 2 ^ 53)%Z ->
         Probe.get_head_size W i u = Qred (int cl # 1024)
         /\ exists k : Z,
              Float.nearest (k # 100) = Some x
              /\ (0 <= k)%Z
              /\ ((int cl # 1024) - (1 # 200) <= k # 100)%Q
              /\ (k # 100 <= (int cl # 1024) + (1 # 200))%Q.
Proof.
  unfold Probe.fetch_sizes, Probe.fetch_sizes_async. intros Hrun Hu.
  destruct (concurrency <? 0)%Z; [discriminate |].
  destruct ((concurrency =? 0)%Z && bool_decide (urls <> [])); [discriminate |].
  injection Hrun as <-.
  exists (Probe.worker W i u).
  rewrite list_lookup_imap, Hu. split; [reflexivity |].
  split; [apply worker_nonneg |].
  intros status cl Hhead Hdigit Hlen Hint.
  assert (Hsize : Probe.get_head_size W i u = Qred (int cl # 1024)).
  { unfold Probe.get_head_size. rewrite Hhead.
    assert (Ht : truthy cl = true).
    { unfold isdigit in Hdigit. apply andb_true_iff in Hdigit. tauto. }
    rewrite Ht, Hdigit. cbn [andb].
    rewrite kb_of_length_exact by assumption. reflexivity. }
  split; [exact Hsize |].
  unfold Probe.worker. rewrite Hsize.
  pose proof (int_nonneg cl) as H0.
  assert (Hx : (0 <= Qred (int cl # 1024))%Q).
  { rewrite Qred_correct. unfold Qle. cbn [Qnum Qden]. lia. }
  destruct (round2_spec _ Hx) as (k & -> & Hk0 & Hlo & Hhi).
  rewrite Qred_correct in Hlo, Hhi.
  destruct (nearest_hundredths k) as [y Hy].
  { split; [exact Hk0 |].
    unfold Qle, Qplus in Hhi. cbn [Qnum Qden] in Hhi.
    assert (2 ^ 53 * 204800 + 1024 * 200 <= 2 ^ 52 * 204800 * 100)%Z
      by (vm_compute; discriminate).
    lia. }
  exists k. rewrite Hy. split_and!; [reflexivity | exact Hk0 | exact Hlo | exact Hhi].
Qed.

Lemma X8_witness :
  (0 <= 3 # 2)%Q
  /\ Probe.get_head_size Examples.world_heads 3 "u3" = Qred (int "1536" # 1024)
  /\ exists k : Z,
       Float.nearest (k # 100) = Some (3 # 2)%Q
       /\ (0 <= k)%Z
       /\ ((int "1536" # 1024) - (1 # 200) <= k # 100)%Q
       /\ (k # 100 <= (int "1536" # 1024) + (1 # 200))%Q.
Proof.
  destruct (X8_probe_sizes_rounded Examples.world_heads
              ["u0"; "u1"; "u2"; "u3"] 20 8 [0%Q; 0%Q; 0%Q; (3 # 2)%Q] 3 "u3"
              ltac:(vm_compute; reflexivity) eq_refl)
    as (x & Hx & Hnn & Hrest).
  injection Hx as <-. split; [exact Hnn |].
  apply (Hrest 200%nat "1536").
  - reflexivity.
  - reflexivity.
  - vm_compute. lia.
  - vm_compute. reflexivity.
Defined.

End ProbeRounding.

(** ** The shape of the result table *)

Section ReducerTable.

Import Py Reducer.

Lemma StronglySorted_sublist {A} (R : relation A) (l1 l2 : list A) :
  l1 `sublist_of` l2 -> StronglySorted R l2 -> StronglySorted R l1.
Proof.
  intros Hsub. induction Hsub as [| x l1 l2 Hsub IH | x l1 l2 Hsub IH];
    intros Hs.
  - constructor.
  - apply StronglySorted_inv in Hs as [Hs Hx]. constructor; [apply IH, Hs |].
    rewrite Forall_forall in *. intros y Hy. apply Hx.
    eapply elem_of_sublist; eassumption.
  - apply StronglySorted_inv in Hs as [Hs _]. apply IH, Hs.
Qed.

Lemma drop_duplicates_from_sublist names l :
  drop_duplicates_from names l `sublist_of` l.
Proof.
  revert names. induction l as [| e l IH]; intros names; simpl.
  - constructor.
  - destruct (elem (e_filename e) names).
    + apply sublist_cons. apply IH.
    + apply sublist_skip. apply IH.
Qed.


Variable sort_values : list Entry -> list Entry.
Hypothesis sort_values_perm : forall l, sort_values l ≡ₚ l.
Hypothesis sort_values_sorted : forall l, Sorted size_desc (sort_values l).

Lemma deduplicated_sorted items :
  StronglySorted size_desc (deduplicated sort_values items).
Proof.
  unfold deduplicated, drop_duplicates.
  eapply StronglySorted_sublist; [apply drop_duplicates_from_sublist |].
  apply Sorted_StronglySorted; [apply _ | apply sort_values_sorted].
Qed.

(** X9: the table is in the order of decreasing size, no two of its rows
    have the same file name, every row is one of the items given, under the
    last component of its URL cut at its first question mark, and when the
    size filter is applied every row is within the bounds, the upper one
    counting only when it is positive. *)
Theorem X9_table_sorted_and_filtered apply_size min_size max_size items :
  let table := reduce sort_values apply_size min_size max_size items in
  StronglySorted by_size_desc table
  /\ NoDup (Filename <$> table)
  /\ (forall r, r ∈ table ->
        (URL r, Size r) ∈ items /\ Filename r = filename_of (URL r))
  /\ (apply_size = true -> forall r, r ∈ table ->
        (min_size <= Size r)%Q /\ ((0 < max_size)%Q -> (Size r <= max_size)%Q)).
Proof.
  intros table. unfold reduce in table.
  destruct items as [| item items].
  { subst table. split_and!.
    - constructor.
    - constructor.
    - intros r Hr. inversion Hr.
    - intros _ r Hr. inversion Hr. }
  set (its := item :: items) in *.
  set (rows := row_of <$> deduplicated sort_values its) in *.
  assert (Hsorted : StronglySorted by_size_desc rows).
  { unfold rows. eapply StronglySorted_fmap; [| apply deduplicated_sorted].
    intros x y Hxy. exact Hxy. }
  assert (Hnd : NoDup (Filename <$> rows)).
  { unfold rows. rewrite <- list_fmap_compose.
    apply (drop_duplicates_from_NoDup []). }
  assert (Hrows : forall r, r ∈ rows ->
            (URL r, Size r) ∈ its /\ Filename r = filename_of (URL r)).
  { intros r Hr. unfold rows in Hr.
    apply list_elem_of_fmap in Hr as (e & -> & He).
    unfold deduplicated, drop_duplicates in He.
    apply drop_duplicates_from_elem in He as [He _].
    rewrite sort_values_perm in He.
    apply list_elem_of_fmap in He as ([u sz] & -> & Hin).
    split; [exact Hin | reflexivity]. }
  destruct apply_size.
  - assert (Hsub : table `sublist_of` rows) by apply sublist_filter.
    split_and!.
    + eapply StronglySorted_sublist; eassumption.
    + eapply sublist_NoDup; [exact Hnd |]. apply fmap_sublist. exact Hsub.
    + intros r Hr. apply Hrows. eapply elem_of_sublist; eassumption.
    + intros _ r Hr. unfold table in Hr.
      apply list_elem_of_filter in Hr as [Hin _].
      unfold in_size_range in Hin.
      destruct (Qle_bool max_size 0) eqn:Emax; cbn [negb] in Hin.
      * apply Qle_bool_iff in Hin, Emax. split; [exact Hin |].
        intros Hpos. exfalso. exact (Qlt_not_le _ _ Hpos Emax).
      * apply andb_true_iff in Hin as [Hlo Hhi].
        apply Qle_bool_iff in Hlo, Hhi. split; [exact Hlo | intros _; exact Hhi].
  - split_and!; [exact Hsorted | exact Hnd | exact Hrows | discriminate].
Qed.

End ReducerTable.

Lemma X9_witness :
  let table := Reducer.reduce Examples.sort_by_size true 6 0
                 Examples.items_same_name in
  StronglySorted by_size_desc table
  /\ NoDup (Reducer.Filename <$> table)
  /\ (forall r, r ∈ table ->
        (Reducer.URL r, Reducer.Size r) ∈ Examples.items_same_name
        /\ Reducer.Filename r = Reducer.filename_of (Reducer.URL r))
  /\ (true = true -> forall r, r ∈ table ->
        (6 <= Reducer.Size r)%Q
        /\ ((0 < 0)%Q -> (Reducer.Size r <= 0)%Q)).
Proof.
  apply (X9_table_sorted_and_filtered Examples.sort_by_size
           (merge_sort_Permutation _) (Sorted_merge_sort _)
           true 6%Q 0%Q Examples.items_same_name).
Defined.

(** ** File names, tokens and file types *)

Section FileNames.

Import Py Reducer.

Ltac by_cases_on_bits c :=
  destruct c as [[] [] [] [] [] [] [] []]; vm_compute; try reflexivity;
  try discriminate; try tauto.

Lemma ascii_eqb_sym a b : ascii_eqb a b = ascii_eqb b a.
Proof.
  destruct (ascii_eqb a b) eqn:E1, (ascii_eqb b a) eqn:E2; try reflexivity.
  - apply ascii_eqb_eq in E1. subst. rewrite ascii_eqb_refl in E2. discriminate.
  - apply ascii_eqb_eq in E2. subst. rewrite ascii_eqb_refl in E1. discriminate.
Qed.

Lemma append_assoc (a b c : string) : (a +:+ b) +:+ c = a +:+ (b +:+ c).
Proof.
  induction a as [| x a IH]; [reflexivity |].
  change (String x ((a +:+ b) +:+ c) = String x (a +:+ (b +:+ c))).
  rewrite IH. reflexivity.
Qed.

Lemma append_nil_r (a : string) : a +:+ EmptyString = a.
Proof.
  induction a as [| x a IH]; [reflexivity |].
  change (String x (a +:+ EmptyString) = String x a).
  rewrite IH. reflexivity.
Qed.

Lemma split_elem_sub d sep s x :
  has_char d s = false -> x ∈ split sep s -> has_char d x = false.
Proof.
  revert x. induction s as [| c s IH]; intros x Hs Hx.
  - simpl in Hx. apply list_elem_of_singleton in Hx. subst x. reflexivity.
  - simpl in Hs. apply orb_false_iff in Hs as [Hc Hs]. simpl in Hx.
    destruct (ascii_eqb c sep).
    + apply elem_of_cons in Hx as [-> | Hx]; [reflexivity | apply IH; assumption].
    + pose proof (split_not_nil sep s) as Hne.
      destruct (split sep s) as [| h t]; [congruence |].
      apply elem_of_cons in Hx as [-> | Hx].
      * simpl. rewrite Hc. apply IH; [exact Hs | left].
      * apply IH; [exact Hs | right; exact Hx].
Qed.

Lemma split_elem_absent sep s x : x ∈ split sep s -> has_char sep x = false.
Proof.
  revert x. induction s as [| c s IH]; intros x Hx.
  - simpl in Hx. apply list_elem_of_singleton in Hx. subst x. reflexivity.
  - simpl in Hx. destruct (ascii_eqb c sep) eqn:E.
    + apply elem_of_cons in Hx as [-> | Hx]; [reflexivity | apply IH; assumption].
    + pose proof (split_not_nil sep s) as Hne.
      destruct (split sep s) as [| h t]; [congruence |].
      apply elem_of_cons in Hx as [-> | Hx].
      * simpl. rewrite ascii_eqb_sym, E. apply IH. left.
      * apply IH. right. exact Hx.
Qed.

Lemma last_item_elem (l : list string) : l <> [] -> last_item l ∈ l.
Proof.
  intros Hne. unfold last_item.
  rewrite (app_removelast_last EmptyString Hne) at 2.
  apply elem_of_app. right. left.
Qed.

Lemma filename_of_absent d u :
  d = "/"%char \/ d = "?"%char \/ has_char d u = false ->
  has_char d (filename_of u) = false.
Proof.
  unfold filename_of. intros Hd.
  pose proof (last_item_elem _ (split_not_nil "/" u)) as Hlast.
  set (seg := last_item (split "/" u)) in *.
  assert (Hhd : hd EmptyString (split "?" seg) ∈ split "?" seg).
  { pose proof (split_not_nil "?" seg) as Hne.
    destruct (split "?" seg); [congruence | left]. }
  destruct Hd as [-> | [-> | Hd]].
  - eapply split_elem_sub; [| exact Hhd]. eapply split_elem_absent. exact Hlast.
  - eapply split_elem_absent. exact Hhd.
  - eapply split_elem_sub; [| exact Hhd]. eapply split_elem_sub; eassumption.
Qed.

(** *** Tokens *)

Lemma alnum_runs_elem s p :
  p ∈ alnum_runs s ->
  p <> EmptyString /\ forall c, has_char c p = true -> is_alnum c = true.
Proof.
  revert p. induction s as [| a s IH]; intros p Hp; [inversion Hp |].
  assert (Hone : forall c, has_char c (String a EmptyString) = true ->
                           is_alnum a = true -> is_alnum c = true).
  { intros c Hc Ha. simpl in Hc. rewrite orb_false_r in Hc.
    apply ascii_eqb_eq in Hc. subst c. exact Ha. }
  simpl in Hp. destruct (is_alnum a) eqn:Ea; [| apply IH; exact Hp].
  destruct s as [| b s'].
  - apply list_elem_of_singleton in Hp. subst p.
    split; [discriminate | intros c Hc; apply Hone; [exact Hc | reflexivity]].
  - destruct (is_alnum b) eqn:Eb.
    + destruct (alnum_runs (String b s')) as [| h t] eqn:Eruns.
      * apply list_elem_of_singleton in Hp. subst p.
        split; [discriminate | intros c Hc; apply Hone; [exact Hc | reflexivity]].
      * apply elem_of_cons in Hp as [-> | Hp]; [| apply IH; right; exact Hp].
        split; [discriminate |]. intros c Hc.
        change (has_char c (String a h)) with (ascii_eqb c a || has_char c h)
          in Hc.
        apply orb_true_iff in Hc as [Hc | Hc].
        -- apply ascii_eqb_eq in Hc. subst c. exact Ea.
        -- destruct (IH h ltac:(left)) as [_ Hh]. apply Hh. exact Hc.
    + apply elem_of_cons in Hp as [-> | Hp]; [| apply IH; exact Hp].
      split; [discriminate | intros c Hc; apply Hone; [exact Hc | reflexivity]].
Qed.

(** *** Extensions *)

Lemma lower_char_eqb d c :
  is_alpha d = false -> ascii_eqb d (lower_char c) = ascii_eqb d c.
Proof.
  intros Hd. destruct (ascii_eqb d c) eqn:E.
  - apply ascii_eqb_eq in E. subst c. apply ascii_eqb_eq.
    revert Hd. by_cases_on_bits d.
  - destruct (ascii_eqb d (lower_char c)) eqn:E'; [| reflexivity].
    apply ascii_eqb_eq in E'. subst d. exfalso. revert Hd E.
    by_cases_on_bits c.
Qed.

Lemma has_char_lower d s :
  is_alpha d = false -> has_char d (lower s) = has_char d s.
Proof.
  intros Hd. induction s as [| c s IH]; [reflexivity |]. simpl.
  rewrite lower_char_eqb, IH by exact Hd. reflexivity.
Qed.

Lemma lstrip_absent c s :
  has_char c s = false -> lstrip_by (ascii_eqb c) s = s.
Proof.
  destruct s as [| a s]; [reflexivity |]. simpl. intros H.
  apply orb_false_iff in H as [-> _]. reflexivity.
Qed.

Lemma rsplit_at_spec c s h t :
  rsplit_at c s = (h, t) -> s = h +:+ t /\ has_char c t = false.
Proof.
  revert h t. induction s as [| a s IH]; intros h t H; simpl in H.
  - injection H as <- <-. split; reflexivity.
  - destruct (rsplit_at c s) as [h0 t0]. destruct (IH h0 t0 eq_refl) as [-> Ht0].
    destruct (truthy h0) eqn:Eh.
    + injection H as <- <-. split; [reflexivity | exact Ht0].
    + destruct h0; [| discriminate]. destruct (ascii_eqb a c) eqn:E.
      * injection H as <- <-. split; [reflexivity | exact Ht0].
      * injection H as <- <-. split; [reflexivity |]. simpl.
        rewrite ascii_eqb_sym, E. exact Ht0.
Qed.

Lemma filetype_of_cases f :
  filetype_of f = EmptyString
  \/ exists t, (splitext f).2 = String "." t /\ has_char "." t = false
               /\ filetype_of f = lower t.
Proof.
  unfold filetype_of, splitext.
  destruct (rsplit_at "/" f) as [dir base].
  destruct (has_char "." (lstrip_by (ascii_eqb ".") base)); [| left; reflexivity].
  destruct (rsplit_at "." f) as [h t] eqn:E.
  apply rsplit_at_spec in E as [_ Ht]. right. exists t.
  split; [reflexivity |]. split; [exact Ht |].
  cbn [snd].
  change (lstrip_by (ascii_eqb ".") ("." +:+ t))
    with (if ascii_eqb "." "." then lstrip_by (ascii_eqb ".") t
          else String "." t).
  rewrite ascii_eqb_refl, lstrip_absent by exact Ht.
  reflexivity.
Qed.

(** X10: the columns of a row. The file name has no slash and no question
    mark; there are at most four tokens, each a non-empty run of letters and
    digits; the file type has no dot and no upper-case letter. *)
Theorem X10_row_columns item :
  let r := row_of (entry_of item) in
  has_char "/" (Filename r) = false
  /\ has_char "?" (Filename r) = false
  /\ length (Parts r) <= 4
  /\ (forall p, p ∈ Parts r ->
        p <> EmptyString /\ forall c, has_char c p = true -> is_alnum c = true)
  /\ has_char "." (FileType r) = false
  /\ lower (FileType r) = FileType r.
Proof.
  destruct item as [u sz]. cbn [row_of entry_of Filename Parts FileType
                                e_filename e_url e_size fst snd].
  split_and!.
  - apply filename_of_absent. left. reflexivity.
  - apply filename_of_absent. right. left. reflexivity.
  - unfold parts_of. apply firstn_le_length.
  - intros p Hp. unfold parts_of in Hp.
    apply (alnum_runs_elem (splitext (filename_of u)).1).
    eapply elem_of_sublist; [exact Hp | apply sublist_take].
  - destruct (filetype_of_cases (filename_of u)) as [-> | (t & _ & Ht & ->)];
      [reflexivity |].
    rewrite has_char_lower by reflexivity. exact Ht.
  - destruct (filetype_of_cases (filename_of u)) as [-> | (t & _ & _ & ->)];
      [reflexivity |].
    apply lower_idempotent.
Qed.

(** *** The file type of an image *)

Lemma startswith_spec p s : startswith p s = true -> exists r, s = p +:+ r.
Proof.
  revert s. induction p as [| a p IH]; intros s H; [exists s; reflexivity |].
  destruct s as [| b s]; [discriminate |]. simpl in H.
  apply andb_true_iff in H as [Hab H]. apply ascii_eqb_eq in Hab. subst b.
  destruct (IH s H) as [r ->]. exists r. reflexivity.
Qed.

Lemma rev_app_append s acc :
  String.rev_app s acc = String.rev_app s EmptyString +:+ acc.
Proof.
  revert acc. induction s as [| a s IH]; intros acc; [reflexivity |].
  cbn [String.rev_app]. rewrite (IH (String a acc)), (IH (String a EmptyString)).
  rewrite append_assoc. reflexivity.
Qed.

Lemma rev_append a b : String.rev (a +:+ b) = String.rev b +:+ String.rev a.
Proof.
  unfold String.rev.
  assert (H : forall acc, String.rev_app (a +:+ b) acc
                          = String.rev_app b (String.rev_app a acc)).
  { induction a as [| x a IH]; intros acc; [reflexivity |].
    change (String x a +:+ b) with (String x (a +:+ b)).
    cbn [String.rev_app]. apply IH. }
  rewrite H. apply rev_app_append.
Qed.

Lemma rev_involutive s : String.rev (String.rev s) = s.
Proof.
  unfold String.rev.
  assert (H : forall acc acc',
            String.rev_app (String.rev_app s acc) acc'
            = String.rev_app acc (s +:+ acc')).
  { induction s as [| x s IH]; intros acc acc'; [reflexivity |].
    cbn [String.rev_app]. rewrite IH. reflexivity. }
  rewrite H. cbn [String.rev_app]. apply append_nil_r.
Qed.

Lemma endswith_spec suf s : endswith suf s = true -> exists pre, s = pre +:+ suf.
Proof.
  unfold endswith. intros H. apply startswith_spec in H as [r Hr].
  exists (String.rev r).
  rewrite <- (rev_involutive s), Hr, rev_append, rev_involutive. reflexivity.
Qed.

Lemma lower_app_inv u a b :
  lower u = a +:+ b ->
  exists a' b', u = a' +:+ b' /\ lower a' = a /\ lower b' = b.
Proof.
  revert u. induction a as [| x a IH]; intros u H.
  - exists EmptyString, u. split_and!; [reflexivity | reflexivity | exact H].
  - destruct u as [| c u]; [discriminate |].
    change (String (lower_char c) (lower u) = String x (a +:+ b)) in H.
    injection H as Hc H. destruct (IH u H) as (a' & b' & -> & Ha & Hb).
    exists (String c a'), b'. split_and!; [reflexivity | | exact Hb].
    change (String (lower_char c) (lower a') = String x a).
    rewrite Hc, Ha. reflexivity.
Qed.

Lemma split_absent sep s : has_char sep s = false -> split sep s = [s].
Proof.
  induction s as [| c s IH]; intros H; [reflexivity |].
  simpl in H. apply orb_false_iff in H as [Hc H]. simpl.
  rewrite ascii_eqb_sym, Hc, (IH H). reflexivity.
Qed.

Lemma split_present sep s :
  has_char sep s = true -> exists h x t, split sep s = h :: x :: t.
Proof.
  induction s as [| c s IH]; intros H; [discriminate |].
  pose proof (split_not_nil sep s) as Hne. simpl.
  destruct (ascii_eqb c sep) eqn:E.
  - destruct (split sep s) as [| x t]; [congruence | eauto].
  - simpl in H. rewrite ascii_eqb_sym, E in H.
    destruct (IH H) as (h & x & t & ->). eauto.
Qed.

Lemma last_item_split_cons sep c s :
  last_item (split sep (String c s))
  = if ascii_eqb c sep || has_char sep s then last_item (split sep s)
    else String c s.
Proof.
  unfold last_item. simpl. destruct (ascii_eqb c sep) eqn:E.
  - pose proof (split_not_nil sep s) as Hne.
    destruct (split sep s); [congruence | reflexivity].
  - cbn [orb]. destruct (has_char sep s) eqn:Hs.
    + destruct (split_present sep s Hs) as (h & x & t & ->). reflexivity.
    + rewrite (split_absent sep s Hs). reflexivity.
Qed.

Lemma last_item_split_app sep a b :
  has_char sep b = false ->
  last_item (split sep (a +:+ b)) = last_item (split sep a) +:+ b.
Proof.
  intros Hb. induction a as [| c a IH].
  - change (EmptyString +:+ b) with b. rewrite (split_absent sep b Hb).
    reflexivity.
  - change (String c a +:+ b) with (String c (a +:+ b)).
    rewrite !last_item_split_cons, has_char_app, Hb, orb_false_r.
    destruct (ascii_eqb c sep || has_char sep a); [exact IH | reflexivity].
Qed.

Lemma rsplit_at_absent c s :
  has_char c s = false -> rsplit_at c s = (EmptyString, s).
Proof.
  induction s as [| a s IH]; intros H; [reflexivity |].
  simpl in H. apply orb_false_iff in H as [Ha H]. simpl.
  rewrite (IH H). cbn [truthy]. rewrite ascii_eqb_sym, Ha. reflexivity.
Qed.

Lemma rsplit_at_app c g e :
  has_char c e = false ->
  rsplit_at c (g +:+ String c e) = (g +:+ String c EmptyString, e).
Proof.
  intros He. induction g as [| a g IH].
  - change (EmptyString +:+ String c e) with (String c e). simpl.
    rewrite (rsplit_at_absent c e He). cbn [truthy].
    rewrite ascii_eqb_refl. reflexivity.
  - change (String a g +:+ String c e) with (String a (g +:+ String c e)).
    simpl. rewrite IH.
    destruct g; reflexivity.
Qed.

Lemma lstrip_app_cases p g s :
  lstrip_by p (g +:+ s) = lstrip_by p s
  \/ exists x g', lstrip_by p (g +:+ s) = String x g' +:+ s.
Proof.
  induction g as [| a g IH]; [left; reflexivity |].
  change (String a g +:+ s) with (String a (g +:+ s)). simpl.
  destruct (p a); [exact IH | right; exists a, g; reflexivity].
Qed.

Lemma filetype_of_image u :
  has_char "?" u = false -> App.is_image_url u = true ->
  filetype_of (filename_of u) ∈ App.VALID_IMAGE_EXTS
  \/ filetype_of (filename_of u) = EmptyString.
Proof.
  intros Hq Himg. unfold App.is_image_url in Himg.
  destruct (negb (truthy u)); [discriminate |].
  rewrite hd_split_absent in Himg by exact Hq.
  apply existsb_exists in Himg as (ext & Hext & Hend).
  apply endswith_spec in Hend as (pre & Hlow).
  apply lower_app_inv in Hlow as (a & b & -> & _ & Hb).
  destruct b as [| c0 e]; [discriminate |].
  change (String (lower_char c0) (lower e) = String "." ext) in Hb.
  injection Hb as Hc0 He.
  assert (c0 = "."%char) as -> by (revert Hc0; by_cases_on_bits c0).
  assert (Hext' : ext ∈ App.VALID_IMAGE_EXTS) by (apply list_elem_of_In; exact Hext).
  assert (Hfree : has_char "/" e = false /\ has_char "." e = false).
  { rewrite <- (has_char_lower "/" e), <- (has_char_lower "." e), He
      by reflexivity.
    unfold App.VALID_IMAGE_EXTS in Hext.
    repeat (destruct Hext as [<- | Hext]; [split; reflexivity |]).
    destruct Hext. }
  destruct Hfree as [Hslash Hdot].
  assert (Hname : filename_of (a +:+ String "." e)
                  = last_item (split "/" a) +:+ String "." e).
  { unfold filename_of. rewrite last_item_split_app by (simpl; exact Hslash).
    rewrite <- last_item_split_app by (simpl; exact Hslash).
    apply hd_split_absent. eapply split_elem_sub; [exact Hq |].
    apply last_item_elem, split_not_nil. }
  assert (Hnoslash : has_char "/" (filename_of (a +:+ String "." e)) = false).
  { apply filename_of_absent. left. reflexivity. }
  rewrite Hname in *. set (g := last_item (split "/" a)) in *.
  unfold filetype_of, splitext.
  rewrite (rsplit_at_absent "/" _ Hnoslash).
  destruct (lstrip_app_cases (ascii_eqb ".") g (String "." e))
    as [Hstrip | (x & g' & Hstrip)]; rewrite Hstrip.
  - right.
    change (lstrip_by (ascii_eqb ".") (String "." e))
      with (if ascii_eqb "." "." then lstrip_by (ascii_eqb ".") e
            else String "." e).
    rewrite ascii_eqb_refl, (lstrip_absent "." e Hdot), Hdot. reflexivity.
  - left.
    assert (Hhas : has_char "." (String x g' +:+ String "." e) = true).
    { rewrite has_char_app.
      change (has_char "." (String "." e)) with (ascii_eqb "." "." || has_char "." e).
      rewrite ascii_eqb_refl. apply orb_true_r. }
    rewrite Hhas, rsplit_at_app by exact Hdot. cbn [snd].
    change (lstrip_by (ascii_eqb ".") ("." +:+ e))
      with (if ascii_eqb "." "." then lstrip_by (ascii_eqb ".") e
            else String "." e).
    rewrite ascii_eqb_refl, (lstrip_absent "." e Hdot), He. exact Hext'.
Qed.

(** X11: the file type the table shows for an image that the extractor of
    [app.py] returned is one of the six image extensions, or empty; it is
    empty when the name is the extension alone, as in [.jpg], which
    [os.path.splitext] takes for a hidden file without an extension. *)
Theorem X11_file_type_of_extracted_image base html kws imgs u size :
  App.extract_images_from_html base html kws = Ok imgs -> u ∈ imgs ->
  FileType (row_of (entry_of (u, size))) ∈ App.VALID_IMAGE_EXTS
  \/ FileType (row_of (entry_of (u, size))) = EmptyString.
Proof.
  intros Hrun Hu.
  destruct (app_images_canonical _ _ _ _ _ Hrun Hu) as (Himg & Hq & _).
  apply filetype_of_image; assumption.
Qed.

Lemma X11_witness :
  FileType (row_of (entry_of ("http://h/.jpg", 1%Q))) ∈ App.VALID_IMAGE_EXTS
  \/ FileType (row_of (entry_of ("http://h/.jpg", 1%Q))) = EmptyString.
Proof.
  apply (X11_file_type_of_extracted_image "http://h/p"
           (Some [Examples.img [("src", ".jpg")]]) []
           {[ "http://h/.jpg" ]}).
  - vm_compute. reflexivity.
  - set_solver.
Defined.

(** The image [.jpg] is extracted, and its file type is empty. *)
Lemma extension_alone_has_no_file_type :
  App.extract_images_from_html "http://h/p"
    (Some [Examples.img [("src", ".jpg")]]) [] = Ok {[ "http://h/.jpg" ]}
  /\ FileType (row_of (entry_of ("http://h/.jpg", 1%Q))) = EmptyString.
Proof. split; vm_compute; reflexivity. Qed.

End FileNames.

(** ** More on the crawl *)


Section SchedulerCorners.

Variable W : World.
Variable same_host : string -> string -> bool.
Variable guarded_pop : bool.
Variable fetch_text : World -> nat -> string -> option Html.
Variable extract : string -> option Html -> result (gset string * gset string).
Variable activity_label : string.
Variable base_host : string.
Variable max_pages : Z.
Variable concurrency : Z.

Local Abbreviation loop :=
  (crawl_loop W same_host guarded_pop fetch_text extract activity_label
     base_host max_pages concurrency).

Lemma list_of_set_empty : list_of_set W ∅ = [].
Proof.
  unfold list_of_set. apply Permutation_nil_r.
  rewrite (set_order_perm W ∅), elements_empty. reflexivity.
Qed.

Lemma length_list_of_set s : length (list_of_set W s) = size s.
Proof. unfold list_of_set. rewrite (set_order_perm W s). reflexivity. Qed.

(** *** Crawls that do nothing *)

Lemma crawl_loop_idle fuel base_url progress :
  (max_pages <= 0)%Z \/ (concurrency <= 0)%Z \/ stop_flag W 0 = true ->
  exists c',
    loop (S fuel) (initial base_url progress) = (Returned [] 0, c')
    /\ visited_urls (trace c') = [] /\ fetched_urls (trace c') = []
    /\ progress_state c' = progress.
Proof.
  intros Hidle.
  destruct (Z.le_gt_cases max_pages 0) as [Hmax | Hmax].
  { rewrite crawl_loop_no_budget by exact Hmax.
    eexists. split.
    { unfold finish. cbn [initial found_images seen].
      rewrite list_of_set_empty, size_empty. reflexivity. }
    split_and!; reflexivity. }
  cbn [crawl_loop initial to_visit seen clock].
  rewrite size_empty. change (Z.of_nat 0) with 0%Z.
  destruct (0 <? max_pages)%Z eqn:E; [| apply Z.ltb_ge in E; lia].
  cbn [negb].
  destruct (stop_flag W 0) eqn:Hstop.
  - eexists. split.
    { unfold finish. cbn [initial log_event tick found_images seen].
      rewrite list_of_set_empty, size_empty. reflexivity. }
    split_and!; reflexivity.
  - destruct Hidle as [H | [H | H]]; [lia | | discriminate].
    assert (Hk : Z.to_nat (batch_size max_pages concurrency
                   (tick (initial base_url progress))) = 0) by
      (unfold batch_size; cbn [tick initial to_visit seen]; lia).
    unfold initial, tick in *. cbn [clock seen to_visit found_images
                                       progress_state trace] in *.
    rewrite Hk. cbn [draw].
    eexists. split.
    { unfold finish. cbn [found_images seen].
      rewrite list_of_set_empty, size_empty. reflexivity. }
    split_and!; reflexivity.
Qed.

(** *** A home page that gives no text *)

Lemma crawl_loop_unreachable fuel base_url progress :
  (1 <= max_pages)%Z -> (1 <= concurrency)%Z ->
  stop_flag W 0 = false -> stop_flag W 1 = false ->
  same_host base_url base_host = true ->
  fetch_text W 1 base_url = None -> extract base_url None = Ok (∅, ∅) ->
  exists c',
    loop (S (S fuel)) (initial base_url progress) = (Returned [] 1, c')
    /\ trace c' = [Visited base_url; FetchStarted base_url].
Proof.
  intros Hmax Hconc Hstop0 Hstop1 Hhost Hfetch Hextract.
  set (c1 := mark_seen base_url (pop_front (tick (initial base_url progress)))).
  set (c2 := log_event (FetchStarted base_url)
               (set_progress
                  (fun p => {| pages_visited := pages_visited p;
                               images_found := images_found p;
                               current_activity := activity_label +:+ base_url |})
                  (tick c1))).
  set (c3 := report (merge same_host base_host max_pages [([], [])] c2)).
  assert (Hk : Z.to_nat (batch_size max_pages concurrency
                 (tick (initial base_url progress))) = 1) by
    (unfold batch_size; cbn [tick initial to_visit seen length];
     rewrite size_empty; lia).
  assert (Hdraw : draw same_host guarded_pop base_host 1
                    (tick (initial base_url progress)) []
                  = Ok (c1, [base_url])).
  { cbn [draw]. change (to_visit (tick (initial base_url progress)))
      with [base_url]. cbv beta iota.
    change (seen (pop_front (tick (initial base_url progress))))
      with (∅ : gset string).
    rewrite Hhost, bool_decide_true by set_solver. reflexivity. }
  assert (Hstart : start_all W activity_label [base_url] c1
                   = (c2, [(base_url, Some 1)])).
  { cbn [start_all]. unfold start_visit.
    change (clock c1) with 1. rewrite Hstop1. reflexivity. }
  assert (Hfinish : finish_all W fetch_text extract [(base_url, Some 1)] c2
                    = (Ok [([], [])], c2)).
  { cbn [finish_all finish_visit]. rewrite Hfetch, Hextract.
    cbn [mbind result_bind rbind fst snd]. rewrite list_of_set_empty.
    reflexivity. }
  assert (Hfirst : loop (S (S fuel)) (initial base_url progress)
                   = loop (S fuel) c3).
  { remember (S fuel) as fuel1 eqn:Hfuel. cbn [crawl_loop].
    rewrite Hk, Hdraw.
    change (to_visit (initial base_url progress)) with [base_url].
    change (seen (initial base_url progress)) with (∅ : gset string).
    change (clock (initial base_url progress)) with 0.
    rewrite size_empty. change (Z.of_nat 0) with 0%Z.
    destruct (0 <? max_pages)%Z eqn:E; [| apply Z.ltb_ge in E; lia].
    cbn [negb]. rewrite Hstop0. cbv beta iota.
    rewrite Hstart, Hfinish. reflexivity. }
  rewrite Hfirst. exists c3. split; [| reflexivity].
  cbn [crawl_loop]. change (to_visit c3) with (@nil string). cbv beta iota.
  unfold finish. f_equal. f_equal.
  - change (found_images c3) with ((∅ : gset string) ∪ list_to_set []).
    change (list_to_set (@nil string)) with (∅ : gset string).
    rewrite (left_id_L ∅ (∪)). apply list_of_set_empty.
  - change (seen c3) with ((∅ : gset string) ∪ {[ base_url ]}).
    rewrite (left_id_L ∅ (∪)). apply size_singleton.
Qed.

(** *** The counters of [progress_state] *)

Lemma draw_progress k c batch c' batch' :
  draw same_host guarded_pop base_host k c batch = Ok (c', batch') ->
  progress_state c' = progress_state c.
Proof.
  revert c batch. induction k as [| k IH]; intros c batch Hrun;
    simpl in Hrun.
  - injection Hrun as <- _. reflexivity.
  - destruct (to_visit c) as [| u rest].
    + destruct guarded_pop; [| discriminate]. injection Hrun as <- _.
      reflexivity.
    + destruct (_ && _); apply IH in Hrun; exact Hrun.
Qed.

Lemma start_all_progress batch c c' tasks :
  start_all W activity_label batch c = (c', tasks) ->
  is_Some (progress_state c') <-> is_Some (progress_state c).
Proof.
  revert c c' tasks. induction batch as [| u batch IH]; intros c c' tasks Hrun;
    simpl in Hrun.
  - injection Hrun as <- _. reflexivity.
  - destruct (start_visit W activity_label u c) as [c1 r1] eqn:H1.
    destruct (start_all W activity_label batch c1) as [c2 rs] eqn:H2.
    injection Hrun as <- _. rewrite (IH _ _ _ H2).
    unfold start_visit in H1. destruct (stop_flag W (clock c)).
    + injection H1 as <- _. reflexivity.
    + injection H1 as <- _. cbn [log_event set_progress progress_state tick].
      apply fmap_is_Some.
Qed.

Lemma finish_all_progress tasks c res c' :
  finish_all W fetch_text extract tasks c = (res, c') ->
  progress_state c' = progress_state c.
Proof.
  revert c res c'. induction tasks as [| task tasks IH]; intros c res c' Hrun;
    simpl in Hrun.
  - injection Hrun as _ <-. reflexivity.
  - destruct (finish_visit W fetch_text extract task c) as [r1 c1] eqn:H1.
    assert (Hc1 : progress_state c1 = progress_state c).
    { destruct task as [u [t |]]; simpl in H1; injection H1 as _ <-;
        [destruct (fetch_text W t u) |]; reflexivity. }
    destruct r1 as [r |]; [| injection Hrun as _ <-; exact Hc1].
    destruct (finish_all W fetch_text extract tasks c1) as [res2 c2] eqn:H2.
    apply IH in H2. rewrite <- Hc1, <- H2.
    destruct res2; injection Hrun as _ <-; reflexivity.
Qed.

Lemma merge_links_progress links c :
  progress_state (merge_links same_host base_host max_pages links c)
  = progress_state c.
Proof.
  revert c. induction links as [| l links IH]; intros c; simpl; [reflexivity |].
  destruct (_ && _); rewrite IH; reflexivity.
Qed.

Lemma merge_progress results c :
  progress_state (merge same_host base_host max_pages results c)
  = progress_state c.
Proof.
  revert c. induction results as [| [imgs links] results IH]; intros c; simpl;
    [reflexivity |].
  rewrite IH, merge_links_progress. reflexivity.
Qed.

Lemma report_counters c : counters_agree (report c).
Proof.
  unfold counters_agree, report. cbn [set_progress progress_state seen found_images].
  destruct (progress_state c); simpl; [split; reflexivity | exact I].
Qed.

Lemma crawl_loop_counters fuel c l n c' :
  counters_agree c -> loop fuel c = (Returned l n, c') ->
  counters_agree c'
  /\ (is_Some (progress_state c') <-> is_Some (progress_state c)).
Proof.
  revert c. induction fuel as [| fuel IH]; intros c Hc Hrun; simpl in Hrun;
    [discriminate |].
  destruct (to_visit c) as [| u0 rest] eqn:Hq.
  { injection Hrun as _ _ <-. split; [exact Hc | reflexivity]. }
  destruct (negb _).
  { injection Hrun as _ _ <-. split; [exact Hc | reflexivity]. }
  destruct (stop_flag W (clock c)).
  { injection Hrun as _ _ <-. split; [exact Hc | reflexivity]. }
  destruct (draw same_host guarded_pop base_host _ (tick c) [])
    as [[c1 batch] |] eqn:Hdraw; [| discriminate].
  pose proof (draw_progress _ _ _ _ _ Hdraw) as Hp1.
  apply (draw_effect W _ _ fetch_text extract) in Hdraw
    as (new & Hbatch & _ & Hs1 & _ & _ & _ & _ & Hf1 & _).
  cbn [tick progress_state seen found_images] in Hp1, Hs1, Hf1.
  destruct batch as [| u batch].
  { injection Hrun as _ _ <-. destruct new; [| discriminate].
    split; [| rewrite Hp1; reflexivity].
    unfold counters_agree in *. rewrite Hp1, Hs1, Hf1.
    change (list_to_set (@nil string)) with (∅ : gset string).
    rewrite (right_id_L ∅ (∪)). exact Hc. }
  destruct (start_all W activity_label (u :: batch) c1) as [c2 tasks] eqn:Hstart.
  apply start_all_progress in Hstart.
  destruct (finish_all W fetch_text extract tasks c2) as [res c3] eqn:Hfin.
  apply finish_all_progress in Hfin.
  destruct res as [results |]; [| discriminate].
  destruct (IH _ (report_counters _) Hrun) as [Hagree Hshape].
  split; [exact Hagree |].
  rewrite Hshape. unfold report. cbn [set_progress progress_state].
  rewrite fmap_is_Some, merge_progress, Hfin, Hstart, Hp1. reflexivity.
Qed.

(** *** Where an exception of the loop comes from *)



(** *** Where the images of a crawl come from *)

Section Images.

Variable P : string -> Prop.
Hypothesis extract_P :
  forall u html r i, extract u html = Ok r -> i ∈ r.1 -> P i.

Lemma elem_of_list_of_set_1 (s : gset string) i :
  i ∈ list_of_set W s -> i ∈ s.
Proof.
  unfold list_of_set. rewrite (set_order_perm W s). apply elem_of_elements.
Qed.

Lemma finish_all_images tasks c results c' :
  finish_all W fetch_text extract tasks c = (Ok results, c') ->
  forall imgs links i, (imgs, links) ∈ results -> i ∈ imgs -> P i.
Proof.
  revert c results c'.
  induction tasks as [| task tasks IH]; intros c results c' Hrun;
    simpl in Hrun.
  - injection Hrun as <- _. intros imgs links i Hin. inversion Hin.
  - destruct (finish_visit W fetch_text extract task c) as [r1 c1] eqn:H1.
    destruct r1 as [r |]; [| discriminate].
    destruct (finish_all W fetch_text extract tasks c1) as [res2 c2] eqn:H2.
    destruct res2 as [rs |]; [| discriminate].
    injection Hrun as <- _. intros imgs links i Hin Hi.
    apply elem_of_cons in Hin as [Heq | Hin]; [| eapply IH; eassumption].
    subst r. destruct task as [u [t |]]; simpl in H1.
    + destruct (extract u (fetch_text W t u)) as [r |] eqn:Hex; simpl in H1;
        [| discriminate].
      injection H1 as <- _ _. apply elem_of_list_of_set_1 in Hi.
      eapply extract_P; eassumption.
    + injection H1 as <- _ _. inversion Hi.
Qed.

Lemma merge_images results c i :
  i ∈ found_images (merge same_host base_host max_pages results c) ->
  i ∈ found_images c
  \/ exists imgs links, (imgs, links) ∈ results /\ i ∈ imgs.
Proof.
  revert c. induction results as [| [imgs links] results IH]; intros c Hi;
    simpl in Hi; [left; exact Hi |].
  apply IH in Hi as [Hi | (imgs' & links' & Hin & Hi)].
  - destruct (merge_links_effect same_host base_host max_pages links
                (add_images imgs c)) as (_ & Hf & _).
    rewrite Hf in Hi. cbn [add_images found_images] in Hi.
    apply elem_of_union in Hi as [Hi | Hi]; [left; exact Hi |].
    right. exists imgs, links. split; [left |].
    apply elem_of_list_to_set in Hi. exact Hi.
  - right. exists imgs', links'. split; [right; exact Hin | exact Hi].
Qed.

Lemma crawl_loop_images fuel c out c' :
  (forall i, i ∈ found_images c -> P i) ->
  loop fuel c = (out, c') ->
  forall i, i ∈ found_images c' -> P i.
Proof.
  revert c. induction fuel as [| fuel IH]; intros c Hc Hrun; simpl in Hrun.
  { injection Hrun as _ <-. exact Hc. }
  destruct (to_visit c) as [| u0 rest] eqn:Hq.
  { injection Hrun as _ <-. exact Hc. }
  destruct (negb _).
  { injection Hrun as _ <-. exact Hc. }
  destruct (stop_flag W (clock c)).
  { injection Hrun as _ <-. exact Hc. }
  destruct (draw same_host guarded_pop base_host _ (tick c) [])
    as [[c1 batch] |] eqn:Hdraw.
  2:{ injection Hrun as _ <-. exact Hc. }
  apply (draw_effect W _ _ fetch_text extract) in Hdraw
    as (new & _ & _ & _ & _ & _ & _ & _ & Hf1 & _).
  cbn [tick found_images] in Hf1.
  destruct batch as [| u batch].
  { injection Hrun as _ <-. rewrite Hf1. exact Hc. }
  destruct (start_all W activity_label (u :: batch) c1) as [c2 tasks] eqn:Hstart.
  apply start_all_effect in Hstart as (_ & _ & Hf2 & _).
  destruct (finish_all W fetch_text extract tasks c2) as [res c3] eqn:Hfin.
  pose proof (finish_all_effect _ _ _ _ _ _ _ Hfin) as (_ & Hf3 & _).
  destruct res as [results |].
  - eapply IH; [| exact Hrun]. intros i Hi.
    change (found_images (report ?x)) with (found_images x) in Hi.
    apply merge_images in Hi as [Hi | (imgs & links & Hin & Hi)].
    + apply Hc. rewrite <- Hf1, <- Hf2, <- Hf3. exact Hi.
    + eapply finish_all_images; eassumption.
  - injection Hrun as _ <-. intros i Hi. apply Hc.
    rewrite <- Hf1, <- Hf2, <- Hf3. exact Hi.
Qed.

End Images.

End SchedulerCorners.

(** *** Requests *)

(** *** The order of the events of a log *)

Lemma in_order_mono vis fet vis' fet' tr :
  vis ⊆ vis' -> fet ⊆ fet' -> in_order vis fet tr -> in_order vis' fet' tr.
Proof.
  revert vis fet vis' fet'.
  induction tr as [| e tr IH]; intros vis fet vis' fet' Hv Hf H; [exact I |].
  destruct e as [u | imgs n | u | u | u]; cbn [in_order] in *.
  - eapply IH; [| | exact H]; set_solver.
  - eapply IH; eassumption.
  - destruct H as [Hu H]. split; [set_solver |].
    eapply IH; [| | exact H]; set_solver.
  - destruct H as [Hu H]. split; [set_solver |]. eapply IH; eassumption.
  - eapply IH; eassumption.
Qed.

Lemma in_order_app vis fet tr1 tr2 :
  in_order vis fet tr1 ->
  in_order (vis ∪ list_to_set (visited_urls tr1))
    (fet ∪ list_to_set (fetched_urls tr1)) tr2 ->
  in_order vis fet (tr1 ++ tr2).
Proof.
  revert vis fet. induction tr1 as [| e tr1 IH]; intros vis fet H1 H2.
  - eapply in_order_mono; [| | exact H2];
      unfold visited_urls, fetched_urls; simpl; set_solver.
  - destruct e as [u | imgs n | u | u | u];
      change ((?e :: tr1) ++ tr2) with (e :: (tr1 ++ tr2));
      cbn [in_order] in *.
    + apply IH; [exact H1 |]. eapply in_order_mono; [| | exact H2];
        unfold visited_urls, fetched_urls; simpl; set_solver.
    + apply IH; [exact H1 |]. exact H2.
    + destruct H1 as [Hu H1]. split; [exact Hu |].
      apply IH; [exact H1 |]. eapply in_order_mono; [| | exact H2];
        unfold visited_urls, fetched_urls; simpl; set_solver.
    + destruct H1 as [Hu H1]. split; [exact Hu |].
      apply IH; [exact H1 |]. exact H2.
    + apply IH; [exact H1 |]. exact H2.
Qed.

Lemma in_order_prefix vis fet tr1 tr2 :
  in_order vis fet (tr1 ++ tr2) -> in_order vis fet tr1.
Proof.
  revert vis fet. induction tr1 as [| e tr1 IH]; intros vis fet H; [exact I |].
  destruct e as [u | imgs n | u | u | u];
    change ((?e :: tr1) ++ tr2) with (e :: (tr1 ++ tr2)) in H;
    cbn [in_order] in *.
  - eapply IH; exact H.
  - eapply IH; exact H.
  - destruct H as [Hu H]. split; [exact Hu | eapply IH; exact H].
  - destruct H as [Hu H]. split; [exact Hu | eapply IH; exact H].
  - eapply IH; exact H.
Qed.

Lemma in_order_sound vis fet tr :
  in_order vis fet tr ->
  (forall u, u ∈ fetched_urls tr -> u ∈ vis \/ u ∈ visited_urls tr)
  /\ (forall u, u ∈ parsed_urls tr -> u ∈ fet \/ u ∈ fetched_urls tr).
Proof.
  revert vis fet. induction tr as [| e tr IH]; intros vis fet H.
  - split; intros u Hu; inversion Hu.
  - destruct e as [v | imgs n | v | v | v]; cbn [in_order] in H.
    + destruct (IH _ _ H) as [Hf Hp]. split; intros u Hu.
      * change (fetched_urls (Visited v :: tr)) with (fetched_urls tr) in Hu.
        change (visited_urls (Visited v :: tr)) with (v :: visited_urls tr).
        destruct (Hf u Hu) as [Hin | Hin]; [| right; right; exact Hin].
        apply elem_of_union in Hin as [Hin | Hin]; [left; exact Hin |].
        apply elem_of_singleton in Hin. subst u. right. left.
      * change (parsed_urls (Visited v :: tr)) with (parsed_urls tr) in Hu.
        change (fetched_urls (Visited v :: tr)) with (fetched_urls tr).
        exact (Hp u Hu).
    + exact (IH _ _ H).
    + destruct H as [Hv H]. destruct (IH _ _ H) as [Hf Hp]. split; intros u Hu.
      * change (fetched_urls (FetchStarted v :: tr))
          with (v :: fetched_urls tr) in Hu.
        change (visited_urls (FetchStarted v :: tr)) with (visited_urls tr).
        apply elem_of_cons in Hu as [-> | Hu]; [left; exact Hv | exact (Hf u Hu)].
      * change (parsed_urls (FetchStarted v :: tr)) with (parsed_urls tr) in Hu.
        change (fetched_urls (FetchStarted v :: tr)) with (v :: fetched_urls tr).
        destruct (Hp u Hu) as [Hin | Hin]; [| right; right; exact Hin].
        apply elem_of_union in Hin as [Hin | Hin]; [left; exact Hin |].
        apply elem_of_singleton in Hin. subst u. right. left.
    + destruct H as [Hv H]. destruct (IH _ _ H) as [Hf Hp]. split; intros u Hu.
      * exact (Hf u Hu).
      * change (parsed_urls (Parsed v :: tr)) with (v :: parsed_urls tr) in Hu.
        change (fetched_urls (Parsed v :: tr)) with (fetched_urls tr).
        apply elem_of_cons in Hu as [-> | Hu]; [left; exact Hv | exact (Hp u Hu)].
    + exact (IH _ _ H).
Qed.

Lemma in_order_prefixes tr :
  in_order ∅ ∅ tr ->
  forall p, p `prefix_of` tr ->
    fetched_urls p ⊆ visited_urls p /\ parsed_urls p ⊆ fetched_urls p.
Proof.
  intros H p [k ->]. apply in_order_prefix in H.
  destruct (in_order_sound _ _ _ H) as [Hf Hp].
  split; intros u Hu; [destruct (Hf u Hu) | destruct (Hp u Hu)];
    set_solver.
Qed.

Lemma in_order_visited vis fet new : in_order vis fet (Visited <$> new).
Proof.
  revert vis. induction new as [| u new IH]; intros vis; [exact I |].
  rewrite fmap_cons. cbn [in_order]. apply IH.
Qed.

Lemma in_order_enqueued vis fet ls : in_order vis fet (Enqueued <$> ls).
Proof.
  induction ls as [| u ls IH]; [exact I |].
  rewrite fmap_cons. cbn [in_order]. exact IH.
Qed.

Lemma in_order_parsed vis fet ps :
  (forall u, u ∈ ps -> u ∈ fet) -> in_order vis fet (Parsed <$> ps).
Proof.
  induction ps as [| u ps IH]; intros H; [exact I |].
  rewrite fmap_cons. cbn [in_order]. split; [apply H; left |].
  apply IH. intros v Hv. apply H. right. exact Hv.
Qed.

Lemma in_order_started vis fet imgs n tasks :
  (forall u, u ∈ fst <$> tasks -> u ∈ vis) ->
  in_order vis fet (start_event imgs n <$> tasks).
Proof.
  revert fet. induction tasks as [| [u [t |]] tasks IH]; intros fet H;
    [exact I | |]; rewrite fmap_cons in *;
    change (start_event imgs n (u, ?r) :: ?l)
      with (match r with
            | Some _ => FetchStarted u
            | None => StopObserved imgs n
            end :: l);
    cbv beta iota; cbn [in_order].
  - split; [apply H; left |]. apply IH. intros v Hv. apply H. right. exact Hv.
  - apply IH. intros v Hv. apply H. right. exact Hv.
Qed.

Section LogOrder.

Variable W : World.
Variable same_host : string -> string -> bool.
Variable guarded_pop : bool.
Variable fetch_text : World -> nat -> string -> option Html.
Variable extract : string -> option Html -> result (gset string * gset string).
Variable activity_label : string.
Variable base_host : string.
Variable max_pages : Z.
Variable concurrency : Z.

Lemma iteration_in_order c c1 :
  iteration W same_host base_host max_pages c c1 ->
  in_order ∅ ∅ (trace c) -> in_order ∅ ∅ (trace c1).
Proof.
  intros (new & tasks & ps & ls & -> & _ & _ & _ & _ & _ & Htasks & _ & Hps & _)
         Hc.
  destruct (projections_visited new) as (Hv1 & Hv2 & _).
  destruct (projections_started (found_images c) (size (seen c) + length new)
              tasks) as (Hs1 & Hs2 & _).
  destruct (projections_parsed ps) as (Hp1 & Hp2 & _).
  apply in_order_app; [exact Hc |].
  apply in_order_app; [apply in_order_visited |].
  apply in_order_app.
  { apply in_order_started. intros u Hu. rewrite Htasks in Hu.
    rewrite Hv1. set_solver. }
  apply in_order_app; [| apply in_order_enqueued].
  apply in_order_parsed. intros u Hu.
  rewrite Hs2. apply elem_of_union. right. apply elem_of_list_to_set.
  eapply elem_of_sublist; eassumption.
Qed.

Lemma crawl_loop_in_order fuel c out c' :
  in_order ∅ ∅ (trace c) ->
  crawl_loop W same_host guarded_pop fetch_text extract activity_label
    base_host max_pages concurrency fuel c = (out, c') ->
  in_order ∅ ∅ (trace c').
Proof.
  revert c. induction fuel as [| fuel IH]; intros c Hc Hrun.
  - simpl in Hrun. injection Hrun as _ <-. exact Hc.
  - apply crawl_loop_step in Hrun
      as [Hfin | [(_ & Hfin) | (_ & _ & c1 & Hit & Hrest)]].
    + injection Hfin as _ ->. exact Hc.
    + injection Hfin as _ ->. cbn [log_event tick trace].
      apply in_order_app; [exact Hc | exact I].
    + pose proof (iteration_in_order _ _ Hit Hc) as Hc1.
      destruct Hrest as [(e & _ & ->) | [Hfin | (_ & Hrec)]].
      * exact Hc1.
      * injection Hfin as _ ->. exact Hc1.
      * exact (IH c1 Hc1 Hrec).
Qed.

End LogOrder.

Lemma initial_requests_once base_url progress :
  requests_once (initial base_url progress).
Proof.
  unfold requests_once. cbn [initial trace seen].
  change (fetched_urls []) with (@nil string).
  change (parsed_urls []) with (@nil string).
  split_and!; try apply NoDup_nil_2; [simpl; lia |].
  apply in_order_prefixes. exact I.
Qed.

Lemma run_requests_once W same_host guarded_pop fetch_text extract
    activity_label max_pages concurrency base_url progress run :
  run_of W same_host guarded_pop fetch_text extract activity_label
    max_pages concurrency base_url progress run ->
  requests_once run.2.
Proof.
  intros [(e & ->) | (rb & Hrb & Hloop)]; [apply initial_requests_once |].
  destruct run as [out c]. symmetry in Hloop.
  pose proof (crawl_loop_in_order _ _ _ _ _ _ _ _ _ _
                (initial base_url progress) _ _ I Hloop) as Horder.
  apply crawl_run in Hloop as (_ & _ & Hinv & Hinit & _).
  destruct (Z.le_gt_cases 0 max_pages) as [Hmax | Hmax].
  - specialize (Hinv Hmax).
    pose proof (invariant_size _ _ _ c Hinv) as Hsize.
    destruct Hinv as (Hnd & Hseen & Hb & Hhost & Hsnap & Hfnd & Hfsub & Hpnd
                      & Hpsub).
    unfold requests_once. cbn [snd]. split_and!; try assumption.
    + rewrite Hsize. apply submseteq_length. apply NoDup_submseteq; assumption.
    + apply in_order_prefixes. exact Horder.
  - cbn [snd]. rewrite (Hinit ltac:(lia)). apply initial_requests_once.
Qed.

(** ** More on the two crawlers *)

Section Crawlers.

Import urllib.

Variable W : World.
Variable base_url : string.
Variable max_pages concurrency : Z.

Lemma crawl_site_loop progress keywords rb :
  urlparse base_url = Ok rb -> (0 <= concurrency)%Z ->
  App.crawl_site W base_url max_pages concurrency progress keywords
  = crawl_loop W App.same_host false App.fetch_text (App.visit keywords)
      "Fetching " (netloc rb) max_pages concurrency (S (Z.to_nat max_pages))
      (initial base_url (Some progress)).
Proof.
  intros Hrb Hc. unfold App.crawl_site. rewrite Hrb.
  destruct (concurrency <? 0)%Z eqn:E; [apply Z.ltb_lt in E; lia | reflexivity].
Qed.

Lemma scan_site_loop progress rb :
  urlparse base_url = Ok rb -> (0 <= concurrency)%Z ->
  Backend.scan_site W base_url max_pages concurrency progress
  = crawl_loop W Backend.same_host true Backend.fetch_text Backend.visit
      "Scraping: " (netloc rb) max_pages concurrency (S (Z.to_nat max_pages))
      (initial base_url progress).
Proof.
  intros Hrb Hc. unfold Backend.scan_site. rewrite Hrb.
  destruct (concurrency <? 0)%Z eqn:E; [apply Z.ltb_lt in E; lia | reflexivity].
Qed.

Lemma same_host_base rb :
  urlparse base_url = Ok rb ->
  App.same_host base_url (netloc rb) = true
  /\ Backend.same_host base_url (netloc rb) = true.
Proof.
  intros Hrb. unfold App.same_host, Backend.same_host. rewrite Hrb.
  split; apply String.eqb_refl.
Qed.

(** X13: both crawlers end: the loop makes at most [max_pages + 1] tests
    of its condition, whatever the site answers. *)
Theorem X13_crawlers_terminate progress keywords bprogress :
  (App.crawl_site W base_url max_pages concurrency progress keywords).1
    <> OutOfFuel
  /\ (Backend.scan_site W base_url max_pages concurrency bprogress).1
     <> OutOfFuel.
Proof.
  split; eapply run_terminates; [apply crawl_site_run | apply scan_site_run].
Qed.

(** X14: a crawl without a budget, without concurrency, or stopped before
    its first turn returns no image and no page, requests nothing and
    leaves [progress_state] as it was. *)
Theorem X14_idle_crawl progress keywords bprogress rb :
  urlparse base_url = Ok rb -> (0 <= concurrency)%Z ->
  (max_pages <= 0)%Z \/ concurrency = 0%Z \/ stop_flag W 0 = true ->
  (exists c',
     App.crawl_site W base_url max_pages concurrency progress keywords
     = (Returned [] 0, c')
     /\ visited_urls (trace c') = [] /\ fetched_urls (trace c') = []
     /\ progress_state c' = Some progress)
  /\ (exists c',
        Backend.scan_site W base_url max_pages concurrency bprogress
        = (Returned [] 0, c')
        /\ visited_urls (trace c') = [] /\ fetched_urls (trace c') = []
        /\ progress_state c' = bprogress).
Proof.
  intros Hrb Hc Hidle.
  assert (Hidle' : (max_pages <= 0)%Z \/ (concurrency <= 0)%Z
                   \/ stop_flag W 0 = true) by (destruct Hidle as [| [|]]; lia || auto).
  split.
  - rewrite (crawl_site_loop _ _ _ Hrb Hc). apply crawl_loop_idle. exact Hidle'.
  - rewrite (scan_site_loop _ _ Hrb Hc). apply crawl_loop_idle. exact Hidle'.
Qed.

(** X15: when the stop flag is not set and the home page gives no text
    (the request fails, or the reply is not text), the crawl returns no
    image and counts the one page it asked for. *)
Theorem X15_unreachable_site progress keywords bprogress rb :
  urlparse base_url = Ok rb -> (1 <= max_pages)%Z -> (1 <= concurrency)%Z ->
  (forall t, stop_flag W t = false) ->
  ((forall t, App.fetch_text W t base_url = None) ->
   exists c',
     App.crawl_site W base_url max_pages concurrency progress keywords
     = (Returned [] 1, c')
     /\ trace c' = [Visited base_url; FetchStarted base_url])
  /\ ((forall t, Backend.fetch_text W t base_url = None) ->
      exists c',
        Backend.scan_site W base_url max_pages concurrency bprogress
        = (Returned [] 1, c')
        /\ trace c' = [Visited base_url; FetchStarted base_url]).
Proof.
  intros Hrb Hmax Hc Hstop. destruct (same_host_base rb Hrb) as [Ha Hb].
  assert (Hfuel : S (Z.to_nat max_pages) = S (S (Z.to_nat (max_pages - 1))))
    by lia.
  split; intros Hfetch.
  - rewrite (crawl_site_loop _ _ _ Hrb ltac:(lia)), Hfuel.
    apply crawl_loop_unreachable; auto.
  - rewrite (scan_site_loop _ _ Hrb ltac:(lia)), Hfuel.
    apply crawl_loop_unreachable; auto.
Qed.

(** X16: after a crawl that returns, the counters of a [progress_state]
    that started at zero show the result: the number of pages and the
    number of images returned. *)
Theorem X16_progress_counters progress keywords l n c' :
  pages_visited progress = 0 -> images_found progress = 0 ->
  App.crawl_site W base_url max_pages concurrency progress keywords
    = (Returned l n, c')
  \/ Backend.scan_site W base_url max_pages concurrency (Some progress)
     = (Returned l n, c') ->
  exists p, progress_state c' = Some p
            /\ pages_visited p = n /\ images_found p = length l.
Proof.
  intros Hp Hi Hrun.
  assert (Hinit : counters_agree (initial base_url (Some progress))).
  { unfold counters_agree. cbn [initial progress_state seen found_images].
    rewrite size_empty. split; assumption. }
  assert (Hloop : exists same_host guarded_pop fetch_text extract label host,
            crawl_loop W same_host guarded_pop fetch_text extract label host
              max_pages concurrency (S (Z.to_nat max_pages))
              (initial base_url (Some progress)) = (Returned l n, c')).
  { destruct Hrun as [Hrun | Hrun];
      [unfold App.crawl_site in Hrun | unfold Backend.scan_site in Hrun];
      (destruct (urlparse base_url) as [rb |]; [| discriminate]);
      (destruct (concurrency <? 0)%Z; [discriminate |]); eauto 10. }
  destruct Hloop as (sh & gp & ft & ex & label & host & Hloop).
  destruct (crawl_loop_counters _ _ _ _ _ _ _ _ _ _ _ _ _ _ Hinit Hloop)
    as [Hagree [_ Hsome]].
  destruct (crawl_run _ _ _ _ _ _ _ _ _ _ _ _ _ Hloop) as (_ & Hret & _).
  destruct (Hret l n eq_refl) as [-> ->].
  unfold counters_agree in Hagree.
  destruct (progress_state c') as [p |] eqn:Ep.
  - exists p. rewrite length_list_of_set. destruct Hagree. auto.
  - exfalso. assert (Hs : is_Some (@None Progress)) by (apply Hsome; eauto).
    destruct Hs as [? ?]. discriminate.
Qed.

(** X17: neither crawler requests a page twice, nor parses one twice, and
    there are at most as many requests as pages counted; at every point of
    the log, the pages requested so far were dispatched before, and the
    pages parsed so far were requested before. *)
Theorem X17_requests_once progress keywords bprogress :
  requests_once
    (App.crawl_site W base_url max_pages concurrency progress keywords).2
  /\ requests_once
       (Backend.scan_site W base_url max_pages concurrency bprogress).2.
Proof.
  split; eapply run_requests_once; [apply crawl_site_run | apply scan_site_run].
Qed.

(** X18: a crawl of a parseable base URL with a concurrency that is not
    negative returns unless a page makes the extractors raise: the draw
    never pops an empty frontier. The count it returns is within the
    budget. *)
Theorem X18_crawl_returns progress keywords bprogress rb :
  urlparse base_url = Ok rb -> (0 <= concurrency)%Z ->
  ((forall u t, exists r,
       App.visit keywords u (App.fetch_text W t u) = Ok r) ->
   exists l m,
     (App.crawl_site W base_url max_pages concurrency progress keywords).1
     = Returned l m /\ (Z.of_nat m <= Z.max 0 max_pages)%Z)
  /\ ((forall u t, exists r,
          Backend.visit u (Backend.fetch_text W t u) = Ok r) ->
      exists l m,
        (Backend.scan_site W base_url max_pages concurrency bprogress).1
        = Returned l m /\ (Z.of_nat m <= Z.max 0 max_pages)%Z).
Proof.
  intros Hrb Hc.
  assert (Hgen : forall same_host guarded_pop fetch_text extract label progress0,
            (forall u t, exists r, extract u (fetch_text W t u) = Ok r) ->
            exists l m,
              (crawl_loop W same_host guarded_pop fetch_text extract label
                 (netloc rb) max_pages concurrency (S (Z.to_nat max_pages))
                 (initial base_url progress0)).1 = Returned l m
              /\ (Z.of_nat m <= Z.max 0 max_pages)%Z).
  { intros sh gp ft ex label p0 Hok.
    destruct (crawl_loop W sh gp ft ex label (netloc rb) max_pages concurrency
                (S (Z.to_nat max_pages)) (initial base_url p0))
      as [out c'] eqn:Hloop.
    destruct (crawl_run _ _ _ _ _ _ _ _ _ _ _ _ _ Hloop)
      as (Hfuel & Hret & Hinv & Hinit & _ & Hno).
    destruct (returned_or_not out Hfuel (Hno Hok)) as (l & m & ->).
    exists l, m. split; [reflexivity |].
    destruct (Hret l m eq_refl) as [_ ->].
    destruct (Z.le_gt_cases 0 max_pages) as [Hmax | Hmax].
    - destruct (Hinv Hmax) as (_ & _ & Hb & _). lia.
    - rewrite (Hinit ltac:(lia)). cbn [initial seen]. rewrite size_empty. lia. }
  split; intros Hok.
  - rewrite (crawl_site_loop _ _ _ Hrb Hc). apply Hgen. exact Hok.
  - rewrite (scan_site_loop _ _ Hrb Hc). apply Hgen. exact Hok.
Qed.

(** X20: every image either crawler returns was taken from the extraction
    of a page, so that it passes the extension test and is in the canonical
    form of its file; those of [crawl_site] are not excluded either. *)
Theorem X20_returned_images progress keywords bprogress l n u :
  ((App.crawl_site W base_url max_pages concurrency progress keywords).1
   = Returned l n -> u ∈ l ->
   App.is_image_url u = true /\ App.is_excluded u = false
   /\ Py.has_char "?" u = false /\ Py.has_char "#" u = false)
  /\ ((Backend.scan_site W base_url max_pages concurrency bprogress).1
      = Returned l n -> u ∈ l ->
      Backend.is_valid_image u = true /\ Py.has_char "#" u = false).
Proof.
  assert (Hgen : forall (P : string -> Prop) same_host guarded_pop fetch_text
                        extract label host progress0,
            (forall v html r i, extract v html = Ok r -> i ∈ r.1 -> P i) ->
            (crawl_loop W same_host guarded_pop fetch_text extract label host
               max_pages concurrency (S (Z.to_nat max_pages))
               (initial base_url progress0)).1 = Returned l n ->
            u ∈ l -> P u).
  { intros P sh gp ft ex label host p0 Hex Hret Hu.
    destruct (crawl_loop W sh gp ft ex label host max_pages concurrency
                (S (Z.to_nat max_pages)) (initial base_url p0))
      as [out c'] eqn:Hloop.
    simpl in Hret. subst out.
    destruct (crawl_run _ _ _ _ _ _ _ _ _ _ _ _ _ Hloop) as (_ & Hl & _).
    destruct (Hl l n eq_refl) as [-> _].
    apply elem_of_list_of_set_1 in Hu.
    eapply (crawl_loop_images W sh gp ft ex label host max_pages concurrency
              P Hex); [| exact Hloop | exact Hu].
    intros i Hi. cbn [initial found_images] in Hi. set_solver. }
  split.
  - unfold App.crawl_site.
    destruct (urlparse base_url) as [rb |]; [| discriminate].
    destruct (concurrency <? 0)%Z; [discriminate |].
    apply (Hgen (fun u => App.is_image_url u = true
                          /\ App.is_excluded u = false
                          /\ Py.has_char "?" u = false
                          /\ Py.has_char "#" u = false)).
    intros v html r i Hv Hi. unfold App.visit in Hv.
    destruct (App.extract_images_from_html v html keywords) as [imgs |] eqn:Himgs;
      simpl in Hv; [| discriminate].
    destruct (App.extract_links v html) as [links |]; simpl in Hv;
      [| discriminate].
    injection Hv as <-. cbn [fst] in Hi.
    destruct (app_images_canonical _ _ _ _ _ Himgs Hi) as (H1 & H2 & H3).
    pose proof (extract_images_not_excluded _ _ _ _ Himgs i Hi) as H4.
    split_and!; assumption.
  - unfold Backend.scan_site.
    destruct (urlparse base_url) as [rb |]; [| discriminate].
    destruct (concurrency <? 0)%Z; [discriminate |].
    apply (Hgen (fun u => Backend.is_valid_image u = true
                          /\ Py.has_char "#" u = false)).
    intros v html r i Hv Hi. unfold Backend.visit in Hv.
    destruct html as [tags |]; [| injection Hv as <-; set_solver].
    destruct (Backend.extract_images_from_html v (Some tags)) as [imgs |]
      eqn:Himgs; simpl in Hv; [| discriminate].
    destruct (Backend.extract_links v (Some tags)) as [links |]; simpl in Hv;
      [| discriminate].
    injection Hv as <-. cbn [fst] in Hi.
    eapply backend_images_valid; eassumption.
Qed.

End Crawlers.

Lemma X14_witness :
  (exists c',
     App.crawl_site CrawlExamples.world_site "http://h/" 10 0
       CrawlExamples.progress0 ["banner"]
     = (Returned [] 0, c')
     /\ visited_urls (trace c') = [] /\ fetched_urls (trace c') = []
     /\ progress_state c' = Some CrawlExamples.progress0)
  /\ (exists c',
        Backend.scan_site CrawlExamples.world_site "http://h/" 10 0 None
        = (Returned [] 0, c')
        /\ visited_urls (trace c') = [] /\ fetched_urls (trace c') = []
        /\ progress_state c' = None).
Proof.
  eapply (X14_idle_crawl CrawlExamples.world_site "http://h/" 10 0
            CrawlExamples.progress0 ["banner"] None).
  - vm_compute. reflexivity.
  - lia.
  - right. left. reflexivity.
Defined.

Lemma X15_witness :
  exists c',
    App.crawl_site CrawlExamples.world_binary "http://h/" 10 2
      CrawlExamples.progress0 []
    = (Returned [] 1, c')
    /\ trace c' = [Visited "http://h/"; FetchStarted "http://h/"].
Proof.
  eapply (proj1 (X15_unreachable_site CrawlExamples.world_binary "http://h/" 10 2
                   CrawlExamples.progress0 [] None _ _ _ _ _)).
  intros t. reflexivity.
  Unshelve.
  - exact {| urllib.scheme := "http"; urllib.netloc := "h"; urllib.path := "/";
             urllib.params := EmptyString; urllib.query := EmptyString;
             urllib.fragment := EmptyString |}.
  - vm_compute. reflexivity.
  - lia.
  - lia.
  - intros t. reflexivity.
Defined.

Lemma X16_witness :
  exists p,
    progress_state
      (App.crawl_site CrawlExamples.world_site "http://h/" 10 2
         CrawlExamples.progress0 []).2 = Some p
    /\ pages_visited p = 4
    /\ images_found p = length ["http://h/a.jpg"; "http://h/b.png"].
Proof.
  apply (X16_progress_counters CrawlExamples.world_site "http://h/" 10 2
           CrawlExamples.progress0 []).
  - reflexivity.
  - reflexivity.
  - left. vm_compute. reflexivity.
Defined.

Lemma X18_witness :
  exists l m,
    (App.crawl_site CrawlExamples.world_down "http://h/" 10 2
       CrawlExamples.progress0 []).1 = Returned l m
    /\ (Z.of_nat m <= Z.max 0 10)%Z.
Proof.
  eapply (proj1 (X18_crawl_returns CrawlExamples.world_down "http://h/" 10 2
                   CrawlExamples.progress0 [] None _ _ _)).
  intros u t. eexists. reflexivity.
  Unshelve.
  - exact {| urllib.scheme := "http"; urllib.netloc := "h"; urllib.path := "/";
             urllib.params := EmptyString; urllib.query := EmptyString;
             urllib.fragment := EmptyString |}.
  - vm_compute. reflexivity.
  - lia.
Defined.

Lemma X20_witness :
  App.is_image_url "http://h/b.png" = true
  /\ App.is_excluded "http://h/b.png" = false
  /\ Py.has_char "?" "http://h/b.png" = false
  /\ Py.has_char "#" "http://h/b.png" = false.
Proof.
  apply (proj1 (X20_returned_images CrawlExamples.world_site "http://h/" 10 2
                  CrawlExamples.progress0 [] None
                  ["http://h/a.jpg"; "http://h/b.png"] 4 "http://h/b.png")).
  - vm_compute. reflexivity.
  - set_solver.
Defined.

(** ** Cancellation when no page raises *)

Section FlagReads.

Variable W : World.
Variable same_host : string -> string -> bool.
Variable guarded_pop : bool.
Variable fetch_text : World -> nat -> string -> option Html.
Variable extract : string -> option Html -> result (gset string * gset string).
Variable activity_label : string.
Variable base_host : string.
Variable max_pages : Z.
Variable concurrency : Z.

Lemma iteration_flag_reads c c1 :
  stop_flag W (clock c) = false ->
  iteration W same_host base_host max_pages c c1 ->
  flag_reads_logged W c -> flag_reads_logged W c1.
Proof.
  intros Hfalse
         (new & tasks & ps & ls & Htr & _ & _ & _ & _ & _ & Htasks & Hflag & _
          & _ & Hclock)
         Hc t Ht Hset.
  rewrite Htr, existsb_app. apply orb_true_iff.
  destruct (Nat.lt_ge_cases t (clock c)) as [Hlt | Hge];
    [left; exact (Hc t Hlt Hset) | right].
  assert (Hne : t <> clock c) by (intros ->; congruence).
  assert (Hlen : length tasks = length new).
  { rewrite <- Htasks. rewrite length_fmap. reflexivity. }
  destruct (lookup_lt_is_Some_2 tasks (t - clock c - 1) ltac:(lia))
    as [[u r] Hi].
  pose proof (Hflag _ _ _ Hi) as Hr.
  replace (clock c + 1 + (t - clock c - 1)) with t in Hr by lia.
  rewrite Hset in Hr. subst r.
  rewrite !existsb_app. apply orb_true_iff. right.
  apply orb_true_iff. left.
  apply existsb_exists.
  exists (StopObserved (found_images c) (size (seen c) + length new)).
  split; [| reflexivity].
  apply list_elem_of_In, list_elem_of_fmap.
  exists (u, None). split; [reflexivity |].
  eapply list_elem_of_lookup_2. exact Hi.
Qed.

Lemma crawl_loop_flag_reads fuel c out c' :
  flag_reads_logged W c ->
  crawl_loop W same_host guarded_pop fetch_text extract activity_label
    base_host max_pages concurrency fuel c = (out, c') ->
  flag_reads_logged W c'.
Proof.
  revert c. induction fuel as [| fuel IH]; intros c Hc Hrun.
  - simpl in Hrun. injection Hrun as _ <-. exact Hc.
  - apply crawl_loop_step in Hrun
      as [Hfin | [(_ & Hfin) | (Hfalse & _ & c1 & Hit & Hrest)]].
    + injection Hfin as _ ->. exact Hc.
    + injection Hfin as _ ->. intros t _ _. cbn [log_event tick trace].
      rewrite existsb_app. apply orb_true_r.
    + pose proof (iteration_flag_reads _ _ Hfalse Hit Hc) as Hc1.
      destruct Hrest as [(e & _ & ->) | [Hfin | (_ & Hrec)]].
      * exact Hc1.
      * injection Hfin as _ ->. exact Hc1.
      * exact (IH c1 Hc1 Hrec).
Qed.

End FlagReads.

Lemma run_flag_reads W same_host guarded_pop fetch_text extract
    activity_label max_pages concurrency base_url progress run :
  run_of W same_host guarded_pop fetch_text extract activity_label
    max_pages concurrency base_url progress run ->
  flag_reads_logged W run.2.
Proof.
  assert (Hinit : flag_reads_logged W (initial base_url progress)).
  { intros t Ht. cbn [initial clock] in Ht. lia. }
  intros [(e & ->) | (rb & Hrb & Hloop)]; [exact Hinit |].
  destruct run as [out c]. symmetry in Hloop.
  exact (crawl_loop_flag_reads _ _ _ _ _ _ _ _ _ _ _ _ _ Hinit Hloop).
Qed.

(** X21: when the stop flag, once set, stays set: every read of the flag
    that finds it set is logged as an observation; wherever either crawler
    observes the flag, before a batch or inside a task, no page is dispatched
    or requested afterwards; a crawl that returns returns at least the images
    found and the pages counted at that moment, within the budget; and the
    crawl does return whenever no page makes its extractors raise. *)
Theorem X21_cancellation_when_nothing_raises W base_url max_pages concurrency
    progress keywords backend_progress :
  (1 <= max_pages)%Z -> stop_flag_stays W ->
  (flag_reads_logged W
     (App.crawl_site W base_url max_pages concurrency progress keywords).2
   /\ cancellation_kept max_pages
        (forall u t, exists r,
            App.visit keywords u (App.fetch_text W t u) = Ok r)
        (App.crawl_site W base_url max_pages concurrency progress keywords))
  /\ (flag_reads_logged W
        (Backend.scan_site W base_url max_pages concurrency backend_progress).2
      /\ cancellation_kept max_pages
           (forall u t, exists r,
               Backend.visit u (Backend.fetch_text W t u) = Ok r)
           (Backend.scan_site W base_url max_pages concurrency
              backend_progress)).
Proof.
  intros Hmax Hstays. split; split.
  - eapply run_flag_reads. apply crawl_site_run.
  - eapply run_cancellation_kept;
      [apply crawl_site_run | lia | exact Hstays].
  - eapply run_flag_reads. apply scan_site_run.
  - eapply run_cancellation_kept;
      [apply scan_site_run | lia | exact Hstays].
Qed.

Lemma world_stop_in_worker_stays :
  stop_flag_stays CrawlExamples.world_stop_in_worker.
Proof.
  intros t t' Hle Ht.
  change (Nat.leb 3 t = true) in Ht. change (Nat.leb 3 t' = true).
  apply Nat.leb_le. apply Nat.leb_le in Ht. lia.
Qed.

(** The flag is set while the second batch is being started: both tasks see
    it, the image of the first page is kept and three pages are counted. *)
Lemma X21_witness :
  let run := App.crawl_site CrawlExamples.world_stop_in_worker "http://h/"
               10 2 CrawlExamples.progress0 [] in
  (forall u,
      FetchStarted u ∉ [StopObserved {[ "http://h/a.jpg" ]} 3]
      /\ Visited u ∉ [StopObserved {[ "http://h/a.jpg" ]} 3])
  /\ (forall l m, run.1 = Returned l m ->
        {[ "http://h/a.jpg" ]} ⊆ (list_to_set l : gset string)
        /\ 3 <= m /\ (Z.of_nat m <= 10)%Z)
  /\ ((forall u t, exists r,
          App.visit [] u
            (App.fetch_text CrawlExamples.world_stop_in_worker t u) = Ok r) ->
      exists l m, run.1 = Returned l m).
Proof.
  apply (proj2 (proj1 (X21_cancellation_when_nothing_raises
                  CrawlExamples.world_stop_in_worker "http://h/" 10 2
                  CrawlExamples.progress0 [] None ltac:(lia)
                  world_stop_in_worker_stays))
           [Visited "http://h/"; FetchStarted "http://h/"; Parsed "http://h/";
            Enqueued "http://h/p1"; Enqueued "http://h/p2";
            Visited "http://h/p1"; Visited "http://h/p2"]
           {[ "http://h/a.jpg" ]} 3
           [StopObserved {[ "http://h/a.jpg" ]} 3]).
  vm_compute. reflexivity.
Defined.

(** ** The keywords typed in the sidebar *)


Section Keywords.

Import Py.

Lemma truthy_lower s : truthy (lower s) = truthy s.
Proof. destruct s; reflexivity. Qed.

Lemma has_char_rev_app d s acc :
  has_char d (String.rev_app s acc) = has_char d s || has_char d acc.
Proof.
  revert acc. induction s as [| c s IH]; intros acc; [reflexivity |].
  cbn [String.rev_app]. rewrite IH. simpl.
  destruct (ascii_eqb d c), (has_char d s), (has_char d acc); reflexivity.
Qed.

Lemma has_char_rev d s : has_char d (String.rev s) = has_char d s.
Proof. unfold String.rev. rewrite has_char_rev_app. apply orb_false_r. Qed.

Lemma lstrip_by_sub d p s :
  has_char d s = false -> has_char d (lstrip_by p s) = false.
Proof.
  induction s as [| c s IH]; intros H; [reflexivity |]. simpl.
  destruct (p c); [| exact H]. apply IH. simpl in H.
  apply orb_false_iff in H as [_ H]. exact H.
Qed.

Lemma strip_sub d s : has_char d s = false -> has_char d (strip s) = false.
Proof.
  intros H. unfold strip, strip_by, rstrip_by.
  rewrite has_char_rev. apply lstrip_by_sub. rewrite has_char_rev.
  apply lstrip_by_sub. exact H.
Qed.

Lemma lstrip_by_all p s :
  (forall c, has_char c s = true -> p c = true) ->
  lstrip_by p s = EmptyString.
Proof.
  induction s as [| a s IH]; intros H; [reflexivity |]. simpl.
  rewrite (H a) by (simpl; rewrite ascii_eqb_refl; reflexivity).
  apply IH. intros c Hc. apply H. simpl. rewrite Hc. apply orb_true_r.
Qed.

(** X12: every keyword given to the crawler is non-empty, has no
    upper-case letter and no comma; and an input of blanks and commas only
    gives no keyword at all, which leaves the crawl unfiltered. *)
Theorem X12_keywords_clean input :
  (forall k, k ∈ Ui.keywords input ->
     k <> EmptyString /\ lower k = k /\ has_char "," k = false)
  /\ ((forall c, has_char c input = true ->
         is_space c = true \/ c = ","%char) ->
      Ui.keywords input = []
      /\ forall text, App.keyword_match (Ui.keywords input) text = true).
Proof.
  unfold Ui.keywords. split.
  - intros k Hk. apply list_elem_of_fmap in Hk as (k0 & -> & Hk0).
    apply list_elem_of_In, filter_In in Hk0 as [Hin Htruthy].
    apply list_elem_of_In in Hin.
    split_and!.
    + intros Heq. rewrite <- truthy_lower, Heq in Htruthy. discriminate.
    + apply lower_idempotent.
    + rewrite has_char_lower by reflexivity. apply strip_sub.
      eapply split_elem_absent. exact Hin.
  - intros Hblank.
    assert (Hnone : List.filter (fun k => truthy (strip k)) (split "," input)
                    = []).
    { rewrite <- (filter_false (split "," input)). apply filter_ext_in.
      intros a Ha. apply list_elem_of_In in Ha.
      assert (Hstrip : lstrip_by is_space a = EmptyString).
      { apply lstrip_by_all. intros c Hc.
        destruct (has_char c input) eqn:Hin.
        - destruct (Hblank c Hin) as [Hsp | ->]; [exact Hsp |].
          rewrite (split_elem_absent _ _ _ Ha) in Hc. discriminate.
        - rewrite (split_elem_sub _ _ _ _ Hin Ha) in Hc. discriminate. }
      unfold strip, strip_by. rewrite Hstrip. reflexivity. }
    rewrite Hnone. split; reflexivity.
Qed.

Lemma X12_witness :
  Ui.keywords " , ," = []
  /\ forall text, App.keyword_match (Ui.keywords " , ,") text = true.
Proof.
  apply (proj2 (X12_keywords_clean " , ,")).
  intros c Hc. simpl in Hc.
  repeat (apply orb_true_iff in Hc as [Hc | Hc];
          [apply ascii_eqb_eq in Hc; subst c; (left; reflexivity) || (right; reflexivity) |]).
  discriminate.
Defined.

End Keywords.

(** ** The exceptions of the extractors *)

Section Exceptions.

Import Py urllib.





















End Exceptions.
